(** * Airline management system: route planner, flight schedule, booking ledger

    A shallow embedding of [Airline_Managment.py] and the proofs of its
    properties.

    Conventions of the embedding.
    - Python [str] values (airport codes, identifiers, clock times such as
      ['08:00']) are [string]; [<] on them is [String.ltb], the
      lexicographic order on character codes.
    - Python [int] values (capacity, seats, price, distance, costs, stop
      counts) are [Z].
    - [dict]s whose iteration order is never observed ([flights],
      [passengers], the adjacency of the graph) are [gmap]s; [bookings], which
      [cancel_booking] scans in insertion order, is an association list that
      keeps insertion order.
    - [set]s are [gset]s.
    - [uuid.uuid4()] and [datetime.now()] are inputs of the operations that
      call them.
    - [print] is not modelled.
    - A [Flight] object is reached by the booking operations only through
      [AirlineManagementSystem.flights], which holds its seat data
      ([booked_seats], [passengers], [waiting_list]). The schedule and the
      graph, which in the source hold the same objects, are modelled with the
      record as it was constructed: of a flight held there only the fields
      that never change after [Flight.__init__] are meant, and nothing is
      stated about the seat data that [display_flight_schedule] and
      [search_flights] read through them. *)

From stdpp Require Import gmap strings list fin_maps sorting.
From Stdlib Require Import ZArith Lia.

Local Open Scope Z_scope.

(** ** Entities *)

Module Flight.

Record t := mk {
  flight_id : string;
  origin : string;
  destination : string;
  departure_time : string;
  arrival_time : string;
  capacity : Z;
  price : Z;
  distance : Z;
  booked_seats : Z;
  passengers : list string;
  waiting_list : list string
}.

(** [Flight.__init__] *)
Definition init (flight_id origin destination departure_time arrival_time : string)
    (capacity price distance : Z) : t :=
  mk flight_id origin destination departure_time arrival_time
     capacity price distance 0 [] [].

Definition is_available (f : t) : bool := booked_seats f <? capacity f.

Definition get_available_seats (f : t) : Z := capacity f - booked_seats f.

Definition set_booked_seats (n : Z) (f : t) : t :=
  mk (flight_id f) (origin f) (destination f) (departure_time f) (arrival_time f)
     (capacity f) (price f) (distance f) n (passengers f) (waiting_list f).

Definition set_passengers (ps : list string) (f : t) : t :=
  mk (flight_id f) (origin f) (destination f) (departure_time f) (arrival_time f)
     (capacity f) (price f) (distance f) (booked_seats f) ps (waiting_list f).

Definition set_waiting_list (wl : list string) (f : t) : t :=
  mk (flight_id f) (origin f) (destination f) (departure_time f) (arrival_time f)
     (capacity f) (price f) (distance f) (booked_seats f) (passengers f) wl.

End Flight.

Module Passenger.

Record t := mk {
  passenger_id : string;
  name : string;
  email : string;
  phone : string;
  bookings : list string
}.

Definition init (passenger_id name email phone : string) : t :=
  mk passenger_id name email phone [].

Definition set_bookings (bs : list string) (p : t) : t :=
  mk (passenger_id p) (name p) (email p) (phone p) bs.

End Passenger.

Module Booking.

(** The three strings ever stored in [Booking.status]. *)
Inductive status_t := CONFIRMED | CANCELLED | WAITLISTED.

#[global] Instance status_eq_dec : EqDecision status_t.
Proof. solve_decision. Defined.

Record t := mk {
  booking_id : string;
  passenger_id : string;
  flight_id : string;
  booking_time : Z;
  status : status_t
}.

Definition set_status (s : status_t) (b : t) : t :=
  mk (booking_id b) (passenger_id b) (flight_id b) (booking_time b) s.

End Booking.

(** ** Python containers *)

(** [list.remove(x)]: drops the first occurrence, [None] when Python raises
    [ValueError]. *)
Fixpoint list_remove (x : string) (l : list string) : option (list string) :=
  match l with
  | [] => None
  | y :: l' =>
      if decide (y = x) then Some l'
      else match list_remove x l' with
           | Some r => Some (y :: r)
           | None => None
           end
  end.

(** An insertion-ordered [dict] with [str] keys. *)
Section Dict.
Context {V : Type}.

Fixpoint dict_get (k : string) (d : list (string * V)) : option V :=
  match d with
  | [] => None
  | (k', v) :: d' => if decide (k' = k) then Some v else dict_get k d'
  end.

(** [d[k] = v]: an existing key keeps its place, a new one goes last. *)
Fixpoint dict_set (k : string) (v : V) (d : list (string * V)) : list (string * V) :=
  match d with
  | [] => [(k, v)]
  | (k', v') :: d' =>
      if decide (k' = k) then (k, v) :: d' else (k', v') :: dict_set k v d'
  end.

(** In-place mutation of the object stored under [k]. *)
Fixpoint dict_alter (f : V → V) (k : string) (d : list (string * V)) : list (string * V) :=
  match d with
  | [] => []
  | (k', v') :: d' =>
      if decide (k' = k) then (k', f v') :: d' else (k', v') :: dict_alter f k d'
  end.
End Dict.

(** ** FlightSchedule: a singly linked list in departure order *)

Module FlightSchedule.

(** The chain of [FlightNode]s from [head] is the list [head]. *)
Record t := mk {
  head : list Flight.t;
  size : Z
}.

Definition init : t := mk [] 0.

(** The [while] loop of [add_flight], started at node [current] whose
    successors are [next]; the result is the chain from [current] on, after
    [new_node] is linked in. *)
Fixpoint link_after (flight current : Flight.t) (next : list Flight.t) : list Flight.t :=
  match next with
  | n :: rest =>
      if String.ltb (Flight.departure_time n) (Flight.departure_time flight)
      then current :: link_after flight n rest
      else current :: flight :: next
  | [] => [current; flight]
  end.

Definition add_flight (s : t) (flight : Flight.t) : t :=
  match head s with
  | [] => mk [flight] (size s + 1)
  | h :: rest =>
      if String.ltb (Flight.departure_time flight) (Flight.departure_time h)
      then mk (flight :: h :: rest) (size s + 1)
      else mk (link_after flight h rest) (size s + 1)
  end.

(** The walk from the second node on, in [remove_flight]. *)
Fixpoint unlink_after (flight_id : string) (current : Flight.t) (next : list Flight.t)
    : option (list Flight.t) :=
  match next with
  | n :: rest =>
      if decide (Flight.flight_id n = flight_id) then Some (current :: rest)
      else match unlink_after flight_id n rest with
           | Some l => Some (current :: l)
           | None => None
           end
  | [] => None
  end.

Definition remove_flight (s : t) (flight_id : string) : t * bool :=
  match head s with
  | [] => (s, false)
  | h :: rest =>
      if decide (Flight.flight_id h = flight_id) then (mk rest (size s - 1), true)
      else match unlink_after flight_id h rest with
           | Some l => (mk l (size s - 1), true)
           | None => (s, false)
           end
  end.

Definition get_flights_from_airport (s : t) (airport : string) : list Flight.t :=
  filter (λ f, Flight.origin f = airport) (head s).

Definition display_schedule (s : t) : list Flight.t := head s.

End FlightSchedule.

(** ** AirportGraph: airports and the flights leaving each of them *)

Module AirportGraph.

Record t := mk {
  airports : gset string;
  flights : gmap string (list Flight.t);
  distances : gmap string (gmap string Z);
  prices : gmap string (gmap string Z)
}.

Definition init : t := mk ∅ ∅ ∅ ∅.

Definition add_airport (g : t) (airport : string) : t :=
  mk ({[airport]} ∪ airports g) (flights g) (distances g) (prices g).

(** [self.flights[a]] on the [defaultdict(list)]: a missing key reads as the
    empty list (the empty entry that the read leaves behind reads the same
    ever after). *)
Definition flights_from (g : t) (a : string) : list Flight.t :=
  default [] (flights g !! a).

(** [m[o][d] = min(m[o][d], w)] on the nested [defaultdict]s whose missing
    entries read as [float('inf')]. *)
Definition min_into (m : gmap string (gmap string Z)) (o d : string) (w : Z)
    : gmap string (gmap string Z) :=
  let row := default ∅ (m !! o) in
  let w' := match row !! d with Some old => Z.min old w | None => w end in
  <[o := <[d := w']> row]> m.

Definition add_flight_route (g : t) (flight : Flight.t) : t :=
  let origin := Flight.origin flight in
  let destination := Flight.destination flight in
  mk ({[destination]} ∪ ({[origin]} ∪ airports g))
     (<[origin := flights_from g origin ++ [flight]]> (flights g))
     (min_into (distances g) origin destination (Flight.distance flight))
     (min_into (prices g) origin destination (Flight.price flight)).

(** *** Dijkstra *)

(** The tuples [(cost, current_airport, path)] kept in the heap. *)
Definition entry : Type := Z * string * list string.

(** Python's [<] on lists of strings. *)
Fixpoint path_ltb (p q : list string) : bool :=
  match p, q with
  | [], [] => false
  | [], _ :: _ => true
  | _ :: _, [] => false
  | x :: p', y :: q' => if decide (x = y) then path_ltb p' q' else String.ltb x y
  end.

(** Python's [<] on the tuples. *)
Definition entry_ltb (e1 e2 : entry) : bool :=
  let '(c1, a1, p1) := e1 in
  let '(c2, a2, p2) := e2 in
  if decide (c1 = c2) then
    if decide (a1 = a2) then path_ltb p1 p2 else String.ltb a1 a2
  else c1 <? c2.

(** [heapq] keeps a multiset of tuples and hands out a least one; tuples
    that compare equal are equal, so the bag of entries (here in push order)
    determines every pop. *)
Definition heappush (pq : list entry) (e : entry) : list entry := pq ++ [e].

Fixpoint heappop (pq : list entry) : option (entry * list entry) :=
  match pq with
  | [] => None
  | e :: pq' =>
      match heappop pq' with
      | None => Some (e, [])
      | Some (m, rest) =>
          if entry_ltb m e then Some (m, e :: rest) else Some (e, pq')
      end
  end.

Definition edge_cost (criteria : string) (flight : Flight.t) : Z :=
  if decide (criteria = "distance"%string) then Flight.distance flight
  else Flight.price flight.

(** The [for flight in self.flights[current_airport]] loop. *)
Fixpoint push_flights (criteria : string) (current_cost : Z) (path : list string)
    (visited : gset string) (fs : list Flight.t) (pq : list entry) : list entry :=
  match fs with
  | [] => pq
  | flight :: fs' =>
      let next_airport := Flight.destination flight in
      if decide (next_airport ∈ visited) then
        push_flights criteria current_cost path visited fs' pq
      else
        let new_cost := current_cost + edge_cost criteria flight in
        let new_path := path ++ [next_airport] in
        push_flights criteria current_cost path visited fs'
          (heappush pq (new_cost, next_airport, new_path))
  end.

(** The [while pq] loop; [None] when [fuel] iterations were not enough,
    [Some None] for [return None, float('inf')]. *)
Fixpoint dijkstra_loop (fuel : nat) (g : t) (end_ criteria : string)
    (pq : list entry) (visited : gset string) : option (option (list string * Z)) :=
  match fuel with
  | O => None
  | S fuel' =>
      match heappop pq with
      | None => Some None
      | Some ((current_cost, current_airport, path), pq') =>
          if decide (current_airport ∈ visited) then
            dijkstra_loop fuel' g end_ criteria pq' visited
          else
            let visited' := {[current_airport]} ∪ visited in
            if decide (current_airport = end_) then Some (Some (path, current_cost))
            else
              dijkstra_loop fuel' g end_ criteria
                (push_flights criteria current_cost path visited'
                   (flights_from g current_airport) pq')
                visited'
      end
  end.

(** Number of flights stored in the graph. *)
Definition flight_count (g : t) : nat :=
  sum_list ((λ kv, length kv.2) <$> map_to_list (flights g)).

(** Every iteration pops one entry, and the flights of an airport are pushed
    once, so [flight_count g + 2] iterations always suffice
    ([dijkstra_loop_fuel] below). *)
Definition dijkstra_shortest_path (g : t) (start end_ criteria : string)
    : option (list string * Z) :=
  if decide (start ∉ airports g ∨ end_ ∉ airports g) then None
  else
    match dijkstra_loop (flight_count g + 2) g end_ criteria [(0, start, [start])] ∅ with
    | Some r => r
    | None => None
    end.

(** *** Bounded enumeration of routes *)

Record route := mk_route {
  path : list string;
  stops : Z;
  total_distance : Z;
  total_price : Z
}.

(** The nested [dfs]; [routes] is the list the closure appends to, [path]
    the list it extends before and restores after each call. [None] when
    [fuel] nested calls were not enough. *)
Fixpoint dfs (fuel : nat) (g : t) (max_stops : Z) (current destination : string)
    (path : list string) (stops total_distance total_price : Z)
    (routes : list route) : option (list route) :=
  match fuel with
  | O => None
  | S fuel' =>
      if stops >? max_stops then Some routes
      else if bool_decide (current = destination) && (1 <? length path)%nat then
        Some (routes ++ [mk_route path stops total_distance total_price])
      else
        (fix for_flights (fs : list Flight.t) (routes : list route)
             : option (list route) :=
           match fs with
           | [] => Some routes
           | flight :: fs' =>
               let next_airport := Flight.destination flight in
               if decide (next_airport ∈ path) then for_flights fs' routes
               else
                 match dfs fuel' g max_stops next_airport destination
                         (path ++ [next_airport]) (stops + 1)
                         (total_distance + Flight.distance flight)
                         (total_price + Flight.price flight) routes with
                 | Some routes' => for_flights fs' routes'
                 | None => None
                 end
           end) (flights_from g current) routes
  end.

(** The nesting of [dfs] stops one call after [stops] passes [max_stops]
    ([dfs_fuel] below). *)
Definition find_all_routes (g : t) (start end_ : string) (max_stops : Z) : list route :=
  match dfs (Z.to_nat (max_stops + 1) + 1) g max_stops start end_ [start] 0 0 0 [] with
  | Some routes => routes
  | None => []
  end.

End AirportGraph.

(** ** AirlineManagementSystem *)

Module AirlineManagementSystem.

Record t := mk {
  airport_graph : AirportGraph.t;
  flight_schedule : FlightSchedule.t;
  passengers : gmap string Passenger.t;
  bookings : list (string * Booking.t);
  flights : gmap string Flight.t
}.

Definition init : t := mk AirportGraph.init FlightSchedule.init ∅ [] ∅.

Definition set_passengers (ps : gmap string Passenger.t) (st : t) : t :=
  mk (airport_graph st) (flight_schedule st) ps (bookings st) (flights st).

Definition set_bookings (bs : list (string * Booking.t)) (st : t) : t :=
  mk (airport_graph st) (flight_schedule st) (passengers st) bs (flights st).

Definition set_flights (fs : gmap string Flight.t) (st : t) : t :=
  mk (airport_graph st) (flight_schedule st) (passengers st) (bookings st) fs.

(** Exceptions that escape an operation, with the state they leave. *)
Inductive exn := KeyError | ValueError.

Inductive outcome (A : Type) :=
| Returned (st : t) (v : A)
| Raised (st : t) (e : exn).
Arguments Returned {A} st v.
Arguments Raised {A} st e.

Definition state_of {A} (o : outcome A) : t :=
  match o with Returned st _ => st | Raised st _ => st end.

Definition add_airport (st : t) (airport_code : string) : t :=
  mk (AirportGraph.add_airport (airport_graph st) airport_code)
     (flight_schedule st) (passengers st) (bookings st) (flights st).

Definition add_flight (st : t)
    (flight_id origin destination departure_time arrival_time : string)
    (capacity price distance : Z) : t :=
  let flight := Flight.init flight_id origin destination departure_time
                  arrival_time capacity price distance in
  mk (AirportGraph.add_flight_route (airport_graph st) flight)
     (FlightSchedule.add_flight (flight_schedule st) flight)
     (passengers st) (bookings st)
     (<[flight_id := flight]> (flights st)).

(** [passenger_id] is the value of [str(uuid.uuid4())[:8]]. *)
Definition register_passenger (st : t) (passenger_id name email phone : string)
    : t * string :=
  let passenger := Passenger.init passenger_id name email phone in
  (set_passengers (<[passenger_id := passenger]> (passengers st)) st, passenger_id).

(** [booking_id] is the value of [str(uuid.uuid4())[:8]], [booking_time]
    that of [datetime.now()]. The result is the returned booking id, [None]
    for Python's [None]. *)
Definition book_flight (st : t) (passenger_id flight_id booking_id : string)
    (booking_time : Z) : t * option string :=
  match passengers st !! passenger_id with
  | None => (st, None)
  | Some passenger =>
      match flights st !! flight_id with
      | None => (st, None)
      | Some flight =>
          let passenger' :=
            Passenger.set_bookings (Passenger.bookings passenger ++ [booking_id])
              passenger in
          if Flight.is_available flight then
            let booking := Booking.mk booking_id passenger_id flight_id
                             booking_time Booking.CONFIRMED in
            let flight' :=
              Flight.set_passengers (Flight.passengers flight ++ [passenger_id])
                (Flight.set_booked_seats (Flight.booked_seats flight + 1) flight) in
            (mk (airport_graph st) (flight_schedule st)
                (<[passenger_id := passenger']> (passengers st))
                (dict_set booking_id booking (bookings st))
                (<[flight_id := flight']> (flights st)),
             Some booking_id)
          else
            let booking := Booking.mk booking_id passenger_id flight_id
                             booking_time Booking.WAITLISTED in
            let flight' :=
              Flight.set_waiting_list (Flight.waiting_list flight ++ [passenger_id])
                flight in
            (mk (airport_graph st) (flight_schedule st)
                (<[passenger_id := passenger']> (passengers st))
                (dict_set booking_id booking (bookings st))
                (<[flight_id := flight']> (flights st)),
             Some booking_id)
      end
  end.

Definition is_waitlisted_for (next_passenger_id flight_id : string) (b : Booking.t)
    : bool :=
  bool_decide (Booking.passenger_id b = next_passenger_id)
  && bool_decide (Booking.flight_id b = flight_id)
  && bool_decide (Booking.status b = Booking.WAITLISTED).

(** The scan [for bid, b in self.bookings.items()] with its [break]: the
    first waitlisted booking of the passenger for the flight is confirmed;
    [None] when the scan ends without a match. *)
Fixpoint confirm_waitlisted (next_passenger_id flight_id : string)
    (bs : list (string * Booking.t)) : option (list (string * Booking.t)) :=
  match bs with
  | [] => None
  | (bid, b) :: bs' =>
      if is_waitlisted_for next_passenger_id flight_id b then
        Some ((bid, Booking.set_status Booking.CONFIRMED b) :: bs')
      else
        match confirm_waitlisted next_passenger_id flight_id bs' with
        | Some r => Some ((bid, b) :: r)
        | None => None
        end
  end.

(** The [if]/[elif] on [booking.status] in [cancel_booking]: [inl] is the
    state after the branch, [inr] the state in which
    [flight.passengers.remove] raises [ValueError]. *)
Definition release (st : t) (booking : Booking.t) (flight : Flight.t) : t + t :=
  let flight_id := Booking.flight_id booking in
  let passenger_id := Booking.passenger_id booking in
  match Booking.status booking with
  | Booking.CONFIRMED =>
      let flight1 := Flight.set_booked_seats (Flight.booked_seats flight - 1) flight in
      match list_remove passenger_id (Flight.passengers flight1) with
      | None => inr (set_flights (<[flight_id := flight1]> (flights st)) st)
      | Some ps =>
          let flight2 := Flight.set_passengers ps flight1 in
          match Flight.waiting_list flight2 with
          | [] => inl (set_flights (<[flight_id := flight2]> (flights st)) st)
          | next_passenger_id :: wl =>
              let flight3 := Flight.set_waiting_list wl flight2 in
              match confirm_waitlisted next_passenger_id flight_id (bookings st) with
              | Some bs =>
                  let flight4 :=
                    Flight.set_passengers
                      (Flight.passengers flight3 ++ [next_passenger_id])
                      (Flight.set_booked_seats (Flight.booked_seats flight3 + 1)
                         flight3) in
                  inl (set_flights (<[flight_id := flight4]> (flights st))
                         (set_bookings bs st))
              | None => inl (set_flights (<[flight_id := flight3]> (flights st)) st)
              end
          end
      end
  | Booking.WAITLISTED =>
      match list_remove passenger_id (Flight.waiting_list flight) with
      | Some wl =>
          inl (set_flights
                 (<[flight_id := Flight.set_waiting_list wl flight]> (flights st)) st)
      | None => inl st
      end
  | Booking.CANCELLED => inl st
  end.

Definition cancel_booking (st : t) (booking_id : string) : outcome bool :=
  match dict_get booking_id (bookings st) with
  | None => Returned st false
  | Some booking =>
      match flights st !! Booking.flight_id booking with
      | None => Raised st KeyError
      | Some flight =>
          match passengers st !! Booking.passenger_id booking with
          | None => Raised st KeyError
          | Some passenger =>
              match release st booking flight with
              | inr st1 => Raised st1 ValueError
              | inl st1 =>
                  let st2 :=
                    set_bookings
                      (dict_alter (Booking.set_status Booking.CANCELLED) booking_id
                         (bookings st1)) st1 in
                  match list_remove booking_id (Passenger.bookings passenger) with
                  | None => Raised st2 ValueError
                  | Some bs =>
                      Returned
                        (set_passengers
                           (<[Booking.passenger_id booking :=
                                Passenger.set_bookings bs passenger]> (passengers st2))
                           st2)
                        true
                  end
              end
          end
      end
  end.

Definition find_shortest_route (st : t) (origin destination criteria : string)
    : option (list string * Z) :=
  match AirportGraph.dijkstra_shortest_path (airport_graph st) origin destination
          criteria with
  | Some (p, cost) => if decide (p = []) then None else Some (p, cost)
  | None => None
  end.

Definition find_all_routes (st : t) (origin destination : string) (max_stops : Z)
    : list AirportGraph.route :=
  AirportGraph.find_all_routes (airport_graph st) origin destination max_stops.

(** *** Histories of calls *)

Inductive call :=
| AddAirport (airport_code : string)
| AddFlight (flight_id origin destination departure_time arrival_time : string)
    (capacity price distance : Z)
| RegisterPassenger (passenger_id name email phone : string)
| BookFlight (passenger_id flight_id booking_id : string) (booking_time : Z)
| CancelBooking (booking_id : string).

(** The state a call leaves, whether it returns or raises. *)
Definition run (st : t) (c : call) : t :=
  match c with
  | AddAirport a => add_airport st a
  | AddFlight fid o d dep arr cap p dist => add_flight st fid o d dep arr cap p dist
  | RegisterPassenger pid n e ph => (register_passenger st pid n e ph).1
  | BookFlight pid fid bid now => (book_flight st pid fid bid now).1
  | CancelBooking bid => state_of (cancel_booking st bid)
  end.

(** What the data model asks of the inputs and the code does not check:
    identifiers are unique ([add_flight] is not given a flight id that is in
    use, [uuid4] does not return a passenger or booking id that is in use)
    and a capacity is not negative. *)
Definition admissible (st : t) (c : call) : Prop :=
  match c with
  | AddAirport _ => True
  | AddFlight fid _ _ _ _ cap _ _ => flights st !! fid = None ∧ 0 ≤ cap
  | RegisterPassenger pid _ _ _ => passengers st !! pid = None
  | BookFlight _ _ bid _ => dict_get bid (bookings st) = None
  | CancelBooking _ => True
  end.

(** The states that admissible calls reach from a new system. *)
Inductive reachable : t → Prop :=
| reachable_init : reachable init
| reachable_run st c : reachable st → admissible st c → reachable (run st c).

End AirlineManagementSystem.

(** * Vocabulary of the properties *)

Module ScheduleSpec.
Import FlightSchedule.

(** [a] departs no later than [b]. *)
Definition departs_le (a b : Flight.t) : Prop :=
  String.leb (Flight.departure_time a) (Flight.departure_time b) = true.

(** [a] departs strictly before [b]. *)
Definition departs_lt (a b : Flight.t) : Prop :=
  String.ltb (Flight.departure_time a) (Flight.departure_time b) = true.

Definition ascending (l : list Flight.t) : Prop := StronglySorted departs_le l.

(** The schedule after a sequence of [add_flight] calls. *)
Definition scheduled (fs : list Flight.t) : t := foldl add_flight init fs.

End ScheduleSpec.

Module RouteSpec.
Import AirportGraph.

(** The flights [fs], taken in turn, lead from airport [a] to airport [b]. *)
Fixpoint connects (g : t) (a : string) (fs : list Flight.t) (b : string) : Prop :=
  match fs with
  | [] => a = b
  | f :: fs' => f ∈ flights_from g a ∧ connects g (Flight.destination f) fs' b
  end.

(** The airports reached by the flights [fs], in turn. *)
Definition landings (fs : list Flight.t) : list string := Flight.destination <$> fs.

Definition sum_distance (fs : list Flight.t) : Z :=
  foldr (λ f n, Flight.distance f + n) 0 fs.

Definition sum_price (fs : list Flight.t) : Z :=
  foldr (λ f n, Flight.price f + n) 0 fs.

(** The total weight of the flights [fs] under a criterion. *)
Definition cost (criteria : string) (fs : list Flight.t) : Z :=
  foldr (λ f n, edge_cost criteria f + n) 0 fs.

(** The record that describes the flights [fs] taken from [start]. *)
Definition route_of (start : string) (fs : list Flight.t) : route :=
  mk_route (start :: landings fs) (Z.of_nat (length fs)) (sum_distance fs) (sum_price fs).

(** [fs] is a simple path of at least one and at most [max_stops] flights
    from [start] to [end_]. *)
Definition qualifies (g : t) (start end_ : string) (max_stops : Z) (fs : list Flight.t)
    : Prop :=
  fs ≠ [] ∧ connects g start fs end_ ∧ NoDup (start :: landings fs)
  ∧ Z.of_nat (length fs) ≤ max_stops.

(** What a call [dfs(current, destination, path, stops, total_distance,
    total_price)] has to append: the records of the ways to go on from
    [current] without returning to an airport of [path]. *)
Definition found_from (g : t) (max_stops : Z) (current destination : string)
    (path : list string) (stops total_distance total_price : Z) (r : route) : Prop :=
  ∃ fs, connects g current fs destination
    ∧ NoDup (path ++ landings fs)
    ∧ stops + Z.of_nat (length fs) ≤ max_stops
    ∧ (1 < length (path ++ landings fs))%nat
    ∧ r = mk_route (path ++ landings fs) (stops + Z.of_nat (length fs))
            (total_distance + sum_distance fs) (total_price + sum_price fs).

End RouteSpec.

Module DijkstraSpec.
Import AirportGraph RouteSpec.

(** No flight of the graph has a negative weight under the criterion. *)
Definition nonneg_weights (g : t) (criteria : string) : Prop :=
  ∀ a f, f ∈ flights_from g a → 0 ≤ edge_cost criteria f.

(** The same, as a test on the stored flights. *)
Definition nonneg_weightsb (g : t) (criteria : string) : bool :=
  forallb (λ kv : string * list Flight.t,
             forallb (λ f, 0 <=? edge_cost criteria f) kv.2)
    (map_to_list (flights g)).

(** The flights that leave airports not yet visited: what the loop may still
    push. *)
Definition pending (g : t) (visited : gset string) : nat :=
  sum_list ((λ kv, if decide (kv.1 ∈ visited) then 0%nat else length kv.2)
              <$> map_to_list (flights g)).

(** The loop invariant; [D u] is the cost with which [u] was popped when it
    was marked visited. *)
Record dijkstra_inv (g : t) (start end_ criteria : string)
    (pq : list entry) (visited : gset string) (D : string → Z) : Prop := {
  inv_entries : ∀ c a p, (c, a, p) ∈ pq →
    ∃ fs, connects g start fs a ∧ p = start :: landings fs ∧ c = cost criteria fs;
  inv_start : start ∈ visited ∨ ∃ c p, (c, start, p) ∈ pq ∧ c ≤ 0;
  inv_settled : ∀ u fs, u ∈ visited → connects g start fs u → D u ≤ cost criteria fs;
  inv_frontier : ∀ u f, u ∈ visited → f ∈ flights_from g u →
    Flight.destination f ∈ visited
    ∨ ∃ c p, (c, Flight.destination f, p) ∈ pq ∧ c ≤ D u + edge_cost criteria f;
  inv_end : end_ ∉ visited
}.

End DijkstraSpec.

Module LedgerSpec.
Import AirlineManagementSystem.

(** How often [x] occurs in [l]. *)
Fixpoint occurrences (x : string) (l : list string) : nat :=
  match l with
  | [] => 0
  | y :: l' => (if decide (y = x) then 1 else 0) + occurrences x l'
  end.

(** [b] is a booking of passenger [pid] for flight [fid] in status [s]. *)
Definition holds (pid fid : string) (s : Booking.status_t) (b : Booking.t) : bool :=
  bool_decide (Booking.passenger_id b = pid)
  && bool_decide (Booking.flight_id b = fid)
  && bool_decide (Booking.status b = s).

(** How many bookings of passenger [pid] for flight [fid] are in status [s]. *)
Fixpoint count_bookings (pid fid : string) (s : Booking.status_t)
    (bs : list (string * Booking.t)) : nat :=
  match bs with
  | [] => 0
  | (_, b) :: bs' => (if holds pid fid s b then 1 else 0) + count_bookings pid fid s bs'
  end.

(** The consistency of the ledger: seats within capacity and counted by the
    confirmed list; the confirmed list and the waiting list of a flight hold
    a passenger once per confirmed, respectively waitlisted, booking; every
    booking names a flight and a passenger of the system, and is on the
    passenger's list exactly while it is not cancelled. *)
Record ledger_inv (st : t) : Prop := {
  inv_keys : NoDup (bookings st).*1;
  inv_seats : ∀ fid f, flights st !! fid = Some f →
    0 ≤ Flight.booked_seats f ≤ Flight.capacity f
    ∧ Flight.booked_seats f = Z.of_nat (length (Flight.passengers f));
  inv_confirmed : ∀ fid f pid, flights st !! fid = Some f →
    occurrences pid (Flight.passengers f)
    = count_bookings pid fid Booking.CONFIRMED (bookings st);
  inv_waitlisted : ∀ fid f pid, flights st !! fid = Some f →
    occurrences pid (Flight.waiting_list f)
    = count_bookings pid fid Booking.WAITLISTED (bookings st);
  inv_refs : ∀ bid b, (bid, b) ∈ bookings st →
    is_Some (flights st !! Booking.flight_id b)
    ∧ ∃ P, passengers st !! Booking.passenger_id b = Some P
        ∧ occurrences bid (Passenger.bookings P)
          = if decide (Booking.status b = Booking.CANCELLED) then 0%nat else 1%nat;
  inv_listed : ∀ pid P bid, passengers st !! pid = Some P →
    bid ∈ Passenger.bookings P → bid ∈ (bookings st).*1
}.

End LedgerSpec.

Module LedgerSteps.
Import AirlineManagementSystem LedgerSpec.

(** [bs'] is [bs] with the status of the one booking [b], stored under [k],
    set to [s]. *)
Definition restatus (bs bs' : list (string * Booking.t)) (k : string) (b : Booking.t)
    (s : Booking.status_t) : Prop :=
  ∃ l1 l2, bs = l1 ++ (k, b) :: l2 ∧ bs' = l1 ++ (k, Booking.set_status s b) :: l2.

(** The flight [f] with its seat count, confirmed list and waiting list
    replaced. *)
Definition with_ledger (f : Flight.t) (n : Z) (ps wl : list string) : Flight.t :=
  Flight.mk (Flight.flight_id f) (Flight.origin f) (Flight.destination f)
    (Flight.departure_time f) (Flight.arrival_time f) (Flight.capacity f)
    (Flight.price f) (Flight.distance f) n ps wl.

(** The state after a cancellation of booking [b], stored under [bid], that
    returns [True]: [bs] are the bookings after the branch on the status,
    [f'] is the flight after it, [bks] the list of the passenger [P] after
    [remove]. *)
Definition after_cancel (st : t) (bid : string) (b : Booking.t)
    (P : Passenger.t) (bks : list string) (bs : list (string * Booking.t))
    (f' : Flight.t) : t :=
  mk (airport_graph st) (flight_schedule st)
     (<[Booking.passenger_id b := Passenger.set_bookings bks P]> (passengers st))
     (dict_alter (Booking.set_status Booking.CANCELLED) bid bs)
     (<[Booking.flight_id b := f']> (flights st)).

End LedgerSteps.

Module Histories.
Import AirlineManagementSystem.

(** The state after the calls [cs], made in turn on a new system. *)
Definition replay (cs : list call) : t := foldl run init cs.

(** Every call of [cs] is admissible in the state in which it is made. *)
Fixpoint admissible_from (st : t) (cs : list call) : Prop :=
  match cs with
  | [] => True
  | c :: cs' => admissible st c ∧ admissible_from (run st c) cs'
  end.

End Histories.

Module Scenarios.
Import AirlineManagementSystem Histories.
Local Open Scope string_scope.

(** One flight with a single seat, three registered passengers. *)
Definition one_seat : list call :=
  [ AddFlight "FL1" "NYC" "LAX" "08:00" "11:00" 1 500 2445;
    RegisterPassenger "pa" "A" "a@email.com" "1";
    RegisterPassenger "pb" "B" "b@email.com" "2";
    RegisterPassenger "pc" "C" "c@email.com" "3" ].

(** Scenario A up to the cancellation: A is confirmed, B is waitlisted. *)
Definition a_then_b : list call :=
  one_seat ++ [ BookFlight "pa" "FL1" "ba" 1; BookFlight "pb" "FL1" "bb" 2 ].

(** A is confirmed, B and then C are waitlisted. *)
Definition a_then_b_then_c : list call :=
  a_then_b ++ [ BookFlight "pc" "FL1" "bc" 3 ].

(** A booked and cancelled. *)
Definition a_cancelled : list call :=
  one_seat ++ [ BookFlight "pa" "FL1" "ba" 1; CancelBooking "ba" ].

(** The graph of scenario B: NYC to CHI and CHI to LAX, nothing else. *)
Definition two_legs : AirportGraph.t :=
  AirportGraph.add_flight_route
    (AirportGraph.add_flight_route AirportGraph.init
       (Flight.init "FL003" "NYC" "CHI" "09:00" "11:30" 120 300 790))
    (Flight.init "FL004" "CHI" "LAX" "13:00" "15:30" 120 400 1745).

(** Scenario A with its flight added a second time, with the same data. *)
Definition fl1_added_twice : t :=
  add_flight (replay a_then_b) "FL1" "NYC" "LAX" "08:00" "11:00" 1 500 2445.

(** Three flights that leave at the same time. *)
Definition same_time : list Flight.t :=
  [ Flight.init "A" "NYC" "LAX" "08:00" "11:00" 150 500 2445;
    Flight.init "B" "NYC" "CHI" "08:00" "10:30" 120 300 790;
    Flight.init "C" "NYC" "MIA" "08:00" "11:00" 100 350 1090 ].

End Scenarios.

Module ScheduleOps.
Import FlightSchedule.

(** The two calls that change a schedule. *)
Inductive op :=
| Add (flight : Flight.t)
| Remove (flight_id : string).

Definition apply (s : t) (o : op) : t :=
  match o with
  | Add flight => add_flight s flight
  | Remove flight_id => (remove_flight s flight_id).1
  end.

(** The schedule after the calls [ops], made in turn on a new schedule. *)
Definition after (ops : list op) : t := foldl apply init ops.

(** No flight of [l] has the id [flight_id]. *)
Definition unlisted (flight_id : string) (l : list Flight.t) : Prop :=
  Forall (λ f, Flight.flight_id f ≠ flight_id) l.

End ScheduleOps.

Module MoreScenarios.
Import AirlineManagementSystem Histories Scenarios.
Local Open Scope string_scope.

(** A flight that leaves between the flights of the demo. *)
Definition noon_flight : Flight.t :=
  Flight.init "FL900" "DEN" "SEA" "12:30" "14:00" 80 200 1024.

(** The first flights of the demo, as a schedule. *)
Definition morning : FlightSchedule.t :=
  ScheduleSpec.scheduled
    [ Flight.init "FL001" "NYC" "LAX" "08:00" "11:00" 150 500 2445;
      Flight.init "FL002" "LAX" "NYC" "14:00" "22:00" 150 550 2445;
      Flight.init "FL003" "NYC" "CHI" "09:00" "11:30" 120 300 790 ].

End MoreScenarios.

Module GraphOps.
Import AirportGraph.

(** The two calls that change a graph. *)
Inductive op :=
| Airport (airport : string)
| Route (flight : Flight.t).

Definition apply (g : t) (o : op) : t :=
  match o with
  | Airport airport => add_airport g airport
  | Route flight => add_flight_route g flight
  end.

(** The graph after the calls [ops], made in turn on a new graph. *)
Definition built (ops : list op) : t := foldl apply init ops.

(** The flights that the calls [ops] add, in turn. *)
Definition routes (ops : list op) : list Flight.t :=
  omap (λ o, match o with Route flight => Some flight | Airport _ => None end) ops.

(** The airports that the calls [ops] add by name, in turn. *)
Definition named (ops : list op) : list string :=
  omap (λ o, match o with Airport airport => Some airport | Route _ => None end) ops.

(** The read [m[o][d]] of a nested [defaultdict]; [None] is the default
    [float('inf')]. *)
Definition table_get (m : gmap string (gmap string Z)) (o d : string) : option Z :=
  m !! o ≫= (λ row, row !! d).

(** [f] flies from [o] to [d]. *)
Definition links (o d : string) (f : Flight.t) : Prop :=
  Flight.origin f = o ∧ Flight.destination f = d.

(** [m] holds, for every pair of airports, the least weight [w] of the
    flights of [fs] between them, and nothing for a pair without a flight. *)
Definition least_weights (w : Flight.t → Z) (fs : list Flight.t)
    (m : gmap string (gmap string Z)) : Prop :=
  ∀ o d,
    match table_get m o d with
    | Some least =>
        (∃ f, f ∈ fs ∧ links o d f ∧ w f = least)
        ∧ ∀ f, f ∈ fs → links o d f → least ≤ w f
    | None => ∀ f, f ∈ fs → ¬ links o d f
    end.

(** The flights stored for an airport leave from it, and both ends of every
    stored flight are airports of the graph. *)
Definition closed (g : t) : Prop :=
  ∀ a f, f ∈ flights_from g a →
    Flight.origin f = a ∧ a ∈ airports g ∧ Flight.destination f ∈ airports g.

End GraphOps.

Module DijkstraPaths.
Import AirportGraph RouteSpec.

(** The path of every heap entry ends at the airport of the entry, visits no
    airport twice, and all its airports before the last are marked visited. *)
Definition entries_simple (pq : list entry) (visited : gset string) : Prop :=
  ∀ c a p, (c, a, p) ∈ pq →
    ∃ q, p = q ++ [a] ∧ NoDup p ∧ ∀ x, x ∈ q → x ∈ visited.

(** Every heap entry holds the airports and the total weight of flights that
    lead from [start] to the airport of the entry. *)
Definition entries_real (g : t) (start criteria : string) (pq : list entry) : Prop :=
  ∀ c a p, (c, a, p) ∈ pq →
    ∃ fs, connects g start fs a ∧ p = start :: landings fs ∧ c = cost criteria fs.

End DijkstraPaths.

Module Catalog.
Import AirlineManagementSystem.

(** The flight object that a call of [add_flight] makes. *)
Definition added_by (c : call) : option Flight.t :=
  match c with
  | AddFlight fid o d dep arr cap p dist => Some (Flight.init fid o d dep arr cap p dist)
  | _ => None
  end.

(** The flights that the calls [cs] add, in turn. *)
Definition added (cs : list call) : list Flight.t := omap added_by cs.

(** The fields of the flight [f] that no call changes after
    [Flight.__init__], as the flight that [Flight.__init__] makes of them:
    no seat booked, nobody listed. *)
Definition as_added (f : Flight.t) : Flight.t :=
  Flight.init (Flight.flight_id f) (Flight.origin f) (Flight.destination f)
    (Flight.departure_time f) (Flight.arrival_time f) (Flight.capacity f)
    (Flight.price f) (Flight.distance f).

(** What the calls [cs] ask of the graph, in turn. *)
Definition graph_calls (cs : list call) : list GraphOps.op :=
  omap (λ c, match c with
             | AddAirport a => Some (GraphOps.Airport a)
             | AddFlight fid o d dep arr cap p dist =>
                 Some (GraphOps.Route (Flight.init fid o d dep arr cap p dist))
             | _ => None
             end) cs.

End Catalog.

Module Lifecycle.
Import AirlineManagementSystem.

(** The ways in which the status of a booking moves: not at all, from
    waitlisted to confirmed, or to cancelled. *)
Inductive follows : Booking.status_t → Booking.status_t → Prop :=
| follows_same s : follows s s
| follows_confirm : follows Booking.WAITLISTED Booking.CONFIRMED
| follows_cancel s : follows s Booking.CANCELLED.

(** [b'] is the booking [b] at a later time: the same but for its status,
    which has moved on. *)
Definition later (b b' : Booking.t) : Prop :=
  Booking.booking_id b' = Booking.booking_id b
  ∧ Booking.passenger_id b' = Booking.passenger_id b
  ∧ Booking.flight_id b' = Booking.flight_id b
  ∧ Booking.booking_time b' = Booking.booking_time b
  ∧ follows (Booking.status b) (Booking.status b').

(** The bookings [bs'] are the bookings [bs] at a later time: the same ids
    in the same order, each booking moved on. *)
Definition all_later (bs bs' : list (string * Booking.t)) : Prop :=
  Forall2 (λ kb kb', kb'.1 = kb.1 ∧ later kb.2 kb'.2) bs bs'.

End Lifecycle.

Module LedgerMore.
Import AirlineManagementSystem.

(** Two more facts that the calls keep: a booking id on the list of a
    passenger names a booking of that passenger, and a flight with somebody
    waiting has no free seat. *)
Record ledger_more (st : t) : Prop := {
  more_owner : ∀ pid P bid b,
    passengers st !! pid = Some P → bid ∈ Passenger.bookings P →
    dict_get bid (bookings st) = Some b → Booking.passenger_id b = pid;
  more_full : ∀ fid f,
    flights st !! fid = Some f → Flight.waiting_list f ≠ [] →
    Flight.booked_seats f = Flight.capacity f
}.

(** The passengers of the bookings for flight [fid] in status [s], in the
    order of the bookings. *)
Fixpoint booked_by (fid : string) (s : Booking.status_t)
    (bs : list (string * Booking.t)) : list string :=
  match bs with
  | [] => []
  | (_, b) :: bs' =>
      if bool_decide (Booking.flight_id b = fid) && bool_decide (Booking.status b = s)
      then Booking.passenger_id b :: booked_by fid s bs'
      else booked_by fid s bs'
  end.

End LedgerMore.

Module AirlineQueries.
Import AirlineManagementSystem.

(** [get_passenger_bookings]: the bookings on the list of the passenger that
    are in [bookings]; the loop that prints them reads
    [self.flights[booking.flight_id]] and raises [KeyError] for a flight that
    is not there. The state is not changed. *)
Definition get_passenger_bookings (st : t) (passenger_id : string)
    : outcome (list Booking.t) :=
  match passengers st !! passenger_id with
  | None => Returned st []
  | Some passenger =>
      let found := omap (λ bid, dict_get bid (bookings st))
                     (Passenger.bookings passenger) in
      if forallb (λ booking,
                    bool_decide (is_Some (flights st !! Booking.flight_id booking)))
           found
      then Returned st found
      else Raised st KeyError
  end.

(** The numbers that [get_system_stats] prints. *)
Record stats := mk_stats {
  total_airports : nat;
  total_flights : nat;
  total_passengers : nat;
  total_bookings : nat;
  total_waitlisted : nat
}.

Definition get_system_stats (st : t) : stats :=
  mk_stats
    (size (AirportGraph.airports (airport_graph st)))
    (size (flights st))
    (size (passengers st))
    (length (filter (λ kb, Booking.status kb.2 = Booking.CONFIRMED) (bookings st)))
    (length (filter (λ kb, Booking.status kb.2 = Booking.WAITLISTED) (bookings st))).

(** The sum of [w] over the flights of the system. *)
Definition sum_flights (w : Flight.t → Z) (st : t) : Z :=
  foldr (λ kf n, w kf.2 + n) 0 (map_to_list (flights st)).

End AirlineQueries.

Module WaitingOrder.
Import AirlineManagementSystem.

(** [p1] stands in the waiting list [l] in front of every entry of [p2]. *)
Definition ahead (p1 p2 : string) (l : list string) : Prop :=
  ∃ l1 l2, l = l1 ++ p1 :: l2 ∧ p2 ∉ l1.

(** Between the states [st] and [st'] a waitlisted booking of passenger [p]
    for flight [fid] has become confirmed. *)
Definition promoted (st st' : t) (fid p : string) : Prop :=
  ∃ k b b',
    dict_get k (bookings st) = Some b ∧ dict_get k (bookings st') = Some b'
    ∧ Booking.passenger_id b = p ∧ Booking.flight_id b = fid
    ∧ Booking.status b = Booking.WAITLISTED
    ∧ Booking.status b' = Booking.CONFIRMED.

End WaitingOrder.

Module LedgerScenarios.
Import AirlineManagementSystem Histories Scenarios.
Local Open Scope string_scope.

(** A flight added with the capacity -1, and a passenger who books it. *)
Definition negative_capacity : list call :=
  [ AddFlight "FL1" "NYC" "LAX" "08:00" "11:00" (-1) 500 2445;
    RegisterPassenger "pa" "A" "a@email.com" "1";
    BookFlight "pa" "FL1" "ba" 1 ].

(** A books the one seat of FL1; FL1 is added a second time; B books the
    seat of the new flight and C is put on its waiting list. *)
Definition fl1_refilled : list call :=
  one_seat
  ++ [ BookFlight "pa" "FL1" "ba" 1;
       AddFlight "FL1" "NYC" "LAX" "08:00" "11:00" 1 500 2445;
       BookFlight "pb" "FL1" "bb" 2;
       BookFlight "pc" "FL1" "bc" 3 ].

(** A holds the seat; B, then C, then B once more are put on the waiting
    list; B cancels the later of the two bookings. *)
Definition b_waits_twice : list call :=
  one_seat
  ++ [ BookFlight "pa" "FL1" "ba" 1;
       BookFlight "pb" "FL1" "bb" 2;
       BookFlight "pc" "FL1" "bc" 3;
       BookFlight "pb" "FL1" "bd" 4;
       CancelBooking "bd" ].

End LedgerScenarios.

(** * Properties *)

(** ** The order on clock times *)

Section StringOrder.

Lemma ascii_compare_refl (a : Ascii.ascii) : Ascii.compare a a = Eq.
Proof. unfold Ascii.compare. apply N.compare_refl. Qed.

Lemma ascii_compare_lt_trans (a b c : Ascii.ascii) :
  Ascii.compare a b = Lt → Ascii.compare b c = Lt → Ascii.compare a c = Lt.
Proof. unfold Ascii.compare. rewrite !N.compare_lt_iff. lia. Qed.

Lemma string_compare_lt_trans (s1 s2 s3 : string) :
  String.compare s1 s2 = Lt → String.compare s2 s3 = Lt → String.compare s1 s3 = Lt.
Proof.
  revert s2 s3. induction s1 as [|a s1 IH]; intros [|b s2] [|c s3]; simpl; try done.
  destruct (Ascii.compare a b) eqn:Hab; try done;
    destruct (Ascii.compare b c) eqn:Hbc; try done; intros H12 H23.
  - apply Ascii.compare_eq_iff in Hab, Hbc. subst.
    rewrite ascii_compare_refl. eauto.
  - apply Ascii.compare_eq_iff in Hab. subst. by rewrite Hbc.
  - apply Ascii.compare_eq_iff in Hbc. subst. by rewrite Hab.
  - by rewrite (ascii_compare_lt_trans a b c).
Qed.

Lemma string_ltb_leb (s1 s2 : string) : String.ltb s1 s2 = true → String.leb s1 s2 = true.
Proof. unfold String.ltb, String.leb. by destruct (String.compare s1 s2). Qed.

Lemma string_ltb_false_leb (s1 s2 : string) :
  String.ltb s1 s2 = false → String.leb s2 s1 = true.
Proof.
  unfold String.ltb, String.leb. rewrite (String.compare_antisym s1 s2).
  by destruct (String.compare s2 s1).
Qed.

Lemma string_leb_refl (s : string) : String.leb s s = true.
Proof.
  destruct (String.leb_total s s) as [H|H]; exact H.
Qed.

Lemma string_leb_trans (s1 s2 s3 : string) :
  String.leb s1 s2 = true → String.leb s2 s3 = true → String.leb s1 s3 = true.
Proof.
  unfold String.leb.
  destruct (String.compare s1 s2) eqn:H12; try done;
    destruct (String.compare s2 s3) eqn:H23; try done; intros _ _.
  - apply String.compare_eq_iff in H12, H23. subst.
    fold (String.leb s3 s3). apply string_leb_refl.
  - apply String.compare_eq_iff in H12. subst. by rewrite H23.
  - apply String.compare_eq_iff in H23. subst. by rewrite H12.
  - by rewrite (string_compare_lt_trans s1 s2 s3).
Qed.

End StringOrder.

(** ** FlightSchedule keeps departure order *)

Module ScheduleFacts.
Import FlightSchedule ScheduleSpec.

#[local] Instance departs_le_trans : Transitive departs_le.
Proof. intros a b c. apply string_leb_trans. Qed.

(** Where the walk links the new node: after the run of strictly earlier
    flights that follows [current]. *)
Lemma link_after_split flight current next :
  ∃ l1 l2, next = l1 ++ l2
    ∧ link_after flight current next = current :: l1 ++ flight :: l2
    ∧ Forall (λ n, departs_lt n flight) l1
    ∧ match l2 with [] => True | n :: _ => departs_le flight n end.
Proof.
  revert current. induction next as [|n rest IH]; intros current; simpl.
  - by exists [], [].
  - destruct (String.ltb _ _) eqn:Hlt.
    + destruct (IH n) as (l1 & l2 & -> & -> & Hl1 & Hl2).
      exists (n :: l1), l2. repeat split; auto.
    + exists [], (n :: rest). repeat split; auto.
      by apply string_ltb_false_leb.
Qed.

Lemma link_after_perm flight current next :
  link_after flight current next ≡ₚ flight :: current :: next.
Proof.
  destruct (link_after_split flight current next) as (l1 & l2 & -> & -> & _).
  rewrite <- (Permutation_middle l1 l2 flight). apply perm_swap.
Qed.

Lemma add_flight_perm s flight :
  display_schedule (add_flight s flight) ≡ₚ flight :: display_schedule s.
Proof.
  unfold display_schedule, add_flight. destruct (head s) as [|h rest]; [done|].
  destruct (String.ltb _ _); simpl; [done|]. apply link_after_perm.
Qed.

Lemma ascending_tail_from flight n rest :
  departs_le flight n → ascending (n :: rest) → Forall (departs_le flight) (n :: rest).
Proof.
  intros Hle Hs. apply StronglySorted_cons in Hs as [Hn _].
  constructor; [done|]. eapply Forall_impl; [exact Hn|].
  intros x Hx. by transitivity n.
Qed.

Lemma link_after_ascending flight current next :
  ascending (current :: next) → departs_le current flight →
  ascending (link_after flight current next).
Proof.
  intros Hs Hle.
  destruct (link_after_split flight current next) as (l1 & l2 & -> & -> & Hl1 & Hl2).
  change (current :: l1 ++ flight :: l2) with ((current :: l1) ++ flight :: l2).
  change (current :: l1 ++ l2) with ((current :: l1) ++ l2) in Hs.
  apply StronglySorted_app in Hs as (Hcross & Hs1 & Hs2).
  apply StronglySorted_app. split; [|split]; [|done|].
  - intros x1 x2 Hx1 Hx2. apply elem_of_cons in Hx2 as [->|Hx2]; [|by apply Hcross].
    apply elem_of_cons in Hx1 as [->|Hx1]; [done|].
    rewrite Forall_forall in Hl1. by apply string_ltb_leb, Hl1.
  - apply StronglySorted_cons. split; [|done].
    destruct l2 as [|n l2]; [done|]. by apply ascending_tail_from.
Qed.

Lemma add_flight_ascending s flight :
  ascending (display_schedule s) → ascending (display_schedule (add_flight s flight)).
Proof.
  unfold display_schedule, add_flight. intros Hs.
  destruct (head s) as [|h rest]; simpl.
  - repeat constructor.
  - destruct (String.ltb _ _) eqn:Hlt; simpl.
    + apply StronglySorted_cons. split; [|done].
      apply ascending_tail_from; [|done]. by apply string_ltb_leb.
    + apply link_after_ascending; [done|]. by apply string_ltb_false_leb.
Qed.

Lemma scheduled_snoc fs flight :
  scheduled (fs ++ [flight]) = add_flight (scheduled fs) flight.
Proof. unfold scheduled. by rewrite foldl_app. Qed.

Lemma scheduled_ascending fs : ascending (display_schedule (scheduled fs)).
Proof.
  induction fs as [|flight fs IH] using rev_ind; [constructor|].
  rewrite scheduled_snoc. by apply add_flight_ascending.
Qed.

Lemma scheduled_perm fs : display_schedule (scheduled fs) ≡ₚ fs.
Proof.
  induction fs as [|flight fs IH] using rev_ind; [done|].
  rewrite scheduled_snoc, add_flight_perm, IH. apply Permutation_cons_append.
Qed.

Lemma scheduled_size fs : size (scheduled fs) = Z.of_nat (length fs).
Proof.
  induction fs as [|flight fs IH] using rev_ind; [done|].
  rewrite scheduled_snoc, length_app. simpl.
  unfold add_flight. destruct (head _); [|destruct (String.ltb _ _)]; simpl; lia.
Qed.

Lemma add_flight_size s flight : size (add_flight s flight) = size s + 1.
Proof. unfold add_flight. destruct (head s); [|destruct (String.ltb _ _)]; done. Qed.

(** Where [add_flight] puts a flight in an ascending schedule: in front if
    it departs strictly before the first flight, and otherwise after the
    first flight and the strictly earlier ones that follow it, in front of
    every other flight that departs at the same time or later. *)
Lemma add_flight_place s flight :
  ascending (display_schedule s) →
  match display_schedule s with
  | [] => display_schedule (add_flight s flight) = [flight]
  | h :: rest =>
      if String.ltb (Flight.departure_time flight) (Flight.departure_time h)
      then display_schedule (add_flight s flight) = flight :: h :: rest
      else ∃ l1 l2, rest = l1 ++ l2
             ∧ display_schedule (add_flight s flight) = h :: l1 ++ flight :: l2
             ∧ Forall (λ n, departs_lt n flight) l1
             ∧ Forall (departs_le flight) l2
  end.
Proof.
  unfold display_schedule, add_flight. intros Hs.
  destruct (head s) as [|h rest]; [done|].
  destruct (String.ltb _ _) eqn:Hlt; [done|]. simpl.
  destruct (link_after_split flight h rest) as (l1 & l2 & -> & -> & Hl1 & Hl2).
  exists l1, l2. repeat split; auto.
  apply StronglySorted_cons in Hs as [_ Hs].
  apply StronglySorted_app in Hs as (_ & _ & Hs2).
  destruct l2 as [|n l2]; [done|]. by apply ascending_tail_from.
Qed.

End ScheduleFacts.

(** ** find_all_routes enumerates the bounded simple paths *)

Module RouteFacts.
Import AirportGraph RouteSpec.

Lemma connects_app g a fs1 fs2 b c :
  connects g a fs1 b → connects g b fs2 c → connects g a (fs1 ++ fs2) c.
Proof.
  revert a. induction fs1 as [|f fs1 IH]; simpl; intros a.
  - by intros ->.
  - intros [Hf H1] H2. split; [done|]. by apply IH.
Qed.

Lemma connects_snoc g a fs f b :
  connects g a fs b → f ∈ flights_from g b →
  connects g a (fs ++ [f]) (Flight.destination f).
Proof. intros H1 Hf. eapply connects_app; [exact H1|]. by split. Qed.

(** A path of at least one flight ends at the landing of its last flight. *)
Lemma connects_last g a fs b : connects g a fs b → fs ≠ [] → b ∈ landings fs.
Proof.
  revert a. induction fs as [|f fs IH]; simpl; [done|]. intros a [_ H] _.
  destruct fs as [|f' fs].
  - simpl in H. subst. apply list_elem_of_here.
  - apply list_elem_of_further. by eapply IH.
Qed.

Lemma dfs_fuel g max_stops destination fuel :
  ∀ current path stops total_distance total_price routes,
    (Z.to_nat (max_stops + 1 - stops) < fuel)%nat →
    is_Some (dfs fuel g max_stops current destination path stops
               total_distance total_price routes).
Proof.
  induction fuel as [|fuel IH]; intros current path stops td tp routes Hfuel; [lia|].
  simpl. destruct (stops >? max_stops) eqn:Hgt; [by eexists|].
  destruct (_ && _); [by eexists|].
  assert (Z.to_nat (max_stops + 1 - (stops + 1)) < fuel)%nat as Hfuel' by lia.
  clear Hfuel Hgt. revert routes.
  induction (flights_from g current) as [|flight fs IHfs]; intros routes; [by eexists|].
  destruct (decide _); [apply IHfs|].
  edestruct (IH (Flight.destination flight)) as [routes' ->]; [exact Hfuel'|].
  apply IHfs.
Qed.

(** Going on from [current] is taking one of its flights to an airport that
    is not on [path] and going on from there, unless [current] is where a
    route is recorded. *)
Lemma found_from_step g max_stops current destination path stops td tp r :
  ¬ (current = destination ∧ (1 < length path)%nat) →
  found_from g max_stops current destination path stops td tp r ↔
  (∃ f, f ∈ flights_from g current ∧ (Flight.destination f ∉ path)
    ∧ found_from g max_stops (Flight.destination f) destination
        (path ++ [Flight.destination f]) (stops + 1)
        (td + Flight.distance f) (tp + Flight.price f) r).
Proof.
  intros Hnot. split.
  - intros (fs & Hc & Hnd & Hst & Hlen & ->). destruct fs as [|f fs].
    + simpl in Hc. rewrite app_nil_r in Hlen. by destruct Hnot.
    + destruct Hc as [Hf Hc]. exists f. simpl in Hnd.
      split; [done|]. split.
      { apply NoDup_app in Hnd as (_ & Hd & _). intros Hin.
        apply (Hd _ Hin). apply list_elem_of_here. }
      exists fs. simpl. rewrite <- !app_assoc. simpl.
      simpl length in *. rewrite Nat2Z.inj_succ in Hst |- *.
      repeat split; try done; try lia.
      unfold sum_distance, sum_price. simpl. f_equal; lia.
  - intros (f & Hf & Hnin & fs & Hc & Hnd & Hst & Hlen & ->).
    exists (f :: fs). simpl length. rewrite Nat2Z.inj_succ.
    simpl. rewrite <- !app_assoc in *. simpl in *.
    repeat split; try done; try lia.
    unfold sum_distance, sum_price. simpl. f_equal; lia.
Qed.

Lemma found_from_here g max_stops destination path stops td tp r :
  NoDup path → destination ∈ path → (1 < length path)%nat → stops ≤ max_stops →
  found_from g max_stops destination destination path stops td tp r ↔
  r = mk_route path stops td tp.
Proof.
  intros Hnd Hin Hlen Hst. split.
  - intros (fs & Hc & Hnd' & _ & _ & ->). destruct fs as [|f fs].
    + simpl. rewrite app_nil_r. f_equal; lia.
    + exfalso. apply NoDup_app in Hnd' as (_ & Hd & _).
      apply (Hd _ Hin). by eapply connects_last.
  - intros ->. exists []. simpl. rewrite app_nil_r.
    repeat split; try done; try lia. f_equal; lia.
Qed.

Lemma dfs_spec g max_stops destination fuel :
  ∀ current path stops td tp routes routes',
    NoDup path → last path = Some current →
    dfs fuel g max_stops current destination path stops td tp routes = Some routes' →
    ∃ ext, routes' = routes ++ ext
      ∧ ∀ r, r ∈ ext ↔ found_from g max_stops current destination path stops td tp r.
Proof.
  induction fuel as [|fuel IH]; intros current path stops td tp routes routes' Hnd Hlast;
    [done|].
  assert (current ∈ path) as Hin.
  { apply last_Some in Hlast as [l ->]. apply elem_of_app. right. apply list_elem_of_here. }
  simpl. destruct (stops >? max_stops) eqn:Hgt.
  { intros [= <-]. exists []. rewrite app_nil_r. split; [done|]. intros r. split.
    - by intros ?%elem_of_nil.
    - intros (fs & _ & _ & Hst & _). apply Z.gtb_lt in Hgt. lia. }
  assert (stops ≤ max_stops) as Hst.
  { destruct (Z.gtb_spec stops max_stops); [done|lia]. }
  destruct (bool_decide (current = destination) && (1 <? length path)%nat) eqn:Hrec.
  { apply andb_true_iff in Hrec as [->%bool_decide_eq_true Hlen%Nat.ltb_lt].
    intros [= <-]. eexists. split; [done|]. intros r.
    rewrite found_from_here by done. apply list_elem_of_singleton. }
  intros Hloop. setoid_rewrite found_from_step; last first.
  { intros [-> Hlen]. apply andb_false_iff in Hrec as [Hrec|Hrec].
    - by apply bool_decide_eq_false in Hrec.
    - apply Nat.ltb_ge in Hrec. lia. }
  clear Hrec Hgt. revert routes routes' Hloop.
  induction (flights_from g current) as [|flight fs IHfs]; intros routes routes'.
  { intros [= <-]. exists []. rewrite app_nil_r. split; [done|]. intros r. split.
    - by intros ?%elem_of_nil.
    - by intros (f & ?%elem_of_nil & _). }
  destruct (decide (Flight.destination flight ∈ path)) as [Hvis|Hnew].
  { intros (ext & -> & Hext)%IHfs. exists ext. split; [done|]. intros r.
    rewrite Hext. split.
    - intros (f & Hf & Hrest). exists f. split; [|done]. by apply list_elem_of_further.
    - intros (f & Hf & Hnin & Hrest). apply elem_of_cons in Hf as [->|Hf]; [done|].
      by exists f. }
  destruct (dfs fuel _ _ _ _ _ _ _ _ _) as [routes1|] eqn:Hcall; [|done].
  apply IH in Hcall as (ext1 & -> & Hext1); last first.
  { apply last_snoc. }
  { apply NoDup_app. split; [done|]. split; [|apply NoDup_singleton].
    intros x Hx ->%list_elem_of_singleton. done. }
  intros (ext & -> & Hext)%IHfs. exists (ext1 ++ ext). rewrite app_assoc.
  split; [done|]. intros r. rewrite elem_of_app, Hext1, Hext. split.
  - intros [Hr|(f & Hf & Hrest)].
    + exists flight. split; [apply list_elem_of_here|done].
    + exists f. split; [|done]. by apply list_elem_of_further.
  - intros (f & Hf & Hnin & Hrest). apply elem_of_cons in Hf as [->|Hf]; [by left|].
    right. by exists f.
Qed.

(** [find_all_routes] returns exactly the records of the qualifying paths. *)
Lemma find_all_routes_spec g start end_ max_stops r :
  r ∈ find_all_routes g start end_ max_stops ↔
  (∃ fs, qualifies g start end_ max_stops fs ∧ r = route_of start fs).
Proof.
  unfold find_all_routes.
  destruct (dfs_fuel g max_stops end_ (Z.to_nat (max_stops + 1) + 1)
              start [start] 0 0 0 []) as [routes Hdfs].
  { rewrite Z.sub_0_r. lia. }
  rewrite Hdfs.
  apply dfs_spec in Hdfs as (ext & -> & Hext); [|apply NoDup_singleton|done].
  simpl. rewrite Hext. unfold found_from, qualifies, route_of. simpl.
  split.
  - intros (fs & Hc & Hnd & Hst & Hlen & ->). exists fs.
    repeat split; try done; try lia.
    intros ->. simpl in Hlen. lia.
  - intros (fs & (Hne & Hc & Hnd & Hst) & ->). exists fs.
    repeat split; try done; try lia.
    destruct fs; [done|]. simpl. lia.
Qed.

End RouteFacts.

(** ** dijkstra_shortest_path returns a cheapest path *)

Module DijkstraFacts.
Import AirportGraph RouteSpec DijkstraSpec RouteFacts.

(** *** The heap *)

Lemma entry_ltb_true e1 e2 : entry_ltb e1 e2 = true → e1.1.1 ≤ e2.1.1.
Proof.
  destruct e1 as [[c1 a1] p1], e2 as [[c2 a2] p2]. simpl.
  destruct (decide (c1 = c2)); [lia|]. intros ?%Z.ltb_lt. lia.
Qed.

Lemma entry_ltb_false e1 e2 : entry_ltb e1 e2 = false → e2.1.1 ≤ e1.1.1.
Proof.
  destruct e1 as [[c1 a1] p1], e2 as [[c2 a2] p2]. simpl.
  destruct (decide (c1 = c2)); [lia|]. intros ?%Z.ltb_ge. lia.
Qed.

Lemma heappop_None pq : heappop pq = None → pq = [].
Proof.
  destruct pq as [|e pq]; [done|]. simpl.
  destruct (heappop pq) as [[m rest]|]; [|done]. by destruct (entry_ltb m e).
Qed.

(** [heappop] takes one entry out of the heap, and no entry costs less. *)
Lemma heappop_Some pq m rest :
  heappop pq = Some (m, rest) →
  pq ≡ₚ m :: rest ∧ ∀ e, e ∈ pq → m.1.1 ≤ e.1.1.
Proof.
  revert m rest. induction pq as [|e pq IH]; intros m rest; simpl; [done|].
  destruct (heappop pq) as [[m' rest']|] eqn:Hpop.
  - destruct (IH _ _ eq_refl) as [Hperm Hmin].
    destruct (entry_ltb m' e) eqn:Hlt; intros [= <- <-].
    + split; [rewrite Hperm; apply perm_swap|].
      intros e' [->|Hin]%elem_of_cons; [by apply entry_ltb_true|by apply Hmin].
    + split; [done|]. apply entry_ltb_false in Hlt.
      intros e' [->|Hin]%elem_of_cons; [lia|]. specialize (Hmin _ Hin). lia.
  - intros [= <- <-]. apply heappop_None in Hpop as ->.
    split; [done|]. intros e' ->%list_elem_of_singleton. lia.
Qed.

Lemma push_flights_elem criteria c p visited fs pq e :
  e ∈ push_flights criteria c p visited fs pq ↔
  e ∈ pq ∨ ∃ f, f ∈ fs ∧ (Flight.destination f ∉ visited)
           ∧ e = (c + edge_cost criteria f, Flight.destination f,
                  p ++ [Flight.destination f]).
Proof.
  revert pq. induction fs as [|f fs IH]; intros pq; simpl.
  - split; [by left|]. intros [?|(f & ?%elem_of_nil & _)]; done.
  - destruct (decide (Flight.destination f ∈ visited)) as [Hin|Hnin]; rewrite IH.
    + split; (intros [?|(f' & Hf' & Hnv & ->)]; [by left|right]).
      * exists f'. split; [by apply list_elem_of_further|done].
      * apply elem_of_cons in Hf' as [->|Hf']; [done|]. by exists f'.
    + unfold heappush. rewrite elem_of_app, list_elem_of_singleton. split.
      * intros [[?| ->]|(f' & Hf' & Hnv & ->)]; [by left|right..].
        -- exists f. split; [apply list_elem_of_here|done].
        -- exists f'. split; [by apply list_elem_of_further|done].
      * intros [?|(f' & Hf' & Hnv & ->)]; [by left; left|].
        apply elem_of_cons in Hf' as [->|Hf']; [by left; right|].
        right. by exists f'.
Qed.

Lemma push_flights_length criteria c p visited fs pq :
  (length (push_flights criteria c p visited fs pq) ≤ length pq + length fs)%nat.
Proof.
  revert pq. induction fs as [|f fs IH]; intros pq; simpl; [lia|].
  destruct (decide _).
  - specialize (IH pq). lia.
  - specialize (IH (heappush pq (c + edge_cost criteria f, Flight.destination f,
                                  p ++ [Flight.destination f]))).
    unfold heappush in *. rewrite length_app in IH. simpl in IH. lia.
Qed.

(** *** The loop ends within its fuel *)

Lemma pending_empty g : pending g ∅ = flight_count g.
Proof. unfold pending, flight_count. f_equal. Qed.

Lemma pending_visit g visited v :
  v ∉ visited →
  (pending g ({[v]} ∪ visited) + length (flights_from g v) ≤ pending g visited)%nat.
Proof.
  intros Hv. unfold pending, flights_from.
  assert (∀ kvs : list (string * list Flight.t),
    (sum_list ((λ kv, if decide (kv.1 ∈ {[v]} ∪ visited) then 0%nat else length kv.2)
                 <$> kvs)
     ≤ sum_list ((λ kv, if decide (kv.1 ∈ visited) then 0%nat else length kv.2)
                   <$> kvs))%nat) as Hmono.
  { induction kvs as [|kv kvs IH]; csimpl; [lia|].
    destruct (decide (kv.1 ∈ {[v]} ∪ visited)), (decide (kv.1 ∈ visited));
      try lia. set_solver. }
  destruct (flights g !! v) as [l|] eqn:Hl; csimpl;
    [|specialize (Hmono (map_to_list (flights g))); lia].
  apply elem_of_map_to_list in Hl.
  induction (map_to_list (flights g)) as [|kv kvs IH]; [by apply elem_of_nil in Hl|].
  apply elem_of_cons in Hl as [<-|Hl]; csimpl.
  - specialize (Hmono kvs).
    destruct (decide (v ∈ {[v]} ∪ visited)); [|set_solver].
    destruct (decide (v ∈ visited)); [done|]. lia.
  - specialize (IH Hl).
    destruct (decide (kv.1 ∈ {[v]} ∪ visited)), (decide (kv.1 ∈ visited));
      try lia. set_solver.
Qed.

Lemma dijkstra_loop_fuel g end_ criteria fuel :
  ∀ pq visited,
    (length pq + pending g visited < fuel)%nat →
    is_Some (dijkstra_loop fuel g end_ criteria pq visited).
Proof.
  induction fuel as [|fuel IH]; intros pq visited Hfuel; [lia|]. simpl.
  destruct (heappop pq) as [[[[c v] p] rest]|] eqn:Hpop; [|by eexists].
  apply heappop_Some in Hpop as [Hperm _].
  apply Permutation_length in Hperm. simpl in Hperm.
  destruct (decide (v ∈ visited)); [apply IH; lia|].
  destruct (decide (v = end_)); [by eexists|].
  apply IH.
  pose proof (push_flights_length criteria c p ({[v]} ∪ visited)
                (flights_from g v) rest).
  pose proof (pending_visit g visited v ltac:(done)). lia.
Qed.

(** *** The loop invariant *)

Lemma connects_snoc_inv g a fs f b :
  connects g a (fs ++ [f]) b →
  ∃ u, connects g a fs u ∧ f ∈ flights_from g u ∧ b = Flight.destination f.
Proof.
  revert a. induction fs as [|f' fs IH]; simpl; intros a.
  - intros [Hf <-]. by exists a.
  - intros [Hf' (u & Hc & Hf & ->)%IH]. by exists u.
Qed.

Lemma cost_snoc criteria fs f :
  cost criteria (fs ++ [f]) = cost criteria fs + edge_cost criteria f.
Proof. unfold cost. induction fs as [|f' fs IH]; simpl; lia. Qed.

Lemma landings_snoc fs f : landings (fs ++ [f]) = landings fs ++ [Flight.destination f].
Proof. unfold landings. by rewrite fmap_app. Qed.

Section Loop.
Context (g : t) (start end_ criteria : string).
Hypothesis weights : nonneg_weights g criteria.

#[local] Abbreviation inv := (dijkstra_inv g start end_ criteria).

Lemma inv_init : inv [(0, start, [start])] ∅ (λ _, 0).
Proof.
  split.
  - intros c a p [= -> -> ->]%list_elem_of_singleton. by exists [].
  - right. exists 0, [start]. split; [apply list_elem_of_here|done].
  - by intros u fs ?%not_elem_of_empty.
  - by intros u f ?%not_elem_of_empty.
  - apply not_elem_of_empty.
Qed.

Lemma visited_add (v u : string) (visited : gset string) :
  u ∈ {[v]} ∪ visited ↔ u = v ∨ u ∈ visited.
Proof. by rewrite elem_of_union, elem_of_singleton. Qed.

(** Every way to an airport that is not visited yet costs at least as much
    as some entry of the heap. *)
Lemma frontier_entry pq visited D fs v :
  inv pq visited D → connects g start fs v → v ∉ visited →
  ∃ e, e ∈ pq ∧ e.1.1 ≤ cost criteria fs.
Proof.
  intros Hinv. revert v. induction fs as [|f fs IH] using rev_ind; intros v Hc Hv.
  - simpl in Hc. subst v.
    destruct (inv_start _ _ _ _ _ _ _ Hinv) as [?|(c & p & Hin & Hle)]; [done|].
    by exists (c, start, p).
  - apply connects_snoc_inv in Hc as (u & Hc & Hf & ->). rewrite cost_snoc.
    pose proof (weights u f Hf) as Hw.
    destruct (decide (u ∈ visited)) as [Hu|Hu].
    + destruct (inv_frontier _ _ _ _ _ _ _ Hinv u f Hu Hf) as [?|(c & p & Hin & Hle)];
        [done|].
      pose proof (inv_settled _ _ _ _ _ _ _ Hinv u fs Hu Hc).
      exists (c, Flight.destination f, p). split; [done|]. simpl. lia.
    + destruct (IH u Hc Hu) as (e & Hin & Hle). exists e. split; [done|]. lia.
Qed.

(** Popping an entry of an airport that is already visited. *)
Lemma inv_skip pq visited D c v p rest :
  inv pq visited D → pq ≡ₚ (c, v, p) :: rest → v ∈ visited → inv rest visited D.
Proof.
  intros [Hent Hstart Hset Hfront Hend] Hperm Hv. split; [| |done| |done].
  - intros c' a p' Hin. apply Hent. rewrite Hperm. by apply list_elem_of_further.
  - destruct Hstart as [?|(c' & p' & Hin & Hle)]; [by left|].
    rewrite Hperm in Hin. apply elem_of_cons in Hin as [[= -> -> ->]|Hin]; [by left|].
    right. by exists c', p'.
  - intros u f Hu Hf. destruct (Hfront u f Hu Hf) as [?|(c' & p' & Hin & Hle)]; [by left|].
    rewrite Hperm in Hin. apply elem_of_cons in Hin as [[= -> <- ->]|Hin]; [by left|].
    right. by exists c', p'.
Qed.

(** Popping an entry of an airport that is not visited yet, marking it and
    pushing its flights. *)
Lemma inv_visit pq visited D c v p rest :
  inv pq visited D → pq ≡ₚ (c, v, p) :: rest → (∀ e, e ∈ pq → c ≤ e.1.1) →
  v ∉ visited → v ≠ end_ →
  inv (push_flights criteria c p ({[v]} ∪ visited) (flights_from g v) rest)
      ({[v]} ∪ visited) (λ u, if decide (u = v) then c else D u).
Proof.
  intros Hinv Hperm Hmin Hv Hne.
  pose proof Hinv as [Hent Hstart Hset Hfront Hend].
  assert (∀ e, e ∈ rest → e ∈ pq) as Hrest.
  { intros e He. rewrite Hperm. by apply list_elem_of_further. }
  split.
  - intros c' a p' [Hin|(f & Hf & Hnv & [= -> -> ->])]%push_flights_elem.
    + by apply Hent, Hrest.
    + destruct (Hent c v p) as (fs & Hc & -> & ->).
      { rewrite Hperm. apply list_elem_of_here. }
      exists (fs ++ [f]). split; [by eapply connects_snoc|].
      by rewrite landings_snoc, cost_snoc.
  - rewrite visited_add. destruct Hstart as [?|(c' & p' & Hin & Hle)]; [by left; right|].
    rewrite Hperm in Hin. apply elem_of_cons in Hin as [[= -> -> ->]|Hin];
      [by left; left|].
    right. exists c', p'. split; [|done]. apply push_flights_elem. by left.
  - intros u fs [->|Hu]%visited_add Hc.
    + rewrite decide_True by done.
      destruct (frontier_entry pq visited D fs v Hinv Hc Hv) as (e & Hin & Hle).
      specialize (Hmin e Hin). lia.
    + rewrite decide_False by (by intros ->). by apply Hset.
  - intros u f Hu Hf.
    destruct (decide (Flight.destination f ∈ {[v]} ∪ visited)) as [?|Hd];
      [by left|right].
    apply visited_add in Hu as [->|Hu].
    + rewrite decide_True by done. eexists _, _. split; [|reflexivity].
      apply push_flights_elem. right. by exists f.
    + rewrite decide_False by (by intros ->). rewrite visited_add in Hd.
      destruct (Hfront u f Hu Hf) as [?|(c' & p' & Hin & Hle)]; [by destruct Hd; right|].
      rewrite Hperm in Hin. apply elem_of_cons in Hin as [[= -> Hdv ->]|Hin];
        [by destruct Hd; left|].
      exists c', p'. split; [|done]. apply push_flights_elem. by left.
  - by intros [->|?]%visited_add.
Qed.

(** What the loop returns when it starts in a state of the invariant. *)
Lemma dijkstra_loop_spec fuel :
  ∀ pq visited D res,
    inv pq visited D →
    dijkstra_loop fuel g end_ criteria pq visited = Some res →
    match res with
    | Some (p, c) =>
        (∃ fs, connects g start fs end_ ∧ p = start :: landings fs
               ∧ c = cost criteria fs)
        ∧ ∀ fs, connects g start fs end_ → c ≤ cost criteria fs
    | None => ∀ fs, ¬ connects g start fs end_
    end.
Proof.
  induction fuel as [|fuel IH]; intros pq visited D res Hinv; [done|]. simpl.
  destruct (heappop pq) as [[[[c v] p] rest]|] eqn:Hpop.
  - apply heappop_Some in Hpop as [Hperm Hmin]. simpl in Hmin.
    destruct (decide (v ∈ visited)) as [Hv|Hv].
    { apply (IH _ _ D). by apply (inv_skip pq visited D c v p rest). }
    destruct (decide (v = end_)) as [->|Hne].
    + intros [= <-]. split.
      * apply (inv_entries _ _ _ _ _ _ _ Hinv). rewrite Hperm. apply list_elem_of_here.
      * intros fs Hc.
        destruct (frontier_entry pq visited D fs end_ Hinv Hc Hv) as (e & Hin & Hle).
        specialize (Hmin e Hin). lia.
    + apply (IH _ _ (λ u, if decide (u = v) then c else D u)).
      by apply (inv_visit pq).
  - intros [= <-]. apply heappop_None in Hpop as ->. intros fs Hc.
    destruct (frontier_entry [] visited D fs end_ Hinv Hc) as (e & Hin & _).
    + apply (inv_end _ _ _ _ _ _ _ Hinv).
    + by apply elem_of_nil in Hin.
Qed.

End Loop.

Lemma nonneg_weightsb_sound g criteria :
  nonneg_weightsb g criteria = true → nonneg_weights g criteria.
Proof.
  unfold nonneg_weightsb, nonneg_weights, flights_from. intros Hb a f Hf.
  destruct (flights g !! a) as [l|] eqn:Hl; simpl in Hf; [|by apply elem_of_nil in Hf].
  apply elem_of_map_to_list in Hl. apply list_elem_of_In in Hl, Hf.
  rewrite forallb_forall in Hb. specialize (Hb _ Hl). simpl in Hb.
  rewrite forallb_forall in Hb. specialize (Hb _ Hf). by apply Z.leb_le.
Qed.

End DijkstraFacts.

(** ** Python containers *)

Module ContainerFacts.
Import LedgerSpec.

Lemma occurrences_app x l1 l2 :
  occurrences x (l1 ++ l2) = (occurrences x l1 + occurrences x l2)%nat.
Proof. induction l1 as [|y l1 IH]; simpl; lia. Qed.

Lemma occurrences_zero x l : occurrences x l = 0%nat ↔ x ∉ l.
Proof.
  induction l as [|y l IH]; simpl.
  - split; [intros _; apply not_elem_of_nil|done].
  - rewrite not_elem_of_cons. destruct (decide (y = x)) as [->|Hne].
    + split; [lia|]. by intros [? _].
    + simpl. rewrite IH. split; [|by intros [_ ?]]. intros ?. split; [|done].
      by intros ->.
Qed.

Lemma list_remove_None x l : list_remove x l = None ↔ occurrences x l = 0%nat.
Proof.
  induction l as [|y l IH]; simpl; [done|].
  destruct (decide (y = x)); [split; [done|lia]|].
  simpl. rewrite <- IH. by destruct (list_remove x l).
Qed.

Lemma list_remove_is_Some x l : (0 < occurrences x l)%nat → is_Some (list_remove x l).
Proof.
  intros Hocc. destruct (list_remove x l) as [l'|] eqn:Hrem; [by eexists|].
  apply list_remove_None in Hrem. lia.
Qed.

(** [remove] takes out one occurrence of [x] and nothing else. *)
Lemma list_remove_occurrences x y l l' :
  list_remove x l = Some l' →
  occurrences y l = ((if decide (x = y) then 1 else 0) + occurrences y l')%nat.
Proof.
  revert l'. induction l as [|z l IH]; intros l'; simpl; [done|].
  destruct (decide (z = x)) as [->|Hzx].
  - intros [= ->]. done.
  - destruct (list_remove x l) as [r|]; [|done]. intros [= <-]. simpl.
    rewrite (IH r eq_refl). lia.
Qed.

Lemma list_remove_length x l l' : list_remove x l = Some l' → length l = S (length l').
Proof.
  revert l'. induction l as [|z l IH]; intros l'; simpl; [done|].
  destruct (decide (z = x)); [by intros [= ->]|].
  destruct (list_remove x l) as [r|]; [|done]. intros [= <-]. simpl.
  by rewrite (IH r).
Qed.

Lemma list_remove_elem x y l l' : list_remove x l = Some l' → y ∈ l' → y ∈ l.
Proof.
  intros Hrem Hin. apply dec_stable. intros Hnin.
  apply occurrences_zero in Hnin. apply (list_remove_occurrences x y) in Hrem.
  assert (occurrences y l' = 0%nat) as Hz by lia. by apply occurrences_zero in Hz.
Qed.

Section DictFacts.
Context {V : Type}.
Implicit Types d : list (string * V).

Lemma dict_get_None k d : dict_get k d = None ↔ k ∉ d.*1.
Proof.
  induction d as [|[k' v] d IH]; simpl.
  - split; [intros _; apply not_elem_of_nil|done].
  - rewrite not_elem_of_cons. destruct (decide (k' = k)) as [->|Hne].
    + split; [done|]. by intros [? _].
    + rewrite IH. split; [|by intros [_ ?]]. intros ?. split; [|done]. by intros ->.
Qed.

Lemma dict_get_elem k v d : dict_get k d = Some v → (k, v) ∈ d.
Proof.
  induction d as [|[k' v'] d IH]; simpl; [done|].
  destruct (decide (k' = k)) as [->|Hne].
  - intros [= ->]. apply list_elem_of_here.
  - intros ?. by apply list_elem_of_further, IH.
Qed.

Lemma elem_dict_get k v d : NoDup d.*1 → (k, v) ∈ d → dict_get k d = Some v.
Proof.
  induction d as [|[k' v'] d IH]; simpl; [by intros _ ?%elem_of_nil|].
  intros [Hk Hnd]%NoDup_cons [[= -> ->]|Hin]%elem_of_cons.
  - by rewrite decide_True.
  - rewrite decide_False; [by apply IH|]. intros ->. apply Hk.
    apply list_elem_of_fmap. by exists (k, v).
Qed.

(** A new key goes last. *)
Lemma dict_set_fresh k v d : dict_get k d = None → dict_set k v d = d ++ [(k, v)].
Proof.
  induction d as [|[k' v'] d IH]; simpl; [done|].
  destruct (decide (k' = k)); [done|]. intros ?. by rewrite IH.
Qed.

(** A stored key reads the value set last. *)
Lemma dict_get_set k v d : dict_get k (dict_set k v d) = Some v.
Proof.
  induction d as [|[k' v'] d IH]; simpl.
  - by rewrite decide_True.
  - destruct (decide (k' = k)) as [->|Hne]; simpl.
    + by rewrite decide_True.
    + by rewrite decide_False.
Qed.

(** Mutating the object under [k] changes the one entry that [k] reads. *)
Lemma dict_alter_split f k v d :
  dict_get k d = Some v →
  ∃ l1 l2, d = l1 ++ (k, v) :: l2 ∧ dict_alter f k d = l1 ++ (k, f v) :: l2.
Proof.
  induction d as [|[k' v'] d IH]; simpl; [done|].
  destruct (decide (k' = k)) as [->|Hne].
  - intros [= ->]. by exists [], d.
  - intros (l1 & l2 & -> & ->)%IH. by exists ((k', v') :: l1), l2.
Qed.

Lemma dict_get_alter f k k' d :
  dict_get k' (dict_alter f k d)
  = if decide (k' = k) then f <$> dict_get k d else dict_get k' d.
Proof.
  induction d as [|[k0 v0] d IH]; simpl; [by destruct (decide _)|].
  destruct (decide (k0 = k)) as [->|Hne]; simpl; rewrite ?IH;
    repeat case_decide; simplify_eq; done.
Qed.

End DictFacts.

End ContainerFacts.

(** ** The booking ledger *)

Module LedgerFacts.
Import AirlineManagementSystem LedgerSpec LedgerSteps ContainerFacts.

Lemma count_bookings_app pid fid s bs1 bs2 :
  count_bookings pid fid s (bs1 ++ bs2)
  = (count_bookings pid fid s bs1 + count_bookings pid fid s bs2)%nat.
Proof. induction bs1 as [|[k b] bs1 IH]; simpl; lia. Qed.

Lemma count_bookings_pos pid fid s bs k b :
  (k, b) ∈ bs → holds pid fid s b = true → (0 < count_bookings pid fid s bs)%nat.
Proof.
  intros (l1 & l2 & ->)%list_elem_of_split Hb.
  rewrite count_bookings_app. simpl. rewrite Hb. lia.
Qed.

Lemma count_bookings_zero pid fid s bs :
  count_bookings pid fid s bs = 0%nat →
  ∀ k b, (k, b) ∈ bs → holds pid fid s b = false.
Proof.
  intros Hz k b Hin. destruct (holds pid fid s b) eqn:Hb; [|done].
  pose proof (count_bookings_pos _ _ _ _ _ _ Hin Hb). lia.
Qed.

Lemma holds_set_status pid fid s s' b :
  holds pid fid s (Booking.set_status s' b)
  = bool_decide (Booking.passenger_id b = pid) && bool_decide (Booking.flight_id b = fid)
    && bool_decide (s' = s).
Proof. done. Qed.

Lemma set_status_same b : Booking.set_status (Booking.status b) b = b.
Proof. by destruct b. Qed.

(** *** Changing the status of one booking *)

Lemma restatus_keys bs bs' k b s : restatus bs bs' k b s → bs'.*1 = bs.*1.
Proof. intros (l1 & l2 & -> & ->). by rewrite !fmap_app. Qed.

Lemma restatus_count bs bs' k b s pid fid s0 :
  restatus bs bs' k b s →
  (count_bookings pid fid s0 bs' + (if holds pid fid s0 b then 1 else 0)
   = count_bookings pid fid s0 bs
     + (if holds pid fid s0 (Booking.set_status s b) then 1 else 0))%nat.
Proof.
  intros (l1 & l2 & -> & ->). rewrite !count_bookings_app. simpl.
  destruct (holds pid fid s0 b), (holds pid fid s0 (Booking.set_status s b)); lia.
Qed.

Lemma restatus_elem bs bs' k b s k' b' :
  restatus bs bs' k b s → NoDup bs.*1 → (k', b') ∈ bs' →
  (k' = k ∧ b' = Booking.set_status s b) ∨ (k' ≠ k ∧ (k', b') ∈ bs).
Proof.
  intros (l1 & l2 & -> & ->) Hnd Hin.
  rewrite fmap_app in Hnd. simpl in Hnd.
  apply NoDup_app in Hnd as (_ & Hl1 & [Hl2 _]%NoDup_cons).
  rewrite elem_of_app, elem_of_cons in Hin. rewrite elem_of_app, elem_of_cons.
  destruct Hin as [Hin|[[= -> ->]|Hin]]; [right|by left|right].
  - split; [|by left]. intros ->. eapply (Hl1 k); [|apply list_elem_of_here].
    apply list_elem_of_fmap. by exists (k, b').
  - split; [|by right; right]. intros ->. apply Hl2.
    apply list_elem_of_fmap. by exists (k, b').
Qed.

Lemma restatus_elem_new bs bs' k b s :
  restatus bs bs' k b s → (k, Booking.set_status s b) ∈ bs'.
Proof.
  intros (l1 & l2 & _ & ->). apply elem_of_app. right. apply list_elem_of_here.
Qed.

Lemma restatus_elem_old bs bs' k b s : restatus bs bs' k b s → (k, b) ∈ bs.
Proof.
  intros (l1 & l2 & -> & _). apply elem_of_app. right. apply list_elem_of_here.
Qed.

Lemma restatus_get bs bs' k b s k' :
  restatus bs bs' k b s → NoDup bs.*1 → k' ≠ k → dict_get k' bs' = dict_get k' bs.
Proof.
  intros (l1 & l2 & -> & ->) _ Hne.
  induction l1 as [|[k1 b1] l1 IH]; simpl.
  - by rewrite !decide_False.
  - by rewrite IH.
Qed.

Lemma dict_alter_restatus bs k b s :
  dict_get k bs = Some b →
  restatus bs (dict_alter (Booking.set_status s) k bs) k b s.
Proof. intros (l1 & l2 & ? & ?)%(dict_alter_split (Booking.set_status s)). by exists l1, l2. Qed.

(** *** Promotion from the waiting list *)

Lemma confirm_waitlisted_None next fid bs :
  confirm_waitlisted next fid bs = None ↔
  count_bookings next fid Booking.WAITLISTED bs = 0%nat.
Proof.
  induction bs as [|[k b] bs IH]; simpl; [done|].
  change (is_waitlisted_for next fid b) with (holds next fid Booking.WAITLISTED b).
  destruct (holds next fid Booking.WAITLISTED b); [split; [done|lia]|].
  simpl. rewrite <- IH. by destruct (confirm_waitlisted next fid bs).
Qed.

(** The scan confirms the first waitlisted booking of the passenger for the
    flight, and changes nothing else. *)
Lemma confirm_waitlisted_Some next fid bs bs' :
  confirm_waitlisted next fid bs = Some bs' →
  ∃ l1 k b l2, bs = l1 ++ (k, b) :: l2
    ∧ bs' = l1 ++ (k, Booking.set_status Booking.CONFIRMED b) :: l2
    ∧ holds next fid Booking.WAITLISTED b = true
    ∧ Forall (λ kb, holds next fid Booking.WAITLISTED kb.2 = false) l1.
Proof.
  revert bs'. induction bs as [|[k b] bs IH]; intros bs'; simpl; [done|].
  change (is_waitlisted_for next fid b) with (holds next fid Booking.WAITLISTED b).
  destruct (holds next fid Booking.WAITLISTED b) eqn:Hb.
  - intros [= <-]. by exists [], k, b, bs.
  - destruct (confirm_waitlisted next fid bs) as [r|]; [|done]. intros [= <-].
    destruct (IH r eq_refl) as (l1 & k' & b' & l2 & -> & -> & Hb' & Hl1).
    exists ((k, b) :: l1), k', b', l2. repeat split; auto.
Qed.

Lemma confirm_waitlisted_restatus next fid bs bs' :
  confirm_waitlisted next fid bs = Some bs' →
  ∃ k b, restatus bs bs' k b Booking.CONFIRMED
    ∧ Booking.passenger_id b = next ∧ Booking.flight_id b = fid
    ∧ Booking.status b = Booking.WAITLISTED.
Proof.
  intros (l1 & k & b & l2 & -> & -> & Hb & _)%confirm_waitlisted_Some.
  exists k, b. split; [by exists l1, l2|].
  unfold holds in Hb. apply andb_true_iff in Hb as [[?%bool_decide_eq_true ?%bool_decide_eq_true]%andb_true_iff ?%bool_decide_eq_true].
  done.
Qed.

(** *** What cancel_booking does in a consistent ledger *)

Lemma ledger_refs st bid b :
  ledger_inv st → dict_get bid (bookings st) = Some b →
  ∃ f P, flights st !! Booking.flight_id b = Some f
    ∧ passengers st !! Booking.passenger_id b = Some P
    ∧ occurrences bid (Passenger.bookings P)
      = if decide (Booking.status b = Booking.CANCELLED) then 0%nat else 1%nat.
Proof.
  intros Hinv Hget. apply dict_get_elem in Hget.
  destruct (inv_refs st Hinv bid b Hget) as ([f Hf] & P & HP & Hocc).
  by exists f, P.
Qed.

Lemma set_bookings_same st : set_bookings (bookings st) st = st.
Proof. by destruct st. Qed.

Lemma dict_alter_same bid b (bs : list (string * Booking.t)) :
  dict_get bid bs = Some b →
  dict_alter (Booking.set_status (Booking.status b)) bid bs = bs.
Proof.
  intros (l1 & l2 & -> & ->)%(dict_alter_split (Booking.set_status (Booking.status b))).
  by rewrite set_status_same.
Qed.

(** A cancelled booking: the call changes nothing and ends in the
    [ValueError] of [passenger.bookings.remove]. *)
Lemma cancel_cancelled st bid b :
  ledger_inv st → dict_get bid (bookings st) = Some b →
  Booking.status b = Booking.CANCELLED →
  cancel_booking st bid = Raised st ValueError.
Proof.
  intros Hinv Hget Hs. destruct (ledger_refs st bid b Hinv Hget) as (f & P & Hf & HP & Hocc).
  unfold cancel_booking, release. rewrite Hget, Hf, HP, Hs.
  rewrite Hs in Hocc. simpl in Hocc. apply list_remove_None in Hocc. rewrite Hocc.
  rewrite <- Hs, (dict_alter_same bid b) by done. by rewrite set_bookings_same.
Qed.

(** A waitlisted booking: the passenger leaves the waiting list. *)
Lemma cancel_waitlisted st bid b f P :
  ledger_inv st → dict_get bid (bookings st) = Some b →
  Booking.status b = Booking.WAITLISTED →
  flights st !! Booking.flight_id b = Some f →
  passengers st !! Booking.passenger_id b = Some P →
  ∃ wl bks,
    list_remove (Booking.passenger_id b) (Flight.waiting_list f) = Some wl
    ∧ list_remove bid (Passenger.bookings P) = Some bks
    ∧ cancel_booking st bid
      = Returned (after_cancel st bid b P bks (bookings st)
                    (with_ledger f (Flight.booked_seats f) (Flight.passengers f) wl))
          true.
Proof.
  intros Hinv Hget Hs Hf HP.
  destruct (ledger_refs st bid b Hinv Hget) as (f' & P' & Hf' & HP' & Hocc).
  rewrite Hf in Hf'. rewrite HP in HP'. injection Hf' as <-. injection HP' as <-.
  rewrite Hs in Hocc. simpl in Hocc.
  destruct (list_remove_is_Some bid (Passenger.bookings P)) as [bks Hbks]; [lia|].
  pose proof (inv_waitlisted st Hinv _ f (Booking.passenger_id b) Hf) as Hw.
  pose proof (count_bookings_pos (Booking.passenger_id b) (Booking.flight_id b)
                Booking.WAITLISTED (bookings st) bid b (dict_get_elem _ _ _ Hget)) as Hpos.
  destruct (list_remove_is_Some (Booking.passenger_id b) (Flight.waiting_list f))
    as [wl Hwl].
  { rewrite Hw. apply Hpos. unfold holds. rewrite Hs.
    by rewrite !bool_decide_eq_true_2. }
  exists wl, bks. split; [done|]. split; [done|].
  unfold cancel_booking, release. by rewrite Hget, Hf, HP, Hs, Hwl, Hbks.
Qed.

(** A confirmed booking: the seat goes to the head of the waiting list, if
    there is one. *)
Lemma cancel_confirmed st bid b f P :
  ledger_inv st → dict_get bid (bookings st) = Some b →
  Booking.status b = Booking.CONFIRMED →
  flights st !! Booking.flight_id b = Some f →
  passengers st !! Booking.passenger_id b = Some P →
  ∃ ps bks,
    list_remove (Booking.passenger_id b) (Flight.passengers f) = Some ps
    ∧ list_remove bid (Passenger.bookings P) = Some bks
    ∧ match Flight.waiting_list f with
      | [] =>
          cancel_booking st bid
          = Returned (after_cancel st bid b P bks (bookings st)
                        (with_ledger f (Flight.booked_seats f - 1) ps []))
              true
      | next :: wl =>
          ∃ bs, confirm_waitlisted next (Booking.flight_id b) (bookings st) = Some bs
            ∧ cancel_booking st bid
              = Returned (after_cancel st bid b P bks bs
                            (with_ledger f (Flight.booked_seats f) (ps ++ [next]) wl))
                  true
      end.
Proof.
  intros Hinv Hget Hs Hf HP.
  destruct (ledger_refs st bid b Hinv Hget) as (f' & P' & Hf' & HP' & Hocc).
  rewrite Hf in Hf'. rewrite HP in HP'. injection Hf' as <-. injection HP' as <-.
  rewrite Hs in Hocc. simpl in Hocc.
  destruct (list_remove_is_Some bid (Passenger.bookings P)) as [bks Hbks]; [lia|].
  pose proof (inv_confirmed st Hinv _ f (Booking.passenger_id b) Hf) as Hc.
  pose proof (count_bookings_pos (Booking.passenger_id b) (Booking.flight_id b)
                Booking.CONFIRMED (bookings st) bid b (dict_get_elem _ _ _ Hget)) as Hpos.
  destruct (list_remove_is_Some (Booking.passenger_id b) (Flight.passengers f))
    as [ps Hps].
  { rewrite Hc. apply Hpos. unfold holds. rewrite Hs.
    by rewrite !bool_decide_eq_true_2. }
  exists ps, bks. split; [done|]. split; [done|].
  unfold cancel_booking, release. rewrite Hget, Hf, HP, Hs. simpl. rewrite Hps. simpl.
  unfold after_cancel, with_ledger.
  destruct (Flight.waiting_list f) as [|next wl] eqn:Hwl.
  - rewrite Hbks. unfold Flight.set_passengers. simpl. by rewrite Hwl.
  - pose proof (inv_waitlisted st Hinv _ f next Hf) as Hw.
    rewrite Hwl in Hw. simpl in Hw. rewrite decide_True in Hw by done.
    destruct (confirm_waitlisted next (Booking.flight_id b) (bookings st)) as [bs|] eqn:Hcw.
    + exists bs. split; [done|]. rewrite Hbks. simpl. by rewrite Z.sub_add.
    + apply confirm_waitlisted_None in Hcw. lia.
Qed.

(** *** The consistency of the ledger is kept *)

Lemma keys_functional (bs : list (string * Booking.t)) k b1 b2 :
  NoDup bs.*1 → (k, b1) ∈ bs → (k, b2) ∈ bs → b1 = b2.
Proof.
  intros Hnd H1%(elem_dict_get _ _ _ Hnd) H2%(elem_dict_get _ _ _ Hnd). congruence.
Qed.

(** Case analysis on the tests inside [holds] and [occurrences]. *)
Ltac count_cases :=
  unfold holds in *; simpl in *;
  repeat case_bool_decide; repeat case_decide; simpl in *;
  try congruence; try lia.

Lemma ledger_inv_init : ledger_inv init.
Proof.
  split; simpl.
  - apply NoDup_nil_2.
  - by intros fid f ?%lookup_empty_Some.
  - by intros fid f pid ?%lookup_empty_Some.
  - by intros fid f pid ?%lookup_empty_Some.
  - by intros bid b ?%elem_of_nil.
  - by intros pid P bid ?%lookup_empty_Some.
Qed.

Lemma add_airport_inv st a : ledger_inv st → ledger_inv (add_airport st a).
Proof. intros [? ? ? ? ? ?]. by split. Qed.

(** No booking names a flight that is not in the system. *)
Lemma count_bookings_unknown st pid fid s :
  ledger_inv st → flights st !! fid = None → count_bookings pid fid s (bookings st) = 0%nat.
Proof.
  intros Hinv Hnone. pose proof (inv_refs st Hinv) as Hrefs.
  induction (bookings st) as [|[k b] bs IH]; simpl; [done|].
  rewrite IH; [|intros k' b' Hin; apply Hrefs; by apply list_elem_of_further].
  destruct (Hrefs k b) as [[f Hf] _]; [apply list_elem_of_here|].
  count_cases.
Qed.

Lemma add_flight_inv st fid o d dep arr cap p dist :
  ledger_inv st → flights st !! fid = None → 0 ≤ cap →
  ledger_inv (add_flight st fid o d dep arr cap p dist).
Proof.
  intros Hinv Hnone Hcap. pose proof Hinv as [Hk Hs Hc Hw Hr Hl]. split; simpl; auto.
  - intros fid' f [[<- <-]|[Hne Hf]]%lookup_insert_Some; simpl; [lia|eauto].
  - intros fid' f pid [[<- <-]|[Hne Hf]]%lookup_insert_Some; simpl; [|eauto].
    by rewrite count_bookings_unknown.
  - intros fid' f pid [[<- <-]|[Hne Hf]]%lookup_insert_Some; simpl; [|eauto].
    by rewrite count_bookings_unknown.
  - intros bid b Hin. destruct (Hr bid b Hin) as [[f Hf] HP]. split; [|done].
    destruct (decide (fid = Booking.flight_id b)) as [->|Hne].
    + rewrite lookup_insert_eq. by eexists.
    + rewrite lookup_insert_ne by done. by eexists.
Qed.

Lemma register_passenger_inv st pid n e ph :
  ledger_inv st → passengers st !! pid = None →
  ledger_inv (register_passenger st pid n e ph).1.
Proof.
  intros Hinv Hnone. pose proof Hinv as [Hk Hs Hc Hw Hr Hl]. split; simpl; auto.
  - intros bid b Hin. destruct (Hr bid b Hin) as [Hf (P & HP & Hocc)]. split; [done|].
    exists P. split; [|done]. rewrite lookup_insert_ne; [done|]. intros ->. congruence.
  - intros pid' P bid [[<- <-]|[Hne HP]]%lookup_insert_Some; simpl; [|eauto].
    by intros ?%elem_of_nil.
Qed.

(** The changes of [book_flight] to the bookings, to the flight and to the
    passenger keep the ledger consistent, whichever of its two branches made
    them. *)
Lemma book_flight_inv_branch st pid fid bid now P f s f' :
  ledger_inv st → dict_get bid (bookings st) = None →
  passengers st !! pid = Some P → flights st !! fid = Some f →
  s ≠ Booking.CANCELLED →
  (0 ≤ Flight.booked_seats f' ≤ Flight.capacity f'
   ∧ Flight.booked_seats f' = Z.of_nat (length (Flight.passengers f'))) →
  (∀ p, occurrences p (Flight.passengers f')
        = (occurrences p (Flight.passengers f)
           + if bool_decide (pid = p) && bool_decide (s = Booking.CONFIRMED)
             then 1 else 0)%nat) →
  (∀ p, occurrences p (Flight.waiting_list f')
        = (occurrences p (Flight.waiting_list f)
           + if bool_decide (pid = p) && bool_decide (s = Booking.WAITLISTED)
             then 1 else 0)%nat) →
  ledger_inv
    (mk (airport_graph st) (flight_schedule st)
       (<[pid := Passenger.set_bookings (Passenger.bookings P ++ [bid]) P]>
          (passengers st))
       (bookings st ++ [(bid, Booking.mk bid pid fid now s)])
       (<[fid := f']> (flights st))).
Proof.
  intros Hinv Hfresh HP Hf Hs Hseats Hconf Hwait.
  pose proof Hinv as [Hk Hst Hc Hw Hr Hl].
  pose proof (proj1 (dict_get_None _ _) Hfresh) as Hnk.
  assert (occurrences bid (Passenger.bookings P) = 0%nat) as HbidP.
  { apply occurrences_zero. intros Hin. apply Hnk. by eapply Hl. }
  split; simpl.
  - rewrite fmap_app. apply NoDup_app. split; [done|]. split; [|apply NoDup_singleton].
    by intros k Hk1 ->%list_elem_of_singleton.
  - intros fid' f0 [[<- <-]|[Hne Hf0]]%lookup_insert_Some; [done|by eauto].
  - intros fid' f0 p [[<- <-]|[Hne Hf0]]%lookup_insert_Some;
      rewrite count_bookings_app; simpl.
    + rewrite Hconf, (Hc fid f p Hf). count_cases.
    + rewrite (Hc fid' f0 p Hf0). count_cases.
  - intros fid' f0 p [[<- <-]|[Hne Hf0]]%lookup_insert_Some;
      rewrite count_bookings_app; simpl.
    + rewrite Hwait, (Hw fid f p Hf). count_cases.
    + rewrite (Hw fid' f0 p Hf0). count_cases.
  - intros k v [Hin|[= -> ->]%list_elem_of_singleton]%elem_of_app; simpl.
    + destruct (Hr k v Hin) as [[f0 Hf0] (P0 & HP0 & Hocc)].
      split; [apply lookup_insert_is_Some'; right; by eexists|].
      destruct (decide (pid = Booking.passenger_id v)) as [Heq|Hne].
      * rewrite <- Heq in *. rewrite lookup_insert_eq. eexists. split; [done|]. simpl.
        rewrite occurrences_app. simpl. rewrite decide_False.
        -- replace P0 with P in * by congruence. lia.
        -- intros <-. apply Hnk, list_elem_of_fmap. by exists (bid, v).
      * rewrite lookup_insert_ne by done. by exists P0.
    + split; [rewrite lookup_insert_eq; by eexists|].
      eexists. split; [apply lookup_insert_eq|]. simpl.
      rewrite occurrences_app. simpl. rewrite decide_True by done.
      rewrite decide_False by done. lia.
  - intros pid' P' bid' [[<- <-]|[Hne HP']]%lookup_insert_Some Hin; simpl in *;
      rewrite fmap_app; apply elem_of_app; [|by left; eauto].
    apply elem_of_app in Hin as [?|?]; [left; by eauto|by right].
Qed.

Lemma book_flight_inv st pid fid bid now :
  ledger_inv st → dict_get bid (bookings st) = None →
  ledger_inv (book_flight st pid fid bid now).1.
Proof.
  intros Hinv Hfresh. unfold book_flight.
  destruct (passengers st !! pid) as [P|] eqn:HP; [|done].
  destruct (flights st !! fid) as [f|] eqn:Hf; [|done].
  destruct (inv_seats st Hinv fid f Hf) as [Hcap Hlen].
  destruct (Flight.is_available f) eqn:Hav; unfold Flight.is_available in Hav;
    [apply Z.ltb_lt in Hav|apply Z.ltb_ge in Hav];
    simpl; rewrite dict_set_fresh by done;
    apply (book_flight_inv_branch st pid fid bid now P f); try done; simpl.
  - rewrite length_app. simpl. lia.
  - intros p. rewrite occurrences_app. simpl. count_cases.
  - intros p. count_cases.
  - intros p. count_cases.
  - intros p. rewrite occurrences_app. simpl. count_cases.
Qed.

(** The state after a cancellation that returns [True] is consistent when
    the branch on the status left bookings [bs1] and a flight [f'] that are
    consistent up to the booking [b] that is about to become cancelled. *)
Lemma after_cancel_inv st bid b f P bks bs1 f' :
  ledger_inv st →
  dict_get bid (bookings st) = Some b → Booking.status b ≠ Booking.CANCELLED →
  flights st !! Booking.flight_id b = Some f →
  passengers st !! Booking.passenger_id b = Some P →
  list_remove bid (Passenger.bookings P) = Some bks →
  bs1.*1 = (bookings st).*1 →
  dict_get bid bs1 = Some b →
  (∀ k v, (k, v) ∈ bs1 →
     ∃ v0, (k, v0) ∈ bookings st
       ∧ Booking.passenger_id v = Booking.passenger_id v0
       ∧ Booking.flight_id v = Booking.flight_id v0
       ∧ (Booking.status v = Booking.CANCELLED ↔ Booking.status v0 = Booking.CANCELLED)) →
  (0 ≤ Flight.booked_seats f' ≤ Flight.capacity f'
   ∧ Flight.booked_seats f' = Z.of_nat (length (Flight.passengers f'))) →
  (∀ p, (occurrences p (Flight.passengers f')
         + (if holds p (Booking.flight_id b) Booking.CONFIRMED b then 1 else 0)
         = count_bookings p (Booking.flight_id b) Booking.CONFIRMED bs1)%nat) →
  (∀ p, (occurrences p (Flight.waiting_list f')
         + (if holds p (Booking.flight_id b) Booking.WAITLISTED b then 1 else 0)
         = count_bookings p (Booking.flight_id b) Booking.WAITLISTED bs1)%nat) →
  (∀ p fid s, fid ≠ Booking.flight_id b →
     count_bookings p fid s bs1 = count_bookings p fid s (bookings st)) →
  ledger_inv (after_cancel st bid b P bks bs1 f').
Proof.
  intros Hinv Hget Hs Hf HP Hbks Hkeys Hget1 Hrefs1 Hseats Hconf Hwait Hother.
  pose proof Hinv as [Hk Hst Hc Hw Hr Hl].
  pose proof (dict_alter_restatus bs1 bid b Booking.CANCELLED Hget1) as Hre.
  assert (NoDup bs1.*1) as Hk1 by (by rewrite Hkeys).
  destruct (ledger_refs st bid b Hinv Hget) as (f0 & P0 & Hf0 & HP0 & Hocc).
  replace f0 with f in * by congruence. replace P0 with P in * by congruence.
  rewrite decide_False in Hocc by done.
  split; unfold after_cancel; simpl.
  - by rewrite (restatus_keys _ _ _ _ _ Hre).
  - intros fid f1 [[<- <-]|[Hne Hf1]]%lookup_insert_Some; [done|by eauto].
  - intros fid f1 p [[<- <-]|[Hne Hf1]]%lookup_insert_Some.
    + pose proof (restatus_count _ _ _ _ _ p (Booking.flight_id b) Booking.CONFIRMED Hre).
      specialize (Hconf p). rewrite holds_set_status in *. count_cases.
    + pose proof (restatus_count _ _ _ _ _ p fid Booking.CONFIRMED Hre).
      rewrite (Hc fid f1 p Hf1), <- (Hother p fid) by done.
      rewrite holds_set_status in *. count_cases.
  - intros fid f1 p [[<- <-]|[Hne Hf1]]%lookup_insert_Some.
    + pose proof (restatus_count _ _ _ _ _ p (Booking.flight_id b) Booking.WAITLISTED Hre).
      specialize (Hwait p). rewrite holds_set_status in *. count_cases.
    + pose proof (restatus_count _ _ _ _ _ p fid Booking.WAITLISTED Hre).
      rewrite (Hw fid f1 p Hf1), <- (Hother p fid) by done.
      rewrite holds_set_status in *. count_cases.
  - intros k v Hin.
    destruct (restatus_elem _ _ _ _ _ _ _ Hre Hk1 Hin) as [[-> ->]|[Hne Hin1]]; simpl.
    + split; [rewrite lookup_insert_eq; by eexists|].
      eexists. split; [apply lookup_insert_eq|]. simpl.
      pose proof (list_remove_occurrences bid bid _ _ Hbks) as Hrem.
      rewrite decide_True in Hrem by done. lia.
    + destruct (Hrefs1 k v Hin1) as (v0 & Hin0 & Hpid & Hfid & Hcan).
      destruct (Hr k v0 Hin0) as [[f1 Hf1] (P1 & HP1 & Hocc1)].
      rewrite Hpid, Hfid.
      split; [apply lookup_insert_is_Some'; right; by eexists|].
      assert ((if decide (Booking.status v = Booking.CANCELLED) then 0%nat else 1%nat)
              = if decide (Booking.status v0 = Booking.CANCELLED) then 0%nat else 1%nat)
        as -> by (repeat case_decide; tauto).
      destruct (decide (Booking.passenger_id b = Booking.passenger_id v0)) as [Heq|Hnp].
      * rewrite <- Heq in *. rewrite lookup_insert_eq. eexists. split; [done|]. simpl.
        replace P1 with P in * by congruence.
        pose proof (list_remove_occurrences bid k _ _ Hbks) as Hrem.
        rewrite decide_False in Hrem by done. lia.
      * rewrite lookup_insert_ne by done. by exists P1.
  - intros pid P1 bid' [[<- <-]|[Hne HP1]]%lookup_insert_Some Hin; simpl in *;
      rewrite (restatus_keys _ _ _ _ _ Hre), Hkeys; [|by eauto].
    eapply Hl; [exact HP|]. by eapply list_remove_elem.
Qed.

Lemma same_bookings_refs (bs : list (string * Booking.t)) k v :
  (k, v) ∈ bs →
  ∃ v0, (k, v0) ∈ bs
    ∧ Booking.passenger_id v = Booking.passenger_id v0
    ∧ Booking.flight_id v = Booking.flight_id v0
    ∧ (Booking.status v = Booking.CANCELLED ↔ Booking.status v0 = Booking.CANCELLED).
Proof. intros Hin. by exists v. Qed.

Lemma cancel_booking_inv st bid :
  ledger_inv st → ledger_inv (state_of (cancel_booking st bid)).
Proof.
  intros Hinv.
  destruct (dict_get bid (bookings st)) as [b|] eqn:Hget;
    [|unfold cancel_booking; by rewrite Hget].
  destruct (ledger_refs st bid b Hinv Hget) as (f & P & Hf & HP & _).
  pose proof Hinv as [Hk Hst Hc Hw Hr Hl].
  destruct (Hst _ f Hf) as [Hcap Hlen].
  destruct (Booking.status b) eqn:Hs.
  - (* CONFIRMED *)
    destruct (cancel_confirmed st bid b f P Hinv Hget Hs Hf HP)
      as (ps & bks & Hps & Hbks & Hrun).
    pose proof (list_remove_length _ _ _ Hps) as Hpslen.
    destruct (Flight.waiting_list f) as [|next wl] eqn:Hwl.
    + rewrite Hrun. simpl.
      apply (after_cancel_inv st bid b f P); try done; try (by rewrite Hs).
      * apply same_bookings_refs.
      * simpl. lia.
      * intros p. simpl. rewrite <- (Hc _ f p Hf).
        rewrite (list_remove_occurrences _ p _ _ Hps). unfold holds. rewrite Hs. count_cases.
      * intros p. simpl. rewrite <- (Hw _ f p Hf), Hwl. unfold holds. rewrite Hs. count_cases.
    + destruct Hrun as (bs1 & Hcw & Hrun). rewrite Hrun. simpl.
      destruct (confirm_waitlisted_restatus _ _ _ _ Hcw) as (k1 & b1 & Hre & Hp1 & Hf1 & Hs1).
      pose proof (restatus_elem_old _ _ _ _ _ Hre) as Hin1.
      assert (bid ≠ k1) as Hne.
      { intros ->. apply dict_get_elem in Hget.
        pose proof (keys_functional _ _ _ _ Hk Hget Hin1). congruence. }
      apply (after_cancel_inv st bid b f P); try done; try (by rewrite Hs).
      * by eapply restatus_keys.
      * by rewrite (restatus_get _ _ _ _ _ bid Hre).
      * intros k v Hin.
        destruct (restatus_elem _ _ _ _ _ _ _ Hre Hk Hin) as [[-> ->]|[_ Hin0]].
        -- exists b1. simpl. rewrite Hs1. by repeat split.
        -- by apply same_bookings_refs.
      * simpl. rewrite length_app. simpl. lia.
      * intros p. simpl. rewrite occurrences_app. simpl.
        pose proof (restatus_count _ _ _ _ _ p (Booking.flight_id b) Booking.CONFIRMED Hre)
          as Hcount.
        rewrite <- (Hc _ f p Hf), (list_remove_occurrences _ p _ _ Hps) in Hcount.
        rewrite holds_set_status in Hcount. revert Hcount.
        unfold holds. rewrite Hs, Hp1, Hf1, Hs1. count_cases.
      * intros p. simpl.
        pose proof (restatus_count _ _ _ _ _ p (Booking.flight_id b) Booking.WAITLISTED Hre)
          as Hcount.
        rewrite <- (Hw _ f p Hf), Hwl in Hcount.
        rewrite holds_set_status in Hcount. revert Hcount.
        unfold holds. rewrite Hs, Hp1, Hf1, Hs1. count_cases.
      * intros p fid s Hfid.
        pose proof (restatus_count _ _ _ _ _ p fid s Hre) as Hcount.
        rewrite holds_set_status in Hcount. revert Hcount.
        unfold holds. rewrite Hf1. count_cases.
  - (* CANCELLED *)
    by rewrite (cancel_cancelled st bid b).
  - (* WAITLISTED *)
    destruct (cancel_waitlisted st bid b f P Hinv Hget Hs Hf HP)
      as (wl & bks & Hwl & Hbks & ->). simpl.
    apply (after_cancel_inv st bid b f P); try done; try (by rewrite Hs).
    + apply same_bookings_refs.
    + intros p. simpl. rewrite <- (Hc _ f p Hf). unfold holds. rewrite Hs. count_cases.
    + intros p. simpl. rewrite <- (Hw _ f p Hf).
      rewrite (list_remove_occurrences _ p _ _ Hwl). unfold holds. rewrite Hs. count_cases.
Qed.

(** Every call of an admissible history keeps the ledger consistent. *)
Lemma run_inv st c : ledger_inv st → admissible st c → ledger_inv (run st c).
Proof.
  intros Hinv Hadm. destruct c; simpl in *.
  - by apply add_airport_inv.
  - destruct Hadm. by apply add_flight_inv.
  - by apply register_passenger_inv.
  - by apply book_flight_inv.
  - by apply cancel_booking_inv.
Qed.

Lemma reachable_inv st : reachable st → ledger_inv st.
Proof.
  induction 1 as [|st c _ IH Hadm]; [apply ledger_inv_init|by apply run_inv].
Qed.

Lemma reachable_foldl st cs :
  reachable st → Histories.admissible_from st cs → reachable (foldl run st cs).
Proof.
  revert st. induction cs as [|c cs IH]; intros st Hst; simpl; [done|].
  intros [Hc Hcs]. apply IH; [by constructor|done].
Qed.

Lemma reachable_replay cs :
  Histories.admissible_from init cs → reachable (Histories.replay cs).
Proof. apply reachable_foldl. constructor. Qed.

(** In a reachable state a cancellation either is carried out and returns
    [True], or leaves the state as it was. *)
Lemma cancel_booking_all_or_nothing st bid :
  reachable st →
  (∃ st', cancel_booking st bid = Returned st' true)
  ∨ state_of (cancel_booking st bid) = st.
Proof.
  intros Hinv%reachable_inv.
  destruct (dict_get bid (bookings st)) as [b|] eqn:Hget;
    [|right; unfold cancel_booking; by rewrite Hget].
  destruct (ledger_refs st bid b Hinv Hget) as (f & P & Hf & HP & _).
  destruct (Booking.status b) eqn:Hs.
  - left. destruct (cancel_confirmed st bid b f P Hinv Hget Hs Hf HP)
      as (ps & bks & _ & _ & Hrun).
    destruct (Flight.waiting_list f); [by eexists|].
    destruct Hrun as (bs & _ & Hrun). by eexists.
  - right. by rewrite (cancel_cancelled st bid b).
  - left. destruct (cancel_waitlisted st bid b f P Hinv Hget Hs Hf HP)
      as (wl & bks & _ & _ & Hrun). by eexists.
Qed.

End LedgerFacts.

(** ** The order of the waiting list *)

Module WaitingOrderFacts.
Import AirlineManagementSystem LedgerSpec LedgerSteps WaitingOrder.
Import ContainerFacts LedgerFacts.

Lemma ahead_snoc p1 p2 l x : ahead p1 p2 l → ahead p1 p2 (l ++ [x]).
Proof.
  intros (l1 & l2 & -> & Hnin). exists l1, (l2 ++ [x]). by rewrite <- app_assoc.
Qed.

(** When the head leaves, it was not [p2], and [p1] stays in front unless it
    was the head. *)
Lemma ahead_pop p1 p2 h l :
  p1 ≠ p2 → ahead p1 p2 (h :: l) → h ≠ p2 ∧ (ahead p1 p2 l ∨ h = p1).
Proof.
  intros Hne (l1 & l2 & Heq & Hnin). destruct l1 as [|h' l1]; simpl in Heq.
  - injection Heq as -> ->. split; [done|by right].
  - injection Heq as -> ->. apply not_elem_of_cons in Hnin as [Hh Hnin].
    split; [done|]. left. by exists l1, l2.
Qed.

(** [remove] of somebody else keeps [p1] in front. *)
Lemma ahead_remove p1 p2 x l l' :
  x ≠ p1 → list_remove x l = Some l' → ahead p1 p2 l → ahead p1 p2 l'.
Proof.
  intros Hx Hrem (l1 & l2 & -> & Hnin). revert l' Hrem.
  induction l1 as [|h l1 IH]; intros l'; simpl.
  - rewrite decide_False by done. destruct (list_remove x l2) as [r|]; [|done].
    intros [= <-]. by exists [], r.
  - apply not_elem_of_cons in Hnin as [Hh Hnin]. destruct (decide (h = x)) as [->|Hhx].
    + intros [= <-]. by exists l1, l2.
    + destruct (list_remove x (l1 ++ p1 :: l2)) as [r|] eqn:Hr; [|done]. intros [= <-].
      destruct (IH Hnin r eq_refl) as (a & b & -> & Ha). exists (h :: a), b.
      split; [done|]. by apply not_elem_of_cons.
Qed.

Lemma dict_get_snoc (bs : list (string * Booking.t)) k b kb :
  dict_get k bs = Some b → dict_get k (bs ++ [kb]) = Some b.
Proof.
  induction bs as [|[k' b'] bs IH]; simpl; [done|]. by destruct (decide (k' = k)).
Qed.

Lemma same_bookings_not_promoted st st' fid p :
  bookings st' = bookings st → ¬ promoted st st' fid p.
Proof.
  intros Hb (k & b & b' & Hget & Hget' & _ & _ & Hs & Hs'). rewrite Hb in Hget'. congruence.
Qed.

Lemma new_booking_not_promoted st st' fid p kb :
  bookings st' = bookings st ++ [kb] → ¬ promoted st st' fid p.
Proof.
  intros Hb (k & b & b' & Hget & Hget' & _ & _ & Hs & Hs').
  rewrite Hb, (dict_get_snoc _ k b kb Hget) in Hget'. congruence.
Qed.

Lemma cancelled_not_promoted st st' fid p bid :
  bookings st' = dict_alter (Booking.set_status Booking.CANCELLED) bid (bookings st) →
  ¬ promoted st st' fid p.
Proof.
  intros Hb (k & b & b' & Hget & Hget' & _ & _ & Hs & Hs').
  rewrite Hb, dict_get_alter in Hget'. destruct (decide (k = bid)) as [->|Hne].
  - rewrite Hget in Hget'. injection Hget' as <-. done.
  - congruence.
Qed.

(** A call keeps [p1] in front of [p2] on the waiting list of a flight unless
    an entry of [p1] leaves the list, and it does not promote [p2]. *)
Lemma run_keeps_order st c fid f p1 p2 :
  reachable st → admissible st c →
  flights st !! fid = Some f → p1 ≠ p2 → ahead p1 p2 (Flight.waiting_list f) →
  ∃ f', flights (run st c) !! fid = Some f'
    ∧ ¬ promoted st (run st c) fid p2
    ∧ (ahead p1 p2 (Flight.waiting_list f')
       ∨ (occurrences p1 (Flight.waiting_list f')
          < occurrences p1 (Flight.waiting_list f))%nat).
Proof.
  intros Hinv%reachable_inv Hadm Hf Hne Hahead.
  destruct c as [a|fid0 o d dep arr cap p dist|pid n e ph|pid fid0 bid now|bid];
    simpl in *.
  - exists f. split; [done|]. split; [by apply same_bookings_not_promoted|by left].
  - destruct Hadm as [Hfresh _]. exists f.
    split; [rewrite lookup_insert_ne; [done|congruence]|].
    split; [by apply same_bookings_not_promoted|by left].
  - exists f. split; [done|]. split; [by apply same_bookings_not_promoted|by left].
  - unfold book_flight. destruct (passengers st !! pid) as [P|];
      [|exists f; split; [done|]; split; [by apply same_bookings_not_promoted|by left]].
    destruct (flights st !! fid0) as [f0|] eqn:Hf0;
      [|exists f; split; [done|]; split; [by apply same_bookings_not_promoted|by left]].
    destruct (decide (fid0 = fid)) as [->|Hfid].
    + replace f0 with f in * by congruence.
      destruct (Flight.is_available f); simpl; eexists;
        (split; [apply lookup_insert_eq|]);
        (split; [eapply new_booking_not_promoted; simpl; by apply dict_set_fresh|]);
        left; simpl; [done|by apply ahead_snoc].
    + destruct (Flight.is_available f0); simpl; exists f;
        (split; [by rewrite lookup_insert_ne|]);
        (split; [eapply new_booking_not_promoted; simpl; by apply dict_set_fresh|]);
        by left.
  - destruct (dict_get bid (bookings st)) as [b|] eqn:Hget;
      [|unfold cancel_booking; rewrite Hget; exists f; split; [done|];
        split; [by apply same_bookings_not_promoted|by left]].
    destruct (ledger_refs st bid b Hinv Hget) as (f0 & P & Hf0 & HP & _).
    destruct (Booking.status b) eqn:Hs.
    + destruct (cancel_confirmed st bid b f0 P Hinv Hget Hs Hf0 HP)
        as (ps & bks & Hps & Hbks & Hrun).
      destruct (Flight.waiting_list f0) as [|next wl] eqn:Hwl.
      * rewrite Hrun. simpl. destruct (decide (Booking.flight_id b = fid)) as [Hfid|Hfid].
        -- rewrite Hfid in Hf0. replace f0 with f in * by congruence.
           destruct Hahead as (l1 & l2 & Heq & _). rewrite Hwl in Heq.
           by destruct l1.
        -- exists f. split; [by rewrite lookup_insert_ne|].
           split; [by eapply cancelled_not_promoted|by left].
      * destruct Hrun as (bs1 & Hcw & ->). simpl.
        destruct (confirm_waitlisted_restatus _ _ _ _ Hcw) as (k1 & b1 & Hre & Hp1 & Hf1 & Hs1).
        pose proof (inv_keys st Hinv) as Hk.
        pose proof (elem_dict_get _ _ _ Hk (restatus_elem_old _ _ _ _ _ Hre)) as Hget1.
        assert (Booking.flight_id b = fid → next ≠ p2
                ∧ (ahead p1 p2 wl ∨ next = p1)) as Hhead.
        { intros Hfid. rewrite Hfid in Hf0. replace f0 with f in * by congruence.
          rewrite Hwl in Hahead. by apply ahead_pop. }
        assert (¬ promoted st
                  (after_cancel st bid b P bks bs1
                     (with_ledger f0 (Flight.booked_seats f0) (ps ++ [next]) wl)) fid p2)
          as Hnot.
        { intros (k & b0 & b0' & Hget0 & Hget0' & Hp0 & Hfl0 & Hs0 & Hs0'). simpl in Hget0'.
          rewrite dict_get_alter in Hget0'. destruct (decide (k = bid)) as [->|Hkb].
          - destruct (dict_get bid bs1) as [x|]; [|done]. injection Hget0' as <-. done.
          - destruct (decide (k = k1)) as [->|Hk1].
            + replace b0 with b1 in * by congruence.
              destruct Hhead as [Hnext _]; congruence.
            + rewrite (restatus_get _ _ _ _ _ k Hre Hk Hk1) in Hget0'. congruence. }
        destruct (decide (Booking.flight_id b = fid)) as [Hfid|Hfid].
        -- destruct (Hhead Hfid) as [_ Hrest]. rewrite Hfid in Hf0.
           replace f0 with f in * by congruence. rewrite Hfid.
           eexists. split; [apply lookup_insert_eq|]. split; [exact Hnot|]. simpl.
           destruct Hrest as [?| ->]; [by left|right].
           rewrite Hwl. simpl. rewrite decide_True by done. lia.
        -- exists f. split; [by rewrite lookup_insert_ne|]. split; [exact Hnot|by left].
    + rewrite (cancel_cancelled st bid b) by done. simpl. exists f. split; [done|].
      split; [by apply same_bookings_not_promoted|by left].
    + destruct (cancel_waitlisted st bid b f0 P Hinv Hget Hs Hf0 HP)
        as (wl & bks & Hwl & Hbks & ->). simpl.
      destruct (decide (Booking.flight_id b = fid)) as [Hfid|Hfid].
      * rewrite Hfid in Hf0. replace f0 with f in * by congruence. rewrite Hfid.
        eexists. split; [apply lookup_insert_eq|].
        split; [by eapply cancelled_not_promoted|]. simpl.
        destruct (decide (Booking.passenger_id b = p1)) as [Hp|Hp].
        -- right. rewrite (list_remove_occurrences _ p1 _ _ Hwl).
           rewrite decide_True by done. lia.
        -- left. by eapply ahead_remove.
      * exists f. split; [by rewrite lookup_insert_ne|].
        split; [by eapply cancelled_not_promoted|by left].
Qed.

End WaitingOrderFacts.

(** * The claims *)

Section Claims.
Import AirlineManagementSystem Histories Scenarios LedgerScenarios.
Import ScheduleSpec RouteSpec DijkstraSpec LedgerSpec LedgerSteps WaitingOrder.
Local Open Scope string_scope.
Local Open Scope list_scope.
Local Open Scope Z_scope.

(** ** Flight schedule *)

(** C10, as the code has it: after any sequence of [add_flight] calls the
    listing of the schedule is in ascending order of departure time and holds
    exactly the flights added; and a flight that does not depart strictly
    before the first listed flight is linked in after it and after the
    strictly earlier flights that follow it, so in front of every other
    listed flight with the same departure time. *)
Theorem schedule_ascending (fs : list Flight.t) (flight : Flight.t) :
  let s := scheduled fs in
  ascending (FlightSchedule.display_schedule s)
  ∧ FlightSchedule.display_schedule s ≡ₚ fs
  ∧ FlightSchedule.size s = Z.of_nat (length fs)
  ∧ match FlightSchedule.display_schedule s with
    | [] => FlightSchedule.display_schedule (FlightSchedule.add_flight s flight) = [flight]
    | h :: rest =>
        if String.ltb (Flight.departure_time flight) (Flight.departure_time h)
        then FlightSchedule.display_schedule (FlightSchedule.add_flight s flight)
             = flight :: h :: rest
        else ∃ l1 l2, rest = l1 ++ l2
               ∧ FlightSchedule.display_schedule (FlightSchedule.add_flight s flight)
                 = h :: l1 ++ flight :: l2
               ∧ Forall (λ n, departs_lt n flight) l1
               ∧ Forall (departs_le flight) l2
    end.
Proof.
  intros s. split; [apply ScheduleFacts.scheduled_ascending|].
  split; [apply ScheduleFacts.scheduled_perm|].
  split; [apply ScheduleFacts.scheduled_size|].
  apply ScheduleFacts.add_flight_place, ScheduleFacts.scheduled_ascending.
Qed.

(** C10, as stated, fails: of three flights with the same departure time,
    added in the order A, B, C, the listing shows C before B. *)
Lemma schedule_ties_not_in_insertion_order :
  Forall (λ f, Flight.departure_time f = "08:00") same_time
  ∧ Flight.flight_id <$> same_time = ["A"; "B"; "C"]
  ∧ Flight.flight_id <$> FlightSchedule.display_schedule (scheduled same_time)
    = ["A"; "C"; "B"].
Proof. split; [by repeat constructor|]. split; reflexivity. Qed.

(** ** Routes *)

(** C4: [find_all_routes] returns exactly the records of the simple paths of
    one to [max_stops] flights from [start] to [end_], each with its
    airports, its number of flights and the sums of the distances and of the
    prices; it returns the empty list when there is no such path. *)
Theorem find_all_routes_exact (g : AirportGraph.t) (start end_ : string) (max_stops : Z) :
  (∀ r, r ∈ AirportGraph.find_all_routes g start end_ max_stops ↔
        ∃ fs, qualifies g start end_ max_stops fs ∧ r = route_of start fs)
  ∧ ((∀ fs, ¬ qualifies g start end_ max_stops fs) →
     AirportGraph.find_all_routes g start end_ max_stops = []).
Proof.
  split; [intros r; apply RouteFacts.find_all_routes_spec|].
  intros Hnone. apply elem_of_nil_inv. intros r Hr.
  apply RouteFacts.find_all_routes_spec in Hr as (fs & Hq & _). by apply (Hnone fs).
Qed.

(** On the graph of scenario B no path from NYC to LAX has at most one
    flight, and one path has at most two. *)
Lemma find_all_routes_exact_witness :
  (∀ fs, ¬ qualifies two_legs "NYC" "LAX" 1 fs)
  ∧ AirportGraph.find_all_routes two_legs "NYC" "LAX" 1 = []
  ∧ ∃ fs, qualifies two_legs "NYC" "LAX" 2 fs
      ∧ route_of "NYC" fs = AirportGraph.mk_route ["NYC"; "CHI"; "LAX"] 2 2535 700.
Proof.
  destruct (find_all_routes_exact two_legs "NYC" "LAX" 1) as [Hiff Hempty].
  assert (∀ fs, ¬ qualifies two_legs "NYC" "LAX" 1 fs) as Hnone.
  { intros fs Hq.
    assert (route_of "NYC" fs ∈ AirportGraph.find_all_routes two_legs "NYC" "LAX" 1)
      as Hin by (apply Hiff; by exists fs).
    replace (AirportGraph.find_all_routes two_legs "NYC" "LAX" 1)
      with (@nil AirportGraph.route) in Hin by (vm_compute; reflexivity).
    by apply elem_of_nil in Hin. }
  split; [exact Hnone|]. split; [exact (Hempty Hnone)|].
  destruct (find_all_routes_exact two_legs "NYC" "LAX" 2) as [Hiff2 _].
  destruct (proj1 (Hiff2 (AirportGraph.mk_route ["NYC"; "CHI"; "LAX"] 2 2535 700)))
    as (fs & Hq & Hr).
  { replace (AirportGraph.find_all_routes two_legs "NYC" "LAX" 2)
      with [AirportGraph.mk_route ["NYC"; "CHI"; "LAX"] 2 2535 700]
      by (vm_compute; reflexivity).
    apply list_elem_of_here. }
  exists fs. split; [exact Hq|by symmetry].
Defined.

(** C7, as the code has it: on the graph with the two flights NYC to CHI and
    CHI to LAX, [find_all_routes] from NYC to LAX is empty for [max_stops] 0
    and for [max_stops] 1, and for [max_stops] 2 it is the one path
    NYC, CHI, LAX of two flights, distance 2535 and price 700. *)
Theorem two_legs_routes :
  AirportGraph.find_all_routes two_legs "NYC" "LAX" 0 = []
  ∧ AirportGraph.find_all_routes two_legs "NYC" "LAX" 1 = []
  ∧ AirportGraph.find_all_routes two_legs "NYC" "LAX" 2
    = [AirportGraph.mk_route ["NYC"; "CHI"; "LAX"] 2 2535 700].
Proof. repeat split; vm_compute; reflexivity. Qed.

(** C7, as stated, fails: with [max_stops] 1 the path NYC, CHI, LAX is not
    returned. *)
Lemma two_legs_one_stop_empty :
  ¬ ∃ r, r ∈ AirportGraph.find_all_routes two_legs "NYC" "LAX" 1
         ∧ AirportGraph.path r = ["NYC"; "CHI"; "LAX"].
Proof.
  intros (r & Hr & _). replace (AirportGraph.find_all_routes two_legs "NYC" "LAX" 1)
    with (@nil AirportGraph.route) in Hr by (vm_compute; reflexivity).
  by apply elem_of_nil in Hr.
Qed.



(** ** Booking ledger *)




(** C5, what the code does: in a reachable state, [cancel_booking] on a
    booking that is already cancelled changes nothing, but it does not
    return a failure: it ends in the [ValueError] that
    [passenger.bookings.remove(booking_id)] raises for the booking id that
    the first cancellation has removed. *)
Theorem cancel_twice_raises (st : t) (bid : string) (b : Booking.t) :
  reachable st →
  dict_get bid (bookings st) = Some b →
  Booking.status b = Booking.CANCELLED →
  cancel_booking st bid = Raised st ValueError.
Proof. intros Hinv%LedgerFacts.reachable_inv. by apply LedgerFacts.cancel_cancelled. Qed.

(** Passenger A books the flight, cancels, and cancels again. *)
Lemma cancel_twice_raises_witness :
  reachable (replay a_cancelled)
  ∧ Booking.status <$> dict_get "ba" (bookings (replay a_cancelled))
    = Some Booking.CANCELLED
  ∧ cancel_booking (replay a_cancelled) "ba" = Raised (replay a_cancelled) ValueError.
Proof.
  assert (reachable (replay a_cancelled)) as Hreach.
  { apply LedgerFacts.reachable_replay.
    repeat split; try (vm_compute; reflexivity); lia. }
  split; [exact Hreach|].
  destruct (dict_get "ba" (bookings (replay a_cancelled))) as [b|] eqn:Hget;
    [|vm_compute in Hget; discriminate].
  assert (Booking.status b = Booking.CANCELLED) as Hs.
  { vm_compute in Hget. by injection Hget as <-. }
  split; [simpl; by rewrite Hs|].
  exact (cancel_twice_raises _ "ba" b Hreach Hget Hs).
Defined.

(** C8, as the code has it. In every state, [cancel_booking] with a booking
    id that is not in [bookings] returns [False], and [book_flight] with a
    passenger id or a flight id that is not in the system returns [None];
    both leave the state as it is; and every [book_flight] either returns
    the id of the new booking or returns [None] with the state as it is.
    For [cancel_booking] the same holds only under an assumption that the
    code does not check: in a state that calls on a new system reach without
    [add_flight] being given a flight id that is in use or a negative
    capacity and without [uuid4] returning an id that is in use (this is
    [reachable]), a [cancel_booking] that does not return [True] leaves the
    state as it is. *)
Theorem unknown_ids_change_nothing (st : t) :
  (∀ bid, dict_get bid (bookings st) = None → cancel_booking st bid = Returned st false)
  ∧ (∀ pid fid bid now,
       passengers st !! pid = None ∨ flights st !! fid = None →
       book_flight st pid fid bid now = (st, None))
  ∧ (∀ pid fid bid now,
       (book_flight st pid fid bid now).2 = Some bid
       ∨ book_flight st pid fid bid now = (st, None))
  ∧ (reachable st →
     ∀ bid, (∃ st', cancel_booking st bid = Returned st' true)
            ∨ state_of (cancel_booking st bid) = st).
Proof.
  split; [|split; [|split]].
  - intros bid Hget. unfold cancel_booking. by rewrite Hget.
  - intros pid fid bid now [HP|Hf]; unfold book_flight.
    + by rewrite HP.
    + rewrite Hf. by destruct (passengers st !! pid).
  - intros pid fid bid now. unfold book_flight.
    destruct (passengers st !! pid); [|by right].
    destruct (flights st !! fid) as [f|]; [|by right].
    left. by destruct (Flight.is_available f).
  - intros Hreach bid. by apply LedgerFacts.cancel_booking_all_or_nothing.
Qed.

(** Scenario D, and a booking for a passenger and for a flight that were
    never added. *)
Lemma unknown_ids_change_nothing_witness :
  dict_get "zz" (bookings (replay a_then_b)) = None
  ∧ cancel_booking (replay a_then_b) "zz" = Returned (replay a_then_b) false
  ∧ passengers (replay a_then_b) !! "px" = None
  ∧ book_flight (replay a_then_b) "px" "FL1" "bx" 9 = (replay a_then_b, None)
  ∧ flights (replay a_then_b) !! "FL9" = None
  ∧ book_flight (replay a_then_b) "pa" "FL9" "bx" 9 = (replay a_then_b, None).
Proof.
  destruct (unknown_ids_change_nothing (replay a_then_b)) as (Hcancel & Hbook & _ & _).
  assert (dict_get "zz" (bookings (replay a_then_b)) = None) as Hb
    by (vm_compute; reflexivity).
  assert (passengers (replay a_then_b) !! "px" = None) as HP
    by (vm_compute; reflexivity).
  assert (flights (replay a_then_b) !! "FL9" = None) as Hf
    by (vm_compute; reflexivity).
  split; [exact Hb|]. split; [exact (Hcancel "zz" Hb)|].
  split; [exact HP|]. split; [exact (Hbook "px" "FL1" "bx" 9 (or_introl HP))|].
  split; [exact Hf|]. exact (Hbook "pa" "FL9" "bx" 9 (or_intror Hf)).
Defined.

(** C8, as stated for every system state, fails: after [add_flight] has been
    called a second time with the flight id of scenario A, the cancellation
    of A's confirmed booking neither returns [True] nor leaves the state as
    it is: it takes [booked_seats] of the new flight from 0 to -1 and then
    ends in the [ValueError] of [flight.passengers.remove], with the booking
    still confirmed. *)
Lemma cancel_raises_after_decrement :
  Booking.status <$> dict_get "ba" (bookings fl1_added_twice) = Some Booking.CONFIRMED
  ∧ Flight.booked_seats <$> flights fl1_added_twice !! "FL1" = Some 0
  ∧ ∃ st', cancel_booking fl1_added_twice "ba" = Raised st' ValueError
      ∧ st' ≠ fl1_added_twice
      ∧ Flight.booked_seats <$> flights st' !! "FL1" = Some (-1)
      ∧ Booking.status <$> dict_get "ba" (bookings st') = Some Booking.CONFIRMED.
Proof.
  split; [vm_compute; reflexivity|]. split; [vm_compute; reflexivity|].
  exists (state_of (cancel_booking fl1_added_twice "ba")).
  split; [vm_compute; reflexivity|]. split; [|split; vm_compute; reflexivity].
  intros Heq. apply (f_equal (λ s, Flight.booked_seats <$> flights s !! "FL1")) in Heq.
  vm_compute in Heq. discriminate.
Qed.

(** C9: when [book_flight] for a passenger and a flight of the system is
    followed at once by [cancel_booking] of the booking it made, and the
    waiting list of the flight is empty at the cancellation, the
    cancellation returns [True] and [booked_seats] of the flight is what it
    was before the booking. *)
Theorem book_then_cancel (st : t) (pid fid bid : string) (now : Z)
    (P : Passenger.t) (f : Flight.t) :
  passengers st !! pid = Some P →
  flights st !! fid = Some f →
  (∀ f1, flights (book_flight st pid fid bid now).1 !! fid = Some f1 →
         Flight.waiting_list f1 = []) →
  (book_flight st pid fid bid now).2 = Some bid
  ∧ ∃ st2 f2,
      cancel_booking (book_flight st pid fid bid now).1 bid = Returned st2 true
      ∧ flights st2 !! fid = Some f2
      ∧ Flight.booked_seats f2 = Flight.booked_seats f.
Proof.
  intros HP Hf. unfold book_flight. rewrite HP, Hf.
  destruct (Flight.is_available f); simpl; intros Hwl.
  - split; [done|].
    specialize (Hwl _ (lookup_insert_eq _ _ _)). simpl in Hwl.
    destruct (ContainerFacts.list_remove_is_Some pid (Flight.passengers f ++ [pid]))
      as [ps Hps].
    { rewrite ContainerFacts.occurrences_app. simpl. rewrite decide_True by done. lia. }
    destruct (ContainerFacts.list_remove_is_Some bid (Passenger.bookings P ++ [bid]))
      as [bks Hbks].
    { rewrite ContainerFacts.occurrences_app. simpl. rewrite decide_True by done. lia. }
    unfold cancel_booking, release. simpl.
    rewrite ContainerFacts.dict_get_set. simpl.
    rewrite !lookup_insert_eq. simpl. rewrite Hps, Hwl. simpl. rewrite Hbks.
    eexists _, _. split; [done|]. simpl. split; [apply lookup_insert_eq|]. simpl. lia.
  - specialize (Hwl _ (lookup_insert_eq _ _ _)). simpl in Hwl.
    by apply app_nil in Hwl as [_ ?].
Qed.

(** A passenger books the free seat of the flight and cancels. *)
Lemma book_then_cancel_witness :
  ∃ P f,
    passengers (replay one_seat) !! "pa" = Some P
    ∧ flights (replay one_seat) !! "FL1" = Some f
    ∧ Flight.booked_seats f = 0
    ∧ ∃ st2 f2,
        cancel_booking (book_flight (replay one_seat) "pa" "FL1" "ba" 1).1 "ba"
        = Returned st2 true
        ∧ flights st2 !! "FL1" = Some f2
        ∧ Flight.booked_seats f2 = 0.
Proof.
  destruct (passengers (replay one_seat) !! "pa") as [P|] eqn:HP;
    [|vm_compute in HP; discriminate].
  destruct (flights (replay one_seat) !! "FL1") as [f|] eqn:Hf;
    [|vm_compute in Hf; discriminate].
  assert (Flight.booked_seats f = 0) as Hseats.
  { vm_compute in Hf. by injection Hf as <-. }
  exists P, f. split; [reflexivity|]. split; [reflexivity|]. split; [exact Hseats|].
  rewrite <- Hseats.
  refine (proj2 (book_then_cancel (replay one_seat) "pa" "FL1" "ba" 1 P f HP Hf _)).
  intros f1 Hf1. vm_compute in Hf1. by injection Hf1 as <-.
Defined.

(** C6, as the code has it: [add_flight] with a flight id that is already in
    [flights] does not fail. It stores a new flight, with no seat booked and
    empty lists, under the id in place of the old one, links the new flight
    into the schedule, which grows by one, and appends it to the flights of
    its origin in the graph; passengers and bookings stay as they are. *)
Theorem add_flight_existing_id (st : t)
    (fid origin destination departure_time arrival_time : string)
    (capacity price distance : Z) :
  is_Some (flights st !! fid) →
  let flight := Flight.init fid origin destination departure_time arrival_time
                  capacity price distance in
  let st' := add_flight st fid origin destination departure_time arrival_time
               capacity price distance in
  flights st' !! fid = Some flight
  ∧ (∀ fid', fid' ≠ fid → flights st' !! fid' = flights st !! fid')
  ∧ FlightSchedule.size (flight_schedule st') = FlightSchedule.size (flight_schedule st) + 1
  ∧ FlightSchedule.display_schedule (flight_schedule st')
    ≡ₚ flight :: FlightSchedule.display_schedule (flight_schedule st)
  ∧ AirportGraph.flights_from (airport_graph st') origin
    = AirportGraph.flights_from (airport_graph st) origin ++ [flight]
  ∧ passengers st' = passengers st
  ∧ bookings st' = bookings st.
Proof.
  intros _ flight st'. subst st'. unfold add_flight. simpl. fold flight.
  split; [apply lookup_insert_eq|].
  split; [intros fid' Hne; by apply lookup_insert_ne|].
  split; [apply ScheduleFacts.add_flight_size|].
  split; [apply ScheduleFacts.add_flight_perm|].
  split; [|done].
  unfold AirportGraph.flights_from at 1. simpl. by rewrite lookup_insert_eq.
Qed.

(** The flight of scenario A is added a second time, with the same data. *)
Lemma add_flight_existing_id_witness :
  is_Some (flights (replay a_then_b) !! "FL1")
  ∧ Flight.booked_seats <$> flights (replay a_then_b) !! "FL1" = Some 1
  ∧ Flight.booked_seats
      <$> flights (add_flight (replay a_then_b) "FL1" "NYC" "LAX" "08:00" "11:00"
                     1 500 2445) !! "FL1"
    = Some 0.
Proof.
  assert (is_Some (flights (replay a_then_b) !! "FL1")) as Hsome.
  { vm_compute. by eexists. }
  split; [exact Hsome|]. split; [vm_compute; reflexivity|].
  destruct (add_flight_existing_id (replay a_then_b) "FL1" "NYC" "LAX" "08:00" "11:00"
              1 500 2445 Hsome) as [-> _].
  reflexivity.
Defined.

(** C6, as stated, fails: adding the flight of scenario A a second time
    returns normally and changes the flight map, the schedule and the
    graph. *)
Lemma add_flight_existing_id_changes_state :
  is_Some (flights (replay a_then_b) !! "FL1")
  ∧ flights fl1_added_twice ≠ flights (replay a_then_b)
  ∧ flight_schedule fl1_added_twice ≠ flight_schedule (replay a_then_b)
  ∧ airport_graph fl1_added_twice ≠ airport_graph (replay a_then_b).
Proof.
  split; [vm_compute; by eexists|]. split; [|split].
  - intros Heq. apply (f_equal (λ m, Flight.booked_seats <$> m !! "FL1")) in Heq.
    vm_compute in Heq. discriminate.
  - intros Heq. apply (f_equal FlightSchedule.size) in Heq.
    vm_compute in Heq. discriminate.
  - intros Heq.
    apply (f_equal (λ g, length (AirportGraph.flights_from g "NYC"))) in Heq.
    vm_compute in Heq. discriminate.
Qed.

(** C2, as the code has it. The states are those that calls on a new system
    reach without [add_flight] being given a flight id that is in use or a
    negative capacity and without [uuid4] returning an id that is in use
    (this is [reachable]); the code checks none of this.
    - In such a state, let a confirmed booking be cancelled on a flight
      whose waiting list is not empty and whose waitlisted passengers have
      one waitlisted booking each for the flight. Then the call returns
      [True]; the one waitlisted booking of the head of the waiting list
      becomes confirmed, the cancelled booking becomes cancelled, no other
      booking changes; the waiting list loses its head and keeps the order
      of the rest, the head joins the confirmed passengers, and
      [booked_seats] is what it was.
    - First in, first out, by the place on the waiting list: in every state
      [book_flight] on a flight without a free seat puts the passenger at
      the end of the waiting list, behind everybody who waits; and in a
      state as above, while [p1] stands on the waiting list in front of
      every entry of another passenger [p2], no call promotes [p2], and
      every call leaves [p1] in front of [p2] unless it takes an entry of
      [p1] off the list (by promoting [p1] or by cancelling a waitlisted
      booking of [p1]).
    - In scenario A (capacity 1, A then B book, A cancels) A ends cancelled,
      B confirmed, with one seat booked and nobody waiting; and when B and
      then C wait, the first cancellation confirms B and leaves C waiting,
      the next one confirms C. *)
Theorem cancel_promotes_head :
  (∀ st bid b f next wl,
     reachable st →
     dict_get bid (bookings st) = Some b →
     Booking.status b = Booking.CONFIRMED →
     flights st !! Booking.flight_id b = Some f →
     Flight.waiting_list f = next :: wl →
     (∀ p, p ∈ Flight.waiting_list f →
           count_bookings p (Booking.flight_id b) Booking.WAITLISTED (bookings st) = 1%nat) →
     ∃ st' k b1 f',
       cancel_booking st bid = Returned st' true
       ∧ dict_get k (bookings st) = Some b1
       ∧ Booking.passenger_id b1 = next
       ∧ Booking.flight_id b1 = Booking.flight_id b
       ∧ Booking.status b1 = Booking.WAITLISTED
       ∧ (∀ k2 b2, dict_get k2 (bookings st) = Some b2 →
            Booking.passenger_id b2 = next →
            Booking.flight_id b2 = Booking.flight_id b →
            Booking.status b2 = Booking.WAITLISTED → k2 = k)
       ∧ dict_get k (bookings st') = Some (Booking.set_status Booking.CONFIRMED b1)
       ∧ dict_get bid (bookings st') = Some (Booking.set_status Booking.CANCELLED b)
       ∧ (∀ k', k' ≠ k → k' ≠ bid → dict_get k' (bookings st') = dict_get k' (bookings st))
       ∧ flights st' !! Booking.flight_id b = Some f'
       ∧ Flight.waiting_list f' = wl
       ∧ Flight.booked_seats f' = Flight.booked_seats f
       ∧ next ∈ Flight.passengers f'
       ∧ Flight.capacity f' = Flight.capacity f)
  ∧ (∀ st pid fid bid now P f,
       passengers st !! pid = Some P →
       flights st !! fid = Some f →
       Flight.capacity f ≤ Flight.booked_seats f →
       ∃ f', flights (book_flight st pid fid bid now).1 !! fid = Some f'
         ∧ Flight.waiting_list f' = Flight.waiting_list f ++ [pid]
         ∧ dict_get bid (bookings (book_flight st pid fid bid now).1)
           = Some (Booking.mk bid pid fid now Booking.WAITLISTED))
  ∧ (∀ st c fid f p1 p2,
       reachable st → admissible st c →
       flights st !! fid = Some f →
       p1 ≠ p2 →
       ahead p1 p2 (Flight.waiting_list f) →
       ∃ f', flights (run st c) !! fid = Some f'
         ∧ ¬ promoted st (run st c) fid p2
         ∧ (ahead p1 p2 (Flight.waiting_list f')
            ∨ (occurrences p1 (Flight.waiting_list f')
               < occurrences p1 (Flight.waiting_list f))%nat))
  ∧ (Booking.status <$> dict_get "ba" (bookings (replay a_then_b))
       = Some Booking.CONFIRMED
     ∧ Booking.status <$> dict_get "bb" (bookings (replay a_then_b))
       = Some Booking.WAITLISTED
     ∧ Flight.waiting_list <$> flights (replay a_then_b) !! "FL1" = Some ["pb"]
     ∧ ∃ st', cancel_booking (replay a_then_b) "ba" = Returned st' true
         ∧ Booking.status <$> dict_get "ba" (bookings st') = Some Booking.CANCELLED
         ∧ Booking.status <$> dict_get "bb" (bookings st') = Some Booking.CONFIRMED
         ∧ Flight.booked_seats <$> flights st' !! "FL1" = Some 1
         ∧ Flight.waiting_list <$> flights st' !! "FL1" = Some [])
  ∧ (Flight.waiting_list <$> flights (replay a_then_b_then_c) !! "FL1" = Some ["pb"; "pc"]
     ∧ ∃ st' st'',
         cancel_booking (replay a_then_b_then_c) "ba" = Returned st' true
         ∧ Booking.status <$> dict_get "bb" (bookings st') = Some Booking.CONFIRMED
         ∧ Booking.status <$> dict_get "bc" (bookings st') = Some Booking.WAITLISTED
         ∧ Flight.waiting_list <$> flights st' !! "FL1" = Some ["pc"]
         ∧ cancel_booking st' "bb" = Returned st'' true
         ∧ Booking.status <$> dict_get "bc" (bookings st'') = Some Booking.CONFIRMED
         ∧ Flight.waiting_list <$> flights st'' !! "FL1" = Some []).
Proof.
  split; [|split; [|split; [|split]]].
  - intros st bid b f next wl Hinv%LedgerFacts.reachable_inv Hget Hs Hf Hwl Hone.
    destruct (LedgerFacts.ledger_refs st bid b Hinv Hget) as (f0 & P & Hf0 & HP & _).
    replace f0 with f in * by congruence. clear Hf0.
    destruct (LedgerFacts.cancel_confirmed st bid b f P Hinv Hget Hs Hf HP)
      as (ps & bks & Hps & Hbks & Hrun).
    rewrite Hwl in Hrun. destruct Hrun as (bs1 & Hcw & Hrun).
    pose proof (inv_keys st Hinv) as Hk.
    destruct (LedgerFacts.confirm_waitlisted_restatus _ _ _ _ Hcw)
      as (k & b1 & Hre & Hp1 & Hf1 & Hs1).
    pose proof (LedgerFacts.restatus_elem_old _ _ _ _ _ Hre) as Hin1.
    pose proof (ContainerFacts.elem_dict_get _ _ _ Hk Hin1) as Hget1.
    assert (bid ≠ k) as Hne by (intros ->; congruence).
    assert (NoDup bs1.*1) as Hk1 by (by rewrite (LedgerFacts.restatus_keys _ _ _ _ _ Hre)).
    eexists _, k, b1, _. split; [exact Hrun|]. simpl.
    repeat (split; [done|]).
    split; [|split; [|split; [|split; [|split]]]].
    + intros k2 b2 Hget2 Hp2 Hf2 Hs2. apply dec_stable. intros Hk2.
      specialize (Hone next). rewrite Hwl in Hone.
      specialize (Hone (list_elem_of_here _ _)).
      apply ContainerFacts.dict_get_elem in Hget2.
      destruct Hre as (l1 & l2 & Hbs & _). rewrite Hbs in Hone, Hget2.
      rewrite LedgerFacts.count_bookings_app in Hone. simpl in Hone.
      assert (holds next (Booking.flight_id b) Booking.WAITLISTED b1 = true) as Hb1.
      { unfold holds. rewrite Hp1, Hf1, Hs1. by rewrite !bool_decide_eq_true_2. }
      assert (holds next (Booking.flight_id b) Booking.WAITLISTED b2 = true) as Hb2.
      { unfold holds. rewrite Hp2, Hf2, Hs2. by rewrite !bool_decide_eq_true_2. }
      rewrite Hb1 in Hone.
      apply elem_of_app in Hget2 as [Hin|[[= -> ->]|Hin]%elem_of_cons]; [|done|].
      * pose proof (LedgerFacts.count_bookings_pos _ _ _ _ _ _ Hin Hb2). lia.
      * pose proof (LedgerFacts.count_bookings_pos _ _ _ _ _ _ Hin Hb2). lia.
    + rewrite ContainerFacts.dict_get_alter, decide_False by done.
      apply ContainerFacts.elem_dict_get; [done|].
      by eapply LedgerFacts.restatus_elem_new.
    + rewrite ContainerFacts.dict_get_alter, decide_True by done.
      by rewrite (LedgerFacts.restatus_get _ _ _ _ _ bid Hre), Hget.
    + intros k' Hk' Hbid. rewrite ContainerFacts.dict_get_alter, decide_False by done.
      by apply (LedgerFacts.restatus_get _ _ _ _ _ k' Hre).
    + apply lookup_insert_eq.
    + simpl. split; [done|]. split; [done|]. split; [|done].
      apply elem_of_app. right. apply list_elem_of_here.
  - intros st pid fid bid now P f HP Hf Hfull. unfold book_flight. rewrite HP, Hf.
    assert (Flight.is_available f = false) as -> by (apply Z.ltb_ge; lia). simpl.
    eexists. split; [apply lookup_insert_eq|]. split; [done|].
    apply ContainerFacts.dict_get_set.
  - intros st c fid f p1 p2. apply WaitingOrderFacts.run_keeps_order.
  - split; [vm_compute; reflexivity|]. split; [vm_compute; reflexivity|].
    split; [vm_compute; reflexivity|].
    exists (state_of (cancel_booking (replay a_then_b) "ba")).
    repeat (match goal with |- _ ∧ _ => split end); vm_compute; reflexivity.
  - split; [vm_compute; reflexivity|].
    exists (state_of (cancel_booking (replay a_then_b_then_c) "ba")),
      (state_of (cancel_booking
                   (state_of (cancel_booking (replay a_then_b_then_c) "ba")) "bb")).
    repeat (match goal with |- _ ∧ _ => split end); vm_compute; reflexivity.
Qed.

(** Scenario A: A holds the one seat, B waits, A cancels. And the order:
    C, who books when B waits, is put behind B; and with B in front of C the
    cancellation by A does not promote C. *)
Lemma cancel_promotes_head_witness :
  reachable (replay a_then_b)
  ∧ dict_get "ba" (bookings (replay a_then_b))
    = Some (Booking.mk "ba" "pa" "FL1" 1 Booking.CONFIRMED)
  ∧ Flight.waiting_list <$> flights (replay a_then_b) !! "FL1" = Some ["pb"]
  ∧ (∀ p, p ∈ ["pb"] →
          count_bookings p "FL1" Booking.WAITLISTED (bookings (replay a_then_b)) = 1%nat)
  ∧ (∃ st' k f',
       cancel_booking (replay a_then_b) "ba" = Returned st' true
       ∧ Booking.status <$> dict_get k (bookings st') = Some Booking.CONFIRMED
       ∧ flights st' !! "FL1" = Some f'
       ∧ Flight.waiting_list f' = []
       ∧ Flight.booked_seats f' = 1)
  ∧ (∃ f', flights (book_flight (replay a_then_b) "pc" "FL1" "bc" 3).1 !! "FL1" = Some f'
       ∧ Flight.waiting_list f' = ["pb"; "pc"])
  ∧ reachable (replay a_then_b_then_c)
  ∧ admissible (replay a_then_b_then_c) (CancelBooking "ba")
  ∧ ahead "pb" "pc" ["pb"; "pc"]
  ∧ ¬ promoted (replay a_then_b_then_c)
        (run (replay a_then_b_then_c) (CancelBooking "ba")) "FL1" "pc".
Proof.
  assert (reachable (replay a_then_b)) as Hreach.
  { apply LedgerFacts.reachable_replay.
    repeat split; try (vm_compute; reflexivity); lia. }
  assert (dict_get "ba" (bookings (replay a_then_b))
          = Some (Booking.mk "ba" "pa" "FL1" 1 Booking.CONFIRMED)) as Hget
    by (vm_compute; reflexivity).
  assert (flights (replay a_then_b) !! "FL1"
          = Some (Flight.mk "FL1" "NYC" "LAX" "08:00" "11:00" 1 500 2445 1 ["pa"] ["pb"]))
    as Hf by (vm_compute; reflexivity).
  assert (∀ p, p ∈ ["pb"] →
            count_bookings p "FL1" Booking.WAITLISTED (bookings (replay a_then_b)) = 1%nat)
    as Hone.
  { intros p ->%list_elem_of_singleton. vm_compute. reflexivity. }
  assert (passengers (replay a_then_b) !! "pc"
          = Some (Passenger.mk "pc" "C" "c@email.com" "3" [])) as HP
    by (vm_compute; reflexivity).
  assert (reachable (replay a_then_b_then_c)) as Hreach3.
  { apply LedgerFacts.reachable_replay.
    repeat split; try (vm_compute; reflexivity); lia. }
  assert (flights (replay a_then_b_then_c) !! "FL1"
          = Some (Flight.mk "FL1" "NYC" "LAX" "08:00" "11:00" 1 500 2445 1
                    ["pa"] ["pb"; "pc"])) as Hf3 by (vm_compute; reflexivity).
  assert (ahead "pb" "pc" ["pb"; "pc"]) as Hahead.
  { exists [], ["pc"]. split; [done|apply not_elem_of_nil]. }
  destruct cancel_promotes_head as (Hcancel & Hbook & Hfifo & _).
  split; [exact Hreach|]. split; [exact Hget|].
  split; [by rewrite Hf|]. split; [exact Hone|]. split; [|split].
  - destruct (Hcancel (replay a_then_b) "ba" _ _ "pb" []
                Hreach Hget eq_refl Hf eq_refl Hone)
      as (st' & k & b1 & f' & Hrun & _ & _ & _ & _ & _ & Hk & _ & _ & Hf' & Hwl & Hseats & _).
    exists st', k, f'. split; [exact Hrun|]. split; [by rewrite Hk|].
    split; [exact Hf'|]. split; [exact Hwl|exact Hseats].
  - destruct (Hbook (replay a_then_b) "pc" "FL1" "bc" 3 _ _ HP Hf) as (f' & Hf' & Hwl & _);
      [simpl; lia|].
    exists f'. split; [exact Hf'|exact Hwl].
  - split; [exact Hreach3|]. split; [exact I|]. split; [exact Hahead|].
    destruct (Hfifo (replay a_then_b_then_c) (CancelBooking "ba") "FL1" _ "pb" "pc"
                Hreach3 I Hf3) as (f' & _ & Hnot & _); [done|exact Hahead|exact Hnot].
Defined.

(** C2, as stated, fails in two ways.
    - Its conditions do not keep the cancellation from failing: A books the
      seat of FL1, [add_flight] is called again with the id FL1, B books the
      seat of the new flight and C is put on its waiting list, with one
      waitlisted booking. The cancellation of A's confirmed booking takes
      [booked_seats] from 1 to 0 and ends in the [ValueError] of
      [flight.passengers.remove]: C, the head of the waiting list, is not
      promoted and stays on the list.
    - The head of the waiting list need not be the passenger who has waited
      longest: with unique ids and capacity 1, B is waitlisted (at time 2),
      then C (at time 3), then B a second time, and B cancels the second
      booking. [remove] takes the first entry of B off the list, which is now
      C, B, each with one waitlisted booking; the cancellation by A promotes
      C and leaves the older booking of B waiting. *)
Lemma cancel_does_not_promote_longest_waiting :
  (dict_get "ba" (bookings (replay fl1_refilled))
     = Some (Booking.mk "ba" "pa" "FL1" 1 Booking.CONFIRMED)
   ∧ flights (replay fl1_refilled) !! "FL1"
     = Some (Flight.mk "FL1" "NYC" "LAX" "08:00" "11:00" 1 500 2445 1 ["pb"] ["pc"])
   ∧ count_bookings "pc" "FL1" Booking.WAITLISTED (bookings (replay fl1_refilled)) = 1%nat
   ∧ ∃ st', cancel_booking (replay fl1_refilled) "ba" = Raised st' ValueError
       ∧ flights st' !! "FL1"
         = Some (Flight.mk "FL1" "NYC" "LAX" "08:00" "11:00" 1 500 2445 0 ["pb"] ["pc"])
       ∧ Booking.status <$> dict_get "bc" (bookings st') = Some Booking.WAITLISTED)
  ∧ (admissible_from init b_waits_twice
     ∧ dict_get "bb" (bookings (replay b_waits_twice))
       = Some (Booking.mk "bb" "pb" "FL1" 2 Booking.WAITLISTED)
     ∧ dict_get "bc" (bookings (replay b_waits_twice))
       = Some (Booking.mk "bc" "pc" "FL1" 3 Booking.WAITLISTED)
     ∧ Flight.waiting_list <$> flights (replay b_waits_twice) !! "FL1" = Some ["pc"; "pb"]
     ∧ count_bookings "pb" "FL1" Booking.WAITLISTED (bookings (replay b_waits_twice)) = 1%nat
     ∧ count_bookings "pc" "FL1" Booking.WAITLISTED (bookings (replay b_waits_twice)) = 1%nat
     ∧ ∃ st', cancel_booking (replay b_waits_twice) "ba" = Returned st' true
         ∧ Booking.status <$> dict_get "bc" (bookings st') = Some Booking.CONFIRMED
         ∧ Booking.status <$> dict_get "bb" (bookings st') = Some Booking.WAITLISTED
         ∧ Flight.waiting_list <$> flights st' !! "FL1" = Some ["pb"]).
Proof.
  split.
  - split; [vm_compute; reflexivity|]. split; [vm_compute; reflexivity|].
    split; [vm_compute; reflexivity|].
    exists (state_of (cancel_booking (replay fl1_refilled) "ba")).
    repeat (match goal with |- _ ∧ _ => split end); vm_compute; reflexivity.
  - split; [repeat split; try (vm_compute; reflexivity); lia|].
    split; [vm_compute; reflexivity|]. split; [vm_compute; reflexivity|].
    split; [vm_compute; reflexivity|]. split; [vm_compute; reflexivity|].
    split; [vm_compute; reflexivity|].
    exists (state_of (cancel_booking (replay b_waits_twice) "ba")).
    repeat (match goal with |- _ ∧ _ => split end); vm_compute; reflexivity.
Qed.

End Claims.

(** * Further properties *)

(** ** FlightSchedule: removal *)

Module ScheduleRemoval.
Import FlightSchedule ScheduleSpec ScheduleOps.

(** The walk unlinks the first successor with the id. *)
Lemma unlink_after_found flight_id current l1 f l2 :
  unlisted flight_id l1 → Flight.flight_id f = flight_id →
  unlink_after flight_id current (l1 ++ f :: l2) = Some (current :: l1 ++ l2).
Proof.
  intros Hl1 Hf. revert current.
  induction Hl1 as [|n l1 Hn _ IH]; intros current; simpl.
  - by rewrite decide_True.
  - rewrite decide_False by done. by rewrite IH.
Qed.

Lemma unlink_after_missing flight_id current next :
  unlisted flight_id next → unlink_after flight_id current next = None.
Proof.
  intros Hl. revert current. induction Hl as [|n l Hn _ IH]; intros current; simpl; [done|].
  rewrite decide_False by done. by rewrite IH.
Qed.

(** A list either has no flight with the id, or splits at the first one. *)
Lemma first_listed flight_id (l : list Flight.t) :
  unlisted flight_id l
  ∨ ∃ l1 f l2, l = l1 ++ f :: l2 ∧ Flight.flight_id f = flight_id ∧ unlisted flight_id l1.
Proof.
  induction l as [|n l IH]; [left; constructor|].
  destruct (decide (Flight.flight_id n = flight_id)) as [Heq|Hne].
  - right. exists [], n, l. repeat split; [done|constructor].
  - destruct IH as [Hl|(l1 & f & l2 & -> & Hf & Hl1)].
    + left. by constructor.
    + right. exists (n :: l1), f, l2. repeat split; [done|by constructor].
Qed.

Lemma remove_flight_found s flight_id l1 f l2 :
  head s = l1 ++ f :: l2 → Flight.flight_id f = flight_id → unlisted flight_id l1 →
  remove_flight s flight_id = (mk (l1 ++ l2) (size s - 1), true).
Proof.
  intros Hs Hf Hl1. unfold remove_flight. rewrite Hs.
  destruct Hl1 as [|h l1 Hh Hl1]; simpl.
  - by rewrite decide_True.
  - rewrite decide_False by done. by rewrite unlink_after_found.
Qed.

Lemma remove_flight_missing s flight_id :
  unlisted flight_id (head s) → remove_flight s flight_id = (s, false).
Proof.
  intros Hl. unfold remove_flight. destruct Hl as [|h l Hh Hl]; [done|].
  rewrite decide_False by done. by rewrite unlink_after_missing.
Qed.

Lemma ascending_remove l1 f l2 : ascending (l1 ++ f :: l2) → ascending (l1 ++ l2).
Proof.
  unfold ascending. rewrite !StronglySorted_app. intros (Hcross & H1 & H2).
  apply StronglySorted_cons in H2 as [_ H2]. split; [|done].
  intros x1 x2 Hx1 Hx2. apply Hcross; [done|]. by apply list_elem_of_further.
Qed.

Lemma remove_flight_ascending s flight_id :
  ascending (display_schedule s) →
  ascending (display_schedule (remove_flight s flight_id).1).
Proof.
  unfold display_schedule. intros Hs.
  destruct (first_listed flight_id (head s)) as [Hl|(l1 & f & l2 & Hhead & Hf & Hl1)].
  - by rewrite remove_flight_missing.
  - rewrite (remove_flight_found s flight_id l1 f l2) by done. simpl.
    rewrite Hhead in Hs. by eapply ascending_remove.
Qed.

Lemma remove_flight_counted s flight_id :
  size s = Z.of_nat (length (head s)) →
  size (remove_flight s flight_id).1
  = Z.of_nat (length (head (remove_flight s flight_id).1)).
Proof.
  intros Hs.
  destruct (first_listed flight_id (head s)) as [Hl|(l1 & f & l2 & Hhead & Hf & Hl1)].
  - by rewrite remove_flight_missing.
  - rewrite (remove_flight_found s flight_id l1 f l2) by done. simpl.
    rewrite Hs, Hhead, !length_app. simpl. lia.
Qed.

Lemma add_flight_counted s flight :
  size s = Z.of_nat (length (head s)) →
  size (add_flight s flight) = Z.of_nat (length (head (add_flight s flight))).
Proof.
  intros Hs. rewrite ScheduleFacts.add_flight_size.
  pose proof (ScheduleFacts.add_flight_perm s flight) as Hperm.
  unfold display_schedule in Hperm. apply Permutation_length in Hperm.
  rewrite Hperm, Hs. simpl. lia.
Qed.

End ScheduleRemoval.

Section ScheduleProperties.
Import FlightSchedule ScheduleSpec ScheduleOps MoreScenarios.
Local Open Scope string_scope.
Local Open Scope list_scope.
Local Open Scope Z_scope.

(** X1: [remove_flight] unlinks the first listed flight with the id, and only
    that one, counts the size down by one and returns [True]; when no listed
    flight has the id it returns [False] and leaves the schedule as it is. *)
Theorem remove_flight_first (s : t) (flight_id : string) :
  (unlisted flight_id (display_schedule s) ∧ remove_flight s flight_id = (s, false))
  ∨ (∃ l1 f l2,
       display_schedule s = l1 ++ f :: l2
       ∧ Flight.flight_id f = flight_id
       ∧ unlisted flight_id l1
       ∧ remove_flight s flight_id = (mk (l1 ++ l2) (size s - 1), true)).
Proof.
  destruct (ScheduleRemoval.first_listed flight_id (head s))
    as [Hl|(l1 & f & l2 & Hhead & Hf & Hl1)].
  - left. split; [done|]. by apply ScheduleRemoval.remove_flight_missing.
  - right. exists l1, f, l2. repeat split; try done.
    by apply (ScheduleRemoval.remove_flight_found s flight_id l1 f l2).
Qed.

(** X2: whatever sequence of [add_flight] and [remove_flight] calls is made
    on a new schedule, the listing stays in ascending order of departure time
    and [size] is the number of listed flights. *)
Theorem schedule_calls_keep_order (ops : list op) :
  ascending (display_schedule (after ops))
  ∧ size (after ops) = Z.of_nat (length (display_schedule (after ops))).
Proof.
  unfold after. induction ops as [|o ops IH] using rev_ind.
  - split; [constructor|done].
  - rewrite foldl_app. simpl. destruct IH as [Hasc Hsize]. destruct o; simpl.
    + split; [by apply ScheduleFacts.add_flight_ascending|].
      by apply ScheduleRemoval.add_flight_counted.
    + split; [by apply ScheduleRemoval.remove_flight_ascending|].
      by apply ScheduleRemoval.remove_flight_counted.
Qed.

(** X3: adding a flight whose id is not listed yet and removing that id again
    gives back the schedule as it was. *)
Theorem add_then_remove (s : t) (flight : Flight.t) :
  unlisted (Flight.flight_id flight) (display_schedule s) →
  remove_flight (add_flight s flight) (Flight.flight_id flight) = (s, true).
Proof.
  unfold display_schedule. intros Hl.
  assert (∃ l1 l2, head s = l1 ++ l2 ∧ head (add_flight s flight) = l1 ++ flight :: l2)
    as (l1 & l2 & Hhead & Hadded).
  { unfold add_flight. destruct (head s) as [|h rest]; [by exists [], []|].
    destruct (String.ltb _ _); [by exists [], (h :: rest)|].
    destruct (ScheduleFacts.link_after_split flight h rest)
      as (l1 & l2 & -> & -> & _).
    by exists (h :: l1), l2. }
  rewrite Hhead in Hl. apply Forall_app in Hl as [Hl1 _].
  rewrite (ScheduleRemoval.remove_flight_found _ _ l1 flight l2 Hadded eq_refl Hl1).
  rewrite ScheduleFacts.add_flight_size, <- Hhead.
  destruct s as [h n]. simpl. do 2 f_equal. lia.
Qed.

(** A flight between the listed ones is added and removed again. *)
Lemma add_then_remove_witness :
  unlisted "FL900" (display_schedule morning)
  ∧ Flight.flight_id <$> display_schedule (add_flight morning noon_flight)
    = ["FL001"; "FL003"; "FL900"; "FL002"]
  ∧ remove_flight (add_flight morning noon_flight) "FL900" = (morning, true).
Proof.
  assert (unlisted "FL900" (display_schedule morning)) as Hl.
  { vm_compute. repeat constructor; discriminate. }
  split; [exact Hl|]. split; [vm_compute; reflexivity|].
  exact (add_then_remove morning noon_flight Hl).
Defined.

End ScheduleProperties.

(** ** AirportGraph: what the calls build *)

Module GraphFacts.
Import AirportGraph GraphOps.

Lemma flights_from_add_airport g airport a :
  flights_from (add_airport g airport) a = flights_from g a.
Proof. done. Qed.

Lemma flights_from_add_flight_route g flight a :
  flights_from (add_flight_route g flight) a
  = if decide (Flight.origin flight = a) then flights_from g a ++ [flight]
    else flights_from g a.
Proof.
  unfold flights_from at 1. simpl. destruct (decide (Flight.origin flight = a)) as [<-|Hne].
  - by rewrite lookup_insert_eq.
  - by rewrite lookup_insert_ne.
Qed.

Lemma built_snoc ops o : built (ops ++ [o]) = apply (built ops) o.
Proof. unfold built. by rewrite foldl_app. Qed.

Lemma routes_snoc ops o :
  routes (ops ++ [o])
  = routes ops ++ match o with Route flight => [flight] | Airport _ => [] end.
Proof. unfold routes. rewrite omap_app. by destruct o. Qed.

Lemma named_snoc ops o :
  named (ops ++ [o])
  = named ops ++ match o with Airport airport => [airport] | Route _ => [] end.
Proof. unfold named. rewrite omap_app. by destruct o. Qed.

(** The adjacency lists sort the added flights by origin and keep the order
    in which they were added. *)
Lemma built_flights_from ops a :
  flights_from (built ops) a = filter (λ f, Flight.origin f = a) (routes ops).
Proof.
  induction ops as [|o ops IH] using rev_ind; [done|].
  rewrite built_snoc, routes_snoc, filter_app. destruct o as [airport|flight]; simpl.
  - rewrite flights_from_add_airport, IH. by rewrite filter_nil, app_nil_r.
  - rewrite flights_from_add_flight_route, IH.
    destruct (decide (Flight.origin flight = a)) as [Heq|Hne].
    + by rewrite filter_cons_True.
    + by rewrite filter_cons_False, filter_nil, app_nil_r.
Qed.

Lemma built_airports ops x :
  x ∈ airports (built ops) ↔
  x ∈ named ops
  ∨ ∃ f, f ∈ routes ops ∧ (Flight.origin f = x ∨ Flight.destination f = x).
Proof.
  induction ops as [|o ops IH] using rev_ind.
  - split; [by intros ?%not_elem_of_empty|].
    intros [?%elem_of_nil|(f & ?%elem_of_nil & _)]; done.
  - rewrite built_snoc, routes_snoc, named_snoc. destruct o as [airport|flight]; simpl.
    + rewrite elem_of_union, elem_of_singleton, IH, app_nil_r, elem_of_app,
        list_elem_of_singleton. tauto.
    + rewrite !elem_of_union, !elem_of_singleton, IH, app_nil_r. split.
      * intros [->|[->|[?|(f & Hf & Hx)]]].
        -- right. exists flight. split; [|by right].
           apply elem_of_app. right. apply list_elem_of_here.
        -- right. exists flight. split; [|by left].
           apply elem_of_app. right. apply list_elem_of_here.
        -- by left.
        -- right. exists f. split; [|done]. apply elem_of_app. by left.
      * intros [?|(f & [Hf| ->%list_elem_of_singleton]%elem_of_app & Hx)].
        -- by right; right; left.
        -- right; right; right. by exists f.
        -- destruct Hx as [<-|<-]; [right; by left|by left].
Qed.

Lemma built_closed ops : closed (built ops).
Proof.
  intros a f Hf. rewrite built_flights_from in Hf.
  apply list_elem_of_filter in Hf as [Ha Hf]. split; [done|].
  split; apply built_airports; right; exists f; (split; [done|]); [by left|by right].
Qed.

(** *** The tables of least distances and prices *)

Lemma table_get_min_into m o d w o' d' :
  table_get (min_into m o d w) o' d'
  = if decide (o' = o ∧ d' = d)
    then Some (match table_get m o d with Some old => Z.min old w | None => w end)
    else table_get m o' d'.
Proof.
  unfold table_get, min_into. destruct (decide (o' = o)) as [->|Ho].
  - rewrite lookup_insert_eq. simpl. destruct (decide (d' = d)) as [->|Hd].
    + rewrite decide_True by done. rewrite lookup_insert_eq.
      by destruct (m !! o) as [row|]; simpl; [|rewrite lookup_empty].
    + rewrite decide_False by (by intros [_ ?]). rewrite lookup_insert_ne by done.
      by destruct (m !! o) as [row|]; simpl; [|rewrite lookup_empty].
  - rewrite decide_False by (by intros [? _]). by rewrite lookup_insert_ne.
Qed.

Lemma least_weights_nil w : least_weights w [] ∅.
Proof.
  intros o d. unfold table_get. rewrite lookup_empty. simpl.
  by intros f ?%elem_of_nil.
Qed.

Lemma least_weights_add w fs m flight :
  least_weights w fs m →
  least_weights w (fs ++ [flight])
    (min_into m (Flight.origin flight) (Flight.destination flight) (w flight)).
Proof.
  intros Hm o d. rewrite table_get_min_into. specialize (Hm o d).
  destruct (decide (o = Flight.origin flight ∧ d = Flight.destination flight))
    as [[-> ->]|Hne].
  - destruct (table_get m _ _) as [old|].
    + destruct Hm as [(f & Hf & Hl & Hw) Hleast]. split.
      * destruct (Z.min_spec old (w flight)) as [[_ ->]|[_ ->]].
        -- exists f. split; [apply elem_of_app; by left|done].
        -- exists flight. split; [|done]. apply elem_of_app. right. apply list_elem_of_here.
      * intros f' [Hf'| ->%list_elem_of_singleton]%elem_of_app Hl'; [|lia].
        specialize (Hleast f' Hf' Hl'). lia.
    + split.
      * exists flight. split; [|done]. apply elem_of_app. right. apply list_elem_of_here.
      * intros f' [Hf'| ->%list_elem_of_singleton]%elem_of_app Hl'; [|lia].
        by destruct (Hm f' Hf').
  - assert (¬ links o d flight) as Hflight by (intros [<- <-]; by apply Hne).
    destruct (table_get m o d) as [old|].
    + destruct Hm as [(f & Hf & Hl & Hw) Hleast]. split.
      * exists f. split; [apply elem_of_app; by left|done].
      * intros f' [Hf'| ->%list_elem_of_singleton]%elem_of_app Hl'; [by apply Hleast|done].
    + intros f' [Hf'| ->%list_elem_of_singleton]%elem_of_app; [by apply Hm|done].
Qed.

Lemma built_least_weights ops :
  least_weights Flight.distance (routes ops) (distances (built ops))
  ∧ least_weights Flight.price (routes ops) (prices (built ops)).
Proof.
  induction ops as [|o ops [IHd IHp]] using rev_ind.
  - split; apply least_weights_nil.
  - rewrite built_snoc, routes_snoc. destruct o as [airport|flight]; simpl.
    + by rewrite app_nil_r.
    + split; by apply least_weights_add.
Qed.

End GraphFacts.

(** ** dijkstra_shortest_path: the shape of the result *)

Module DijkstraMore.
Import AirportGraph RouteSpec DijkstraSpec DijkstraPaths.

Lemma entries_simple_push criteria c v q visited fs pq :
  entries_simple pq visited → NoDup (q ++ [v]) → (∀ x, x ∈ q → x ∈ visited) →
  entries_simple (push_flights criteria c (q ++ [v]) ({[v]} ∪ visited) fs pq)
    ({[v]} ∪ visited).
Proof.
  intros Hpq Hnd Hq c' a p [Hin|(f & Hf & Hnv & [= -> -> ->])]%DijkstraFacts.push_flights_elem.
  - destruct (Hpq c' a p Hin) as (q' & -> & Hnd' & Hq'). exists q'.
    repeat split; [done|]. intros x Hx. apply DijkstraFacts.visited_add. right. by apply Hq'.
  - exists (q ++ [v]). split; [done|]. split.
    + apply NoDup_app. split; [done|]. split; [|apply NoDup_singleton].
      intros x Hx ->%list_elem_of_singleton. apply Hnv, DijkstraFacts.visited_add.
      apply elem_of_app in Hx as [Hx| ->%list_elem_of_singleton]; [right; by apply Hq|by left].
    + intros x [Hx| ->%list_elem_of_singleton]%elem_of_app;
        apply DijkstraFacts.visited_add; [right; by apply Hq|by left].
Qed.

Lemma entries_real_push g start criteria c v p visited pq :
  entries_real g start criteria pq →
  (∃ fs, connects g start fs v ∧ p = start :: landings fs ∧ c = cost criteria fs) →
  entries_real g start criteria
    (push_flights criteria c p visited (flights_from g v) pq).
Proof.
  intros Hpq (fs & Hc & -> & ->) c' a p'
    [Hin|(f & Hf & Hnv & [= -> -> ->])]%DijkstraFacts.push_flights_elem.
  - by apply Hpq.
  - exists (fs ++ [f]). split; [by eapply RouteFacts.connects_snoc|].
    by rewrite DijkstraFacts.landings_snoc, DijkstraFacts.cost_snoc.
Qed.

(** Whatever the loop returns is the entry of a path to [end_], with or
    without weights below zero. *)
Lemma dijkstra_loop_sound g start end_ criteria fuel :
  ∀ pq visited p c,
    entries_simple pq visited → entries_real g start criteria pq →
    dijkstra_loop fuel g end_ criteria pq visited = Some (Some (p, c)) →
    NoDup p
    ∧ ∃ fs, connects g start fs end_ ∧ p = start :: landings fs ∧ c = cost criteria fs.
Proof.
  induction fuel as [|fuel IH]; intros pq visited p c Hsimple Hreal; [done|]. simpl.
  destruct (heappop pq) as [[[[c0 v] p0] rest]|] eqn:Hpop; [|done].
  apply DijkstraFacts.heappop_Some in Hpop as [Hperm _].
  assert (∀ e, e ∈ rest → e ∈ pq) as Hrest.
  { intros e He. rewrite Hperm. by apply list_elem_of_further. }
  assert ((c0, v, p0) ∈ pq) as Hin by (rewrite Hperm; apply list_elem_of_here).
  destruct (decide (v ∈ visited)) as [Hv|Hv].
  { apply IH.
    - intros c' a p' Hin'. by apply (Hsimple c' a p'), Hrest.
    - intros c' a p' Hin'. by apply (Hreal c' a p'), Hrest. }
  destruct (Hsimple c0 v p0 Hin) as (q & -> & Hnd & Hq).
  destruct (decide (v = end_)) as [->|Hne].
  { intros [= <- <-]. split; [done|]. by apply (Hreal c0 end_ (q ++ [end_])). }
  apply IH.
  - apply entries_simple_push; [|done..].
    intros c' a p' Hin'. by apply (Hsimple c' a p'), Hrest.
  - apply entries_real_push; [|by apply (Hreal c0 v (q ++ [v]))].
    intros c' a p' Hin'. by apply (Hreal c' a p'), Hrest.
Qed.

Lemma dijkstra_shortest_path_sound g start end_ criteria p c :
  dijkstra_shortest_path g start end_ criteria = Some (p, c) →
  start ∈ airports g ∧ end_ ∈ airports g ∧ NoDup p
  ∧ ∃ fs, connects g start fs end_ ∧ p = start :: landings fs ∧ c = cost criteria fs.
Proof.
  unfold dijkstra_shortest_path.
  destruct (decide (start ∉ airports g ∨ end_ ∉ airports g)) as [|Hknown]; [done|].
  assert (start ∈ airports g) as Hs.
  { apply dec_stable. intros ?. apply Hknown. by left. }
  assert (end_ ∈ airports g) as He.
  { apply dec_stable. intros ?. apply Hknown. by right. }
  destruct (dijkstra_loop _ _ _ _ _ _) as [[[p' c']|]|] eqn:Hloop; try done.
  intros [= -> ->]. split; [done|]. split; [done|].
  eapply dijkstra_loop_sound; [| |exact Hloop].
  - intros c0 a p0 [= -> -> ->]%list_elem_of_singleton. exists [].
    split; [done|]. split; [apply NoDup_singleton|]. by intros x ?%elem_of_nil.
  - intros c0 a p0 [= -> -> ->]%list_elem_of_singleton. by exists [].
Qed.

(** The result for weights that are not negative, as in the loop invariant. *)
Lemma dijkstra_shortest_path_least g start end_ criteria fs :
  nonneg_weights g criteria → start ∈ airports g → end_ ∈ airports g →
  connects g start fs end_ →
  ∃ p c, dijkstra_shortest_path g start end_ criteria = Some (p, c)
    ∧ c ≤ cost criteria fs.
Proof.
  intros Hw Hs He Hc. unfold dijkstra_shortest_path.
  rewrite decide_False by (intros [?|?]; done).
  destruct (DijkstraFacts.dijkstra_loop_fuel g end_ criteria (flight_count g + 2)
              [(0, start, [start])] ∅) as [res Hres].
  { rewrite DijkstraFacts.pending_empty. simpl. lia. }
  rewrite Hres.
  pose proof (DijkstraFacts.dijkstra_loop_spec g start end_ criteria Hw _ _ _ _ _
                (DijkstraFacts.inv_init g start end_ criteria) Hres) as Hspec.
  destruct res as [[p c]|]; [|by destruct (Hspec fs)].
  exists p, c. split; [done|]. by apply Hspec.
Qed.

End DijkstraMore.

Section RouteProperties.
Import AirportGraph GraphOps RouteSpec DijkstraSpec Scenarios.
Local Open Scope string_scope.
Local Open Scope list_scope.
Local Open Scope Z_scope.

(** X4: after any sequence of [add_airport] and [add_flight_route] calls on a
    new graph, [distances[o][d]] is the least distance, and [prices[o][d]]
    the least price, of the flights added from [o] to [d]; for a pair without
    a flight the tables hold nothing (they read [inf]). *)
Theorem tables_hold_least_weights (ops : list op) :
  least_weights Flight.distance (routes ops) (distances (built ops))
  ∧ least_weights Flight.price (routes ops) (prices (built ops)).
Proof.
  induction ops as [|o ops [IHd IHp]] using rev_ind.
  - split; apply GraphFacts.least_weights_nil.
  - rewrite GraphFacts.built_snoc, GraphFacts.routes_snoc.
    destruct o as [airport|flight]; simpl.
    + by rewrite app_nil_r.
    + split; by apply GraphFacts.least_weights_add.
Qed.

(** X5: after any sequence of [add_airport] and [add_flight_route] calls on a
    new graph, the flights stored for an airport are the added flights that
    leave from it, in the order in which they were added (parallel flights
    are all kept), and the airports are the ones added by name together with
    the origins and destinations of the added flights. *)
Theorem graph_holds_added_flights (ops : list op) :
  (∀ a, flights_from (built ops) a = filter (λ f, Flight.origin f = a) (routes ops))
  ∧ (∀ x, x ∈ airports (built ops) ↔
          x ∈ named ops
          ∨ ∃ f, f ∈ routes ops ∧ (Flight.origin f = x ∨ Flight.destination f = x)).
Proof.
  split; [apply GraphFacts.built_flights_from|apply GraphFacts.built_airports].
Qed.

(** X6: whatever [dijkstra_shortest_path] returns, also with weights below
    zero, is a path of the graph between two known airports: it starts at
    [start], follows flights of the graph to [end_], visits no airport twice,
    and comes with the total weight of those flights. *)
Theorem dijkstra_path_simple (g : t) (start end_ criteria : string)
    (p : list string) (c : Z) :
  dijkstra_shortest_path g start end_ criteria = Some (p, c) →
  start ∈ airports g ∧ end_ ∈ airports g ∧ NoDup p
  ∧ ∃ fs, connects g start fs end_ ∧ p = start :: landings fs ∧ c = cost criteria fs.
Proof.
  unfold dijkstra_shortest_path.
  destruct (decide (start ∉ airports g ∨ end_ ∉ airports g)) as [|Hknown]; [done|].
  assert (start ∈ airports g) as Hs.
  { apply dec_stable. intros ?. apply Hknown. by left. }
  assert (end_ ∈ airports g) as He.
  { apply dec_stable. intros ?. apply Hknown. by right. }
  destruct (dijkstra_loop _ _ _ _ _ _) as [[[p' c']|]|] eqn:Hloop; try done.
  intros [= -> ->]. split; [done|]. split; [done|].
  eapply DijkstraMore.dijkstra_loop_sound; [| |exact Hloop].
  - intros c0 a p0 [= -> -> ->]%list_elem_of_singleton. exists [].
    split; [done|]. split; [apply NoDup_singleton|]. by intros x ?%elem_of_nil.
  - intros c0 a p0 [= -> -> ->]%list_elem_of_singleton. by exists [].
Qed.

(** The cheapest way from NYC to LAX by price in scenario B. *)
Lemma dijkstra_path_simple_witness :
  dijkstra_shortest_path two_legs "NYC" "LAX" "price"
  = Some (["NYC"; "CHI"; "LAX"], 700)
  ∧ NoDup ["NYC"; "CHI"; "LAX"]
  ∧ ∃ fs, connects two_legs "NYC" fs "LAX"
      ∧ ["NYC"; "CHI"; "LAX"] = "NYC" :: landings fs ∧ 700 = cost "price" fs.
Proof.
  assert (dijkstra_shortest_path two_legs "NYC" "LAX" "price"
          = Some (["NYC"; "CHI"; "LAX"], 700)) as Hrun by (vm_compute; reflexivity).
  split; [exact Hrun|].
  destruct (dijkstra_path_simple two_legs "NYC" "LAX" "price" _ _ Hrun)
    as (_ & _ & Hnd & Hfs).
  split; [exact Hnd|exact Hfs].
Defined.

(** X7: from a known airport to itself [dijkstra_shortest_path] returns the
    path of that one airport with cost 0, whatever flights there are. *)
Theorem dijkstra_same_airport (g : t) (start criteria : string) :
  start ∈ airports g →
  dijkstra_shortest_path g start start criteria = Some ([start], 0).
Proof.
  intros Hs. unfold dijkstra_shortest_path.
  rewrite decide_False by (intros [?|?]; done).
  rewrite Nat.add_comm. simpl.
  rewrite decide_False by apply not_elem_of_empty.
  by rewrite decide_True.
Qed.

Lemma dijkstra_same_airport_witness :
  "CHI" ∈ airports two_legs
  ∧ dijkstra_shortest_path two_legs "CHI" "CHI" "distance" = Some (["CHI"], 0).
Proof.
  assert ("CHI" ∈ airports two_legs) as Hs.
  { apply (bool_decide_unpack ("CHI" ∈ airports two_legs)). vm_compute. exact I. }
  split; [exact Hs|]. exact (dijkstra_same_airport two_legs "CHI" "distance" Hs).
Defined.

(** X9: a larger [max_stops] only adds routes: every route that
    [find_all_routes] returns for a bound is returned for every larger
    bound. *)
Theorem find_all_routes_monotone (g : t) (start end_ : string) (m m' : Z) (r : route) :
  m ≤ m' →
  r ∈ find_all_routes g start end_ m → r ∈ find_all_routes g start end_ m'.
Proof.
  intros Hle (fs & (Hne & Hc & Hnd & Hlen) & ->)%RouteFacts.find_all_routes_spec.
  apply RouteFacts.find_all_routes_spec. exists fs. split; [|done].
  repeat split; try done. lia.
Qed.

Lemma find_all_routes_monotone_witness :
  2 ≤ 5
  ∧ mk_route ["NYC"; "CHI"; "LAX"] 2 2535 700 ∈ find_all_routes two_legs "NYC" "LAX" 2
  ∧ mk_route ["NYC"; "CHI"; "LAX"] 2 2535 700 ∈ find_all_routes two_legs "NYC" "LAX" 5.
Proof.
  assert (mk_route ["NYC"; "CHI"; "LAX"] 2 2535 700
          ∈ find_all_routes two_legs "NYC" "LAX" 2) as Hin.
  { replace (find_all_routes two_legs "NYC" "LAX" 2)
      with [mk_route ["NYC"; "CHI"; "LAX"] 2 2535 700] by (vm_compute; reflexivity).
    apply list_elem_of_here. }
  assert (2 ≤ 5) as Hle by lia.
  split; [exact Hle|]. split; [exact Hin|].
  exact (find_all_routes_monotone two_legs "NYC" "LAX" 2 5 _ Hle Hin).
Defined.

(** X10: [find_all_routes] returns no route when [max_stops] is 0 or less,
    even if a direct flight exists, and none from an airport to itself. *)
Theorem find_all_routes_none (g : t) (start end_ : string) (max_stops : Z) :
  max_stops ≤ 0 ∨ start = end_ →
  find_all_routes g start end_ max_stops = [].
Proof.
  intros Hcase. apply elem_of_nil_inv. intros r.
  intros (fs & (Hne & Hc & Hnd & Hlen) & _)%RouteFacts.find_all_routes_spec.
  destruct Hcase as [Hm| ->].
  - destruct fs; [done|]. simpl in Hlen. lia.
  - apply NoDup_cons in Hnd as [Hnd _]. apply Hnd. by eapply RouteFacts.connects_last.
Qed.

Lemma find_all_routes_none_witness :
  (0 ≤ 0 ∨ "NYC" = "CHI")
  ∧ (∃ f, f ∈ flights_from two_legs "NYC" ∧ Flight.destination f = "CHI")
  ∧ find_all_routes two_legs "NYC" "CHI" 0 = [].
Proof.
  assert (0 ≤ 0 ∨ "NYC" = "CHI") as Hcase by (left; lia).
  split; [exact Hcase|]. split.
  - exists (Flight.init "FL003" "NYC" "CHI" "09:00" "11:30" 120 300 790).
    split; [|reflexivity].
    replace (flights_from two_legs "NYC")
      with [Flight.init "FL003" "NYC" "CHI" "09:00" "11:30" 120 300 790]
      by (vm_compute; reflexivity).
    apply list_elem_of_here.
  - exact (find_all_routes_none two_legs "NYC" "CHI" 0 Hcase).
Defined.

End RouteProperties.

(** ** The system keeps its catalog *)

Module CatalogFacts.
Import AirlineManagementSystem Histories Catalog.

Lemma replay_snoc cs c : replay (cs ++ [c]) = run (replay cs) c.
Proof. unfold replay. by rewrite foldl_app. Qed.

Lemma book_flight_catalog st pid fid bid now :
  airport_graph (book_flight st pid fid bid now).1 = airport_graph st
  ∧ flight_schedule (book_flight st pid fid bid now).1 = flight_schedule st
  ∧ dom (flights (book_flight st pid fid bid now).1) = dom (flights st).
Proof.
  unfold book_flight. destruct (passengers st !! pid); [|done].
  destruct (flights st !! fid) as [f|] eqn:Hf; [|done].
  destruct (Flight.is_available f); simpl; (repeat split; [done..|]);
    by apply dom_insert_lookup_L.
Qed.

Lemma release_catalog st b f st' :
  flights st !! Booking.flight_id b = Some f →
  release st b f = inl st' ∨ release st b f = inr st' →
  airport_graph st' = airport_graph st
  ∧ flight_schedule st' = flight_schedule st
  ∧ passengers st' = passengers st
  ∧ dom (flights st') = dom (flights st).
Proof.
  intros Hf. unfold release.
  destruct (Booking.status b); simpl.
  - destruct (list_remove _ _); [|intros [[=]|[= <-]]; simpl;
      (repeat split; [done..|]); by apply dom_insert_lookup_L].
    destruct (Flight.waiting_list f);
      [|destruct (confirm_waitlisted _ _ _)];
      (intros [[= <-]|[=]]; simpl; (repeat split; [done..|]);
       by apply dom_insert_lookup_L).
  - by intros [[= <-]|[=]].
  - destruct (list_remove _ _); (intros [[= <-]|[=]]; simpl); [|done].
    (repeat split; [done..|]). by apply dom_insert_lookup_L.
Qed.

Lemma cancel_booking_catalog st bid :
  airport_graph (state_of (cancel_booking st bid)) = airport_graph st
  ∧ flight_schedule (state_of (cancel_booking st bid)) = flight_schedule st
  ∧ dom (flights (state_of (cancel_booking st bid))) = dom (flights st).
Proof.
  unfold cancel_booking. destruct (dict_get bid (bookings st)) as [b|]; [|done].
  destruct (flights st !! Booking.flight_id b) as [f|] eqn:Hf; [|done].
  destruct (passengers st !! Booking.passenger_id b) as [P|]; [|done].
  destruct (release st b f) as [st1|st1] eqn:Hrel.
  - destruct (release_catalog st b f st1 Hf (or_introl Hrel)) as (Hg & Hs & _ & Hd).
    by destruct (list_remove bid (Passenger.bookings P)).
  - by destruct (release_catalog st b f st1 Hf (or_intror Hrel)) as (Hg & Hs & _ & Hd).
Qed.

(** In the embedding the graph and the schedule are the ones built from the
    flights as constructed. *)
Lemma replay_catalog cs :
  airport_graph (replay cs) = GraphOps.built (graph_calls cs)
  ∧ flight_schedule (replay cs) = ScheduleSpec.scheduled (added cs)
  ∧ dom (flights (replay cs)) = list_to_set (Flight.flight_id <$> added cs).
Proof.
  induction cs as [|c cs (IHg & IHs & IHd)] using rev_ind; [done|].
  rewrite replay_snoc. unfold graph_calls, added in *.
  rewrite !omap_app, fmap_app, list_to_set_app_L.
  destruct c as [a|fid o d dep arr cap p dist|pid n e ph|pid fid bid now|bid]; simpl.
  - rewrite !app_nil_r, union_empty_r_L, GraphFacts.built_snoc, <- IHg. done.
  - rewrite GraphFacts.built_snoc, ScheduleFacts.scheduled_snoc, <- IHg, <- IHs.
    rewrite dom_insert_L, IHd, union_empty_r_L. split; [done|]. split; [done|].
    apply union_comm_L.
  - rewrite !app_nil_r, union_empty_r_L. done.
  - destruct (book_flight_catalog (replay cs) pid fid bid now) as (-> & -> & ->).
    rewrite !app_nil_r, union_empty_r_L. done.
  - destruct (cancel_booking_catalog (replay cs) bid) as (-> & -> & ->).
    rewrite !app_nil_r, union_empty_r_L. done.
Qed.

Lemma routes_graph_calls cs : GraphOps.routes (graph_calls cs) = added cs.
Proof.
  unfold GraphOps.routes, graph_calls, added.
  induction cs as [|c cs IH]; [done|]. destruct c; csimpl; by rewrite ?IH.
Qed.

Lemma as_added_added cs : Forall (λ f, as_added f = f) (added cs).
Proof.
  unfold added. induction cs as [|c cs IH]; [constructor|].
  destruct c; csimpl; try done. by constructor.
Qed.

Lemma fmap_as_added l : Forall (λ f, as_added f = f) l → as_added <$> l = l.
Proof. induction 1 as [|f l Hf _ IH]; csimpl; [done|]. by rewrite Hf, IH. Qed.

End CatalogFacts.

Section SystemRouteProperties.
Import AirlineManagementSystem Histories Catalog Scenarios.
Import GraphOps RouteSpec DijkstraSpec ScheduleSpec.
Local Open Scope string_scope.
Local Open Scope list_scope.
Local Open Scope Z_scope.

(** X8: [find_shortest_route] returns what [dijkstra_shortest_path] returns
    on the graph of the system: a path that is found is never empty, so the
    test [if path] never turns it into "no route". *)
Theorem find_shortest_route_is_dijkstra (st : t) (origin destination criteria : string) :
  find_shortest_route st origin destination criteria
  = AirportGraph.dijkstra_shortest_path (airport_graph st) origin destination criteria.
Proof.
  unfold find_shortest_route.
  destruct (AirportGraph.dijkstra_shortest_path _ _ _ _) as [[p c]|] eqn:Hrun; [|done].
  apply DijkstraMore.dijkstra_shortest_path_sound in Hrun as (_ & _ & _ & fs & _ & -> & _).
  by rewrite decide_False.
Qed.



(** X12: whatever calls are made on a new system, its flights are known by
    the [add_airport] and [add_flight] calls alone. The airports and the
    tables of least distances and prices of the graph are those of the graph
    built by these calls; the flights stored for an airport are the added
    flights with that origin, in the order of the calls; the listing of the
    schedule is the listing of the schedule built from the added flights,
    and its [size] is their number; the keys of [flights] are the ids of the
    added flights. Flights are compared by the fields that no call changes
    after [Flight.__init__]. So registering, booking and cancelling never
    add, remove or move a flight. *)
Theorem catalog_follows_add_calls (cs : list call) :
  AirportGraph.airports (airport_graph (replay cs))
  = AirportGraph.airports (built (graph_calls cs))
  ∧ AirportGraph.distances (airport_graph (replay cs))
    = AirportGraph.distances (built (graph_calls cs))
  ∧ AirportGraph.prices (airport_graph (replay cs))
    = AirportGraph.prices (built (graph_calls cs))
  ∧ (∀ a, as_added <$> AirportGraph.flights_from (airport_graph (replay cs)) a
          = filter (λ f, Flight.origin f = a) (added cs))
  ∧ as_added <$> FlightSchedule.display_schedule (flight_schedule (replay cs))
    = FlightSchedule.display_schedule (scheduled (added cs))
  ∧ FlightSchedule.size (flight_schedule (replay cs)) = Z.of_nat (length (added cs))
  ∧ dom (flights (replay cs)) = list_to_set (Flight.flight_id <$> added cs).
Proof.
  destruct (CatalogFacts.replay_catalog cs) as (-> & -> & ->).
  pose proof (CatalogFacts.as_added_added cs) as Hadded.
  split; [done|]. split; [done|]. split; [done|]. split; [|split; [|split]].
  - intros a. rewrite GraphFacts.built_flights_from, CatalogFacts.routes_graph_calls.
    apply CatalogFacts.fmap_as_added.
    apply Forall_forall. intros f [_ Hf]%list_elem_of_filter.
    by apply (proj1 (Forall_forall _ _) Hadded).
  - apply CatalogFacts.fmap_as_added.
    by rewrite (ScheduleFacts.scheduled_perm (added cs)).
  - apply ScheduleFacts.scheduled_size.
  - done.
Qed.

End SystemRouteProperties.

(** ** The life of a booking *)

Module LifecycleFacts.
Import AirlineManagementSystem LedgerSpec Lifecycle.

Lemma follows_trans s1 s2 s3 : follows s1 s2 → follows s2 s3 → follows s1 s3.
Proof. intros H12 H23. destruct H12; inversion H23; subst; constructor. Qed.

Lemma later_refl b : later b b.
Proof. repeat split. constructor. Qed.

Lemma later_trans b1 b2 b3 : later b1 b2 → later b2 b3 → later b1 b3.
Proof.
  intros (? & ? & ? & ? & H12) (? & ? & ? & ? & H23).
  repeat split; try congruence. by eapply follows_trans.
Qed.

Lemma all_later_refl bs : all_later bs bs.
Proof. apply Forall2_same_length_lookup_2; [done|]. intros i x y Hx Hy.
  replace y with x by congruence. split; [done|apply later_refl]. Qed.

Lemma all_later_trans bs1 bs2 bs3 : all_later bs1 bs2 → all_later bs2 bs3 → all_later bs1 bs3.
Proof.
  unfold all_later. intros H12. revert bs3.
  induction H12 as [|x y l1 l2 [Hk Hl] _ IH]; intros bs3 H23.
  - by apply Forall2_nil_inv_l in H23 as ->.
  - apply Forall2_cons_inv_l in H23 as (z & l3 & [Hk' Hl'] & H23 & ->).
    constructor; [|by apply IH]. split; [congruence|by eapply later_trans].
Qed.

(** Reading a booking from later bookings gives the booking at a later
    time, and there is no other booking to read. *)
Lemma all_later_get bs bs' k :
  all_later bs bs' →
  match dict_get k bs, dict_get k bs' with
  | Some b, Some b' => later b b'
  | None, None => True
  | _, _ => False
  end.
Proof.
  induction 1 as [|[k1 b1] [k2 b2] l1 l2 [Hk Hl] _ IH]; simpl in *; [done|].
  subst k2. destruct (decide (k1 = k)); [done|exact IH].
Qed.

Lemma dict_alter_later s k bs :
  s = Booking.CANCELLED → all_later bs (dict_alter (Booking.set_status s) k bs).
Proof.
  intros ->. induction bs as [|[k' b] bs IH]; simpl; [constructor|].
  destruct (decide (k' = k)).
  - constructor; [|apply all_later_refl]. split; [done|]. repeat split. constructor.
  - constructor; [|done]. split; [done|apply later_refl].
Qed.

Lemma confirm_waitlisted_later next fid bs bs' :
  confirm_waitlisted next fid bs = Some bs' → all_later bs bs'.
Proof.
  revert bs'. induction bs as [|[k b] bs IH]; intros bs'; simpl; [done|].
  destruct (is_waitlisted_for next fid b) eqn:Hb.
  - intros [= <-]. constructor; [|apply all_later_refl]. split; [done|].
    repeat split. simpl.
    apply andb_true_iff in Hb as [_ ->%bool_decide_eq_true]. constructor.
  - destruct (confirm_waitlisted next fid bs) as [r|]; [|done]. intros [= <-].
    constructor; [|by apply IH]. split; [done|apply later_refl].
Qed.

Lemma release_later st b f st' :
  release st b f = inl st' ∨ release st b f = inr st' →
  all_later (bookings st) (bookings st').
Proof.
  unfold release. destruct (Booking.status b); simpl.
  - destruct (list_remove _ _); [|intros [[=]|[= <-]]; apply all_later_refl].
    destruct (Flight.waiting_list f) as [|next wl];
      [intros [[= <-]|[=]]; apply all_later_refl|].
    destruct (confirm_waitlisted _ _ _) eqn:Hcw; (intros [[= <-]|[=]]; simpl);
      [by eapply confirm_waitlisted_later|apply all_later_refl].
  - intros [[= <-]|[=]]. apply all_later_refl.
  - destruct (list_remove _ _); (intros [[= <-]|[=]]; apply all_later_refl).
Qed.

(** [cancel_booking] moves bookings on, whatever the state and however it
    ends. *)
Lemma cancel_booking_later st bid :
  all_later (bookings st) (bookings (state_of (cancel_booking st bid))).
Proof.
  unfold cancel_booking. destruct (dict_get bid (bookings st)) as [b|];
    [|apply all_later_refl].
  destruct (flights st !! Booking.flight_id b) as [f|]; [|apply all_later_refl].
  destruct (passengers st !! Booking.passenger_id b) as [P|]; [|apply all_later_refl].
  destruct (release st b f) as [st1|st1] eqn:Hrel.
  - assert (all_later (bookings st)
              (dict_alter (Booking.set_status Booking.CANCELLED) bid (bookings st1))).
    { eapply all_later_trans; [apply (release_later st b f); by left|].
      by apply dict_alter_later. }
    by destruct (list_remove bid (Passenger.bookings P)).
  - apply (release_later st b f). by right.
Qed.

End LifecycleFacts.

(** ** More that the ledger keeps *)

Module LedgerMoreFacts.
Import AirlineManagementSystem LedgerSpec LedgerSteps LedgerMore Lifecycle.
Import ContainerFacts LedgerFacts LifecycleFacts.

Lemma dict_get_app (bs1 bs2 : list (string * Booking.t)) k :
  dict_get k (bs1 ++ bs2)
  = match dict_get k bs1 with Some b => Some b | None => dict_get k bs2 end.
Proof.
  induction bs1 as [|[k' b'] bs1 IH]; simpl; [done|]. by destruct (decide (k' = k)).
Qed.

Lemma dict_get_keys (bs : list (string * Booking.t)) k b :
  dict_get k bs = Some b → k ∈ bs.*1.
Proof.
  intros Hget%dict_get_elem. apply list_elem_of_fmap. by exists (k, b).
Qed.

Lemma ledger_more_init : ledger_more init.
Proof.
  split; simpl.
  - by intros pid P bid b ?%lookup_empty_Some.
  - by intros fid f ?%lookup_empty_Some.
Qed.

Lemma add_flight_more st fid o d dep arr cap p dist :
  ledger_more st → ledger_more (add_flight st fid o d dep arr cap p dist).
Proof.
  intros [Ho Hf]. split; simpl; [done|].
  intros fid' f [[<- <-]|[Hne Hf']]%lookup_insert_Some; [done|by eauto].
Qed.

Lemma register_passenger_more st pid n e ph :
  ledger_more st → ledger_more (register_passenger st pid n e ph).1.
Proof.
  intros [Ho Hf]. split; simpl; [|done].
  intros pid' P bid b [[<- <-]|[Hne HP]]%lookup_insert_Some; simpl; [|by eauto].
  by intros ?%elem_of_nil.
Qed.

Lemma book_flight_more st pid fid bid now :
  ledger_inv st → ledger_more st → dict_get bid (bookings st) = None →
  ledger_more (book_flight st pid fid bid now).1.
Proof.
  intros Hinv [Ho Hfull] Hfresh. unfold book_flight.
  destruct (passengers st !! pid) as [P|] eqn:HP; [|done].
  destruct (flights st !! fid) as [f|] eqn:Hf; [|done].
  pose proof (proj1 (dict_get_None _ _) Hfresh) as Hnk.
  destruct (inv_seats st Hinv fid f Hf) as [Hcap _].
  assert (∀ s, ∀ pid' P' bid' b',
            <[pid := Passenger.set_bookings (Passenger.bookings P ++ [bid]) P]>
              (passengers st) !! pid' = Some P' →
            bid' ∈ Passenger.bookings P' →
            dict_get bid' (bookings st ++ [(bid, Booking.mk bid pid fid now s)]) = Some b' →
            Booking.passenger_id b' = pid') as Howner.
  { intros s pid' P' bid' b' HP' Hin. rewrite dict_get_app.
    destruct (dict_get bid' (bookings st)) as [b0|] eqn:Hget0.
    - intros [= <-]. apply lookup_insert_Some in HP' as [[<- <-]|[Hne HP']];
        [|by eapply Ho]. simpl in Hin.
      apply elem_of_app in Hin as [Hin| ->%list_elem_of_singleton]; [by eapply Ho|].
      congruence.
    - simpl. destruct (decide (bid = bid')) as [<-|]; [|done]. intros [= <-]. simpl.
      apply lookup_insert_Some in HP' as [[<- _]|[Hne HP']]; [done|].
      destruct Hnk. by eapply (inv_listed st Hinv). }
  destruct (Flight.is_available f) eqn:Hav; unfold Flight.is_available in Hav;
    [apply Z.ltb_lt in Hav|apply Z.ltb_ge in Hav];
    simpl; rewrite dict_set_fresh by done; split; simpl; try apply Howner.
  - intros fid' f' [[<- <-]|[Hne Hf']]%lookup_insert_Some; simpl; [|by eauto].
    intros Hwl. specialize (Hfull fid f Hf Hwl). lia.
  - intros fid' f' [[<- <-]|[Hne Hf']]%lookup_insert_Some; simpl; [|by eauto].
    intros _. lia.
Qed.

(** The state after a cancellation that returns [True], see
    [after_cancel_inv]. *)
Lemma after_cancel_more st bid b f P bks bs1 f' :
  ledger_more st →
  flights st !! Booking.flight_id b = Some f →
  passengers st !! Booking.passenger_id b = Some P →
  list_remove bid (Passenger.bookings P) = Some bks →
  all_later (bookings st) bs1 →
  (Flight.waiting_list f' ≠ [] → Flight.booked_seats f' = Flight.capacity f') →
  ledger_more (after_cancel st bid b P bks bs1 f').
Proof.
  intros [Ho Hfull] Hf HP Hbks Hlater Hf'. split; unfold after_cancel; simpl.
  - intros pid' P' bid' b' HP' Hin Hget.
    assert (∃ b0, dict_get bid' (bookings st) = Some b0
                  ∧ Booking.passenger_id b' = Booking.passenger_id b0) as (b0 & Hget0 & ->).
    { pose proof (all_later_get _ _ bid'
                    (all_later_trans _ _ _ Hlater
                       (dict_alter_later Booking.CANCELLED bid bs1 eq_refl))) as Hl.
      rewrite Hget in Hl. destruct (dict_get bid' (bookings st)) as [b0|]; [|done].
      exists b0. split; [done|]. by destruct Hl as (_ & ? & _). }
    apply lookup_insert_Some in HP' as [[<- <-]|[Hne HP']]; [|by eapply Ho].
    simpl in Hin. eapply Ho; [exact HP| |exact Hget0]. by eapply list_remove_elem.
  - intros fid' f0 [[<- <-]|[Hne Hf0]]%lookup_insert_Some; [done|by eauto].
Qed.

Lemma cancel_booking_more st bid :
  ledger_inv st → ledger_more st → ledger_more (state_of (cancel_booking st bid)).
Proof.
  intros Hinv Hmore.
  destruct (dict_get bid (bookings st)) as [b|] eqn:Hget;
    [|unfold cancel_booking; by rewrite Hget].
  destruct (ledger_refs st bid b Hinv Hget) as (f & P & Hf & HP & _).
  destruct (inv_seats st Hinv _ f Hf) as [Hcap Hlen].
  destruct (Booking.status b) eqn:Hs.
  - destruct (cancel_confirmed st bid b f P Hinv Hget Hs Hf HP)
      as (ps & bks & Hps & Hbks & Hrun).
    destruct (Flight.waiting_list f) as [|next wl] eqn:Hwl.
    + rewrite Hrun. simpl.
      apply (after_cancel_more st bid b f P); try done. apply all_later_refl.
    + destruct Hrun as (bs1 & Hcw & ->). simpl.
      apply (after_cancel_more st bid b f P); try done.
      * by eapply confirm_waitlisted_later.
      * simpl. intros _. apply (more_full st Hmore _ f Hf). by rewrite Hwl.
  - by rewrite (cancel_cancelled st bid b).
  - destruct (cancel_waitlisted st bid b f P Hinv Hget Hs Hf HP)
      as (wl & bks & Hwl & Hbks & ->). simpl.
    apply (after_cancel_more st bid b f P); try done; [apply all_later_refl|].
    simpl. intros _. apply (more_full st Hmore _ f Hf).
    apply list_remove_length in Hwl. by destruct (Flight.waiting_list f).
Qed.

Lemma reachable_more st : reachable st → ledger_more st.
Proof.
  induction 1 as [|st c Hreach IH Hadm]; [apply ledger_more_init|].
  pose proof (reachable_inv st Hreach) as Hinv.
  destruct c; simpl in *.
  - destruct IH. by split.
  - by apply add_flight_more.
  - by apply register_passenger_more.
  - by apply book_flight_more.
  - by apply cancel_booking_more.
Qed.

End LedgerMoreFacts.

(** ** Counting bookings *)

Module CountFacts.
Import AirlineManagementSystem LedgerSpec LedgerMore AirlineQueries.
Import ContainerFacts LedgerFacts.

Lemma occurrences_booked_by p fid s bs :
  occurrences p (booked_by fid s bs) = count_bookings p fid s bs.
Proof.
  induction bs as [|[k b] bs IH]; simpl; [done|]. unfold holds.
  destruct (bool_decide (Booking.flight_id b = fid)),
    (bool_decide (Booking.status b = s)); simpl; rewrite ?IH;
    repeat case_bool_decide; repeat case_decide; simpl; try done; try congruence.
Qed.

(** Lists with the same number of occurrences of every element are
    rearrangements of each other. *)
Lemma same_occurrences_perm l1 l2 :
  (∀ p, occurrences p l1 = occurrences p l2) → l1 ≡ₚ l2.
Proof.
  revert l2. induction l1 as [|x l1 IH]; intros l2 Hocc.
  - destruct l2 as [|y l2]; [done|]. specialize (Hocc y). simpl in Hocc.
    rewrite decide_True in Hocc by done. lia.
  - assert (x ∈ l2) as (a & b & ->)%list_elem_of_split.
    { apply dec_stable. intros Hnin%occurrences_zero. specialize (Hocc x).
      simpl in Hocc. rewrite decide_True in Hocc by done. lia. }
    rewrite <- Permutation_middle. constructor. apply IH. intros p.
    specialize (Hocc p). rewrite occurrences_app in *. simpl in Hocc. lia.
Qed.

Lemma booked_by_length fid s bs :
  length (booked_by fid s bs)
  = length (filter (λ kb, Booking.flight_id kb.2 = fid ∧ Booking.status kb.2 = s) bs).
Proof.
  induction bs as [|[k b] bs IH]; simpl; [done|].
  destruct (bool_decide (Booking.flight_id b = fid)) eqn:Hf;
    destruct (bool_decide (Booking.status b = s)) eqn:Hs; simpl;
    try apply bool_decide_eq_true in Hf; try apply bool_decide_eq_false in Hf;
    try apply bool_decide_eq_true in Hs; try apply bool_decide_eq_false in Hs.
  - rewrite filter_cons_True by done. simpl. by rewrite IH.
  - rewrite filter_cons_False by (simpl; tauto). done.
  - rewrite filter_cons_False by (simpl; tauto). done.
  - rewrite filter_cons_False by (simpl; tauto). done.
Qed.

(** *** Sums over the flights *)

Lemma sum_indicator (F : list (string * Flight.t)) x :
  NoDup F.*1 →
  foldr (λ kf n, (if decide (x = kf.1) then 1 else 0) + n) 0 F
  = if decide (x ∈ F.*1) then 1 else 0.
Proof.
  induction F as [|[k f] F IH]; simpl; [done|]. intros [Hk Hnd]%NoDup_cons.
  rewrite (IH Hnd). destruct (decide (x = k)) as [->|Hne].
  - rewrite decide_False by done. rewrite decide_True; [done|apply list_elem_of_here].
  - destruct (decide (x ∈ F.*1)) as [Hin|Hnin].
    + rewrite decide_True; [done|by apply list_elem_of_further].
    + rewrite decide_False; [done|]. by intros [?|?]%elem_of_cons.
Qed.

Lemma sum_booked_by (F : list (string * Flight.t)) s bs :
  NoDup F.*1 →
  (∀ k b, (k, b) ∈ bs → Booking.flight_id b ∈ F.*1) →
  foldr (λ kf n, Z.of_nat (length (booked_by kf.1 s bs)) + n) 0 F
  = Z.of_nat (length (filter (λ kb, Booking.status kb.2 = s) bs)).
Proof.
  intros Hnd. induction bs as [|[k b] bs IH]; intros Hknown.
  - clear Hnd Hknown. induction F as [|kf F IHF]; simpl in *; [done|]. exact IHF.
  - assert (∀ G : list (string * Flight.t),
      foldr (λ kf n, Z.of_nat (length (booked_by kf.1 s ((k, b) :: bs))) + n) 0 G
      = (if bool_decide (Booking.status b = s)
         then foldr (λ kf n, (if decide (Booking.flight_id b = kf.1) then 1 else 0) + n) 0 G
         else 0)
        + foldr (λ kf n, Z.of_nat (length (booked_by kf.1 s bs)) + n) 0 G) as Hsplit.
    { induction G as [|[fid f] G IHG]; simpl in *; [by destruct (bool_decide _)|].
      rewrite IHG.
      destruct (bool_decide (Booking.status b = s)); rewrite ?andb_false_r, ?andb_true_r.
      - case_bool_decide; [rewrite decide_True by done|rewrite decide_False by done];
          simpl length; lia.
      - lia. }
    rewrite Hsplit, IH, (sum_indicator F _ Hnd);
      [|intros k' b' Hin; apply (Hknown k' b'); by apply list_elem_of_further].
    rewrite decide_True by (apply (Hknown k b), list_elem_of_here).
    case_bool_decide.
    + rewrite filter_cons_True by done. simpl length. lia.
    + rewrite filter_cons_False by done. lia.
Qed.

Lemma sum_flights_ext (w : Flight.t → Z) (g : string → Z) (F : list (string * Flight.t)) :
  (∀ fid f, (fid, f) ∈ F → w f = g fid) →
  foldr (λ kf n, w kf.2 + n) 0 F = foldr (λ kf n, g kf.1 + n) 0 F.
Proof.
  induction F as [|[fid f] F IH]; intros Hw; simpl; [done|].
  rewrite (Hw fid f (list_elem_of_here _ _)), IH; [done|].
  intros fid' f' Hin. apply Hw. by apply list_elem_of_further.
Qed.

End CountFacts.

Section LedgerProperties.
Import AirlineManagementSystem Histories Scenarios AirlineQueries.
Import LedgerSpec LedgerSteps LedgerMore Lifecycle.
Local Open Scope string_scope.
Local Open Scope list_scope.
Local Open Scope Z_scope.

(** X13: a call never removes or reorders bookings and never changes the
    id, the passenger, the flight or the time of a booking; the status of a
    booking only stays, goes from waitlisted to confirmed, or becomes
    cancelled, so a cancelled booking stays cancelled. The only new booking
    is the one that [book_flight] appends, which is not cancelled. This
    holds in every state, as long as [uuid4] gives [book_flight] an id that
    is not in use. *)
Theorem bookings_only_move_on (st : t) (c : call) :
  (∀ pid fid bid now, c = BookFlight pid fid bid now →
     dict_get bid (bookings st) = None) →
  ∃ bs' new,
    bookings (run st c) = bs' ++ new
    ∧ all_later (bookings st) bs'
    ∧ (new = []
       ∨ ∃ pid fid bid now s,
           c = BookFlight pid fid bid now
           ∧ new = [(bid, Booking.mk bid pid fid now s)]
           ∧ s ≠ Booking.CANCELLED).
Proof.
  intros Hfresh.
  destruct c as [a|fid o d dep arr cap p dist|pid n e ph|pid fid bid now|bid]; simpl.
  - exists (bookings st), []. rewrite app_nil_r.
    split; [done|]. split; [apply LifecycleFacts.all_later_refl|by left].
  - exists (bookings st), []. rewrite app_nil_r.
    split; [done|]. split; [apply LifecycleFacts.all_later_refl|by left].
  - exists (bookings st), []. rewrite app_nil_r.
    split; [done|]. split; [apply LifecycleFacts.all_later_refl|by left].
  - specialize (Hfresh pid fid bid now eq_refl). unfold book_flight.
    destruct (passengers st !! pid) as [P|];
      [|exists (bookings st), []; rewrite app_nil_r;
        split; [done|]; split; [apply LifecycleFacts.all_later_refl|by left]].
    destruct (flights st !! fid) as [f|];
      [|exists (bookings st), []; rewrite app_nil_r;
        split; [done|]; split; [apply LifecycleFacts.all_later_refl|by left]].
    destruct (Flight.is_available f); simpl;
      rewrite ContainerFacts.dict_set_fresh by done;
      eexists (bookings st), _; (split; [done|]);
      (split; [apply LifecycleFacts.all_later_refl|]); right;
      eexists pid, fid, bid, now, _; repeat split; done.
  - eexists _, []. rewrite app_nil_r. split; [done|].
    split; [apply LifecycleFacts.cancel_booking_later|by left].
Qed.

(** A cancels while B and C wait: the three bookings stay in place, A's is
    cancelled, B's is confirmed, C's still waits. *)
Lemma bookings_only_move_on_witness :
  (∀ pid fid bid now, CancelBooking "ba" = BookFlight pid fid bid now →
     dict_get bid (bookings (replay a_then_b_then_c)) = None)
  ∧ (λ kb, (kb.1, Booking.status kb.2)) <$> bookings (replay a_then_b_then_c)
    = [("ba", Booking.CONFIRMED); ("bb", Booking.WAITLISTED); ("bc", Booking.WAITLISTED)]
  ∧ (λ kb, (kb.1, Booking.status kb.2))
      <$> bookings (run (replay a_then_b_then_c) (CancelBooking "ba"))
    = [("ba", Booking.CANCELLED); ("bb", Booking.CONFIRMED); ("bc", Booking.WAITLISTED)]
  ∧ ∃ bs' new,
      bookings (run (replay a_then_b_then_c) (CancelBooking "ba")) = bs' ++ new
      ∧ all_later (bookings (replay a_then_b_then_c)) bs'.
Proof.
  assert (∀ pid fid bid now, CancelBooking "ba" = BookFlight pid fid bid now →
            dict_get bid (bookings (replay a_then_b_then_c)) = None) as Hfresh
    by (intros pid fid bid now Heq; discriminate Heq).
  split; [exact Hfresh|]. split; [vm_compute; reflexivity|].
  split; [vm_compute; reflexivity|].
  destruct (bookings_only_move_on (replay a_then_b_then_c) (CancelBooking "ba") Hfresh)
    as (bs' & new & Hrun & Hlater & _).
  by exists bs', new.
Defined.

(** X17: nobody waits for a flight that has a free seat: a flight whose
    waiting list is not empty has [booked_seats == capacity].
    The states are those that calls on a new system reach without
    [add_flight] being given a flight id that is in use or a negative
    capacity, and without [uuid4] returning a passenger or booking id that
    is in use (this is [reachable]); the code checks none of this, and in
    other states the property can fail. *)
Theorem nobody_waits_for_a_free_seat (st : t) (fid : string) (f : Flight.t) :
  reachable st →
  flights st !! fid = Some f →
  Flight.waiting_list f ≠ [] →
  Flight.booked_seats f = Flight.capacity f.
Proof.
  intros Hreach. apply more_full. by apply LedgerMoreFacts.reachable_more.
Qed.

Lemma nobody_waits_for_a_free_seat_witness :
  reachable (replay a_then_b_then_c)
  ∧ ∃ f, flights (replay a_then_b_then_c) !! "FL1" = Some f
      ∧ Flight.waiting_list f = ["pb"; "pc"]
      ∧ Flight.booked_seats f = Flight.capacity f.
Proof.
  assert (reachable (replay a_then_b_then_c)) as Hreach.
  { apply LedgerFacts.reachable_replay.
    repeat split; try (vm_compute; reflexivity); lia. }
  split; [exact Hreach|].
  destruct (flights (replay a_then_b_then_c) !! "FL1") as [f|] eqn:Hf;
    [|vm_compute in Hf; discriminate].
  assert (Flight.waiting_list f = ["pb"; "pc"]) as Hwl.
  { vm_compute in Hf. by injection Hf as <-. }
  exists f. split; [reflexivity|]. split; [exact Hwl|].
  apply (nobody_waits_for_a_free_seat _ "FL1" f Hreach Hf). by rewrite Hwl.
Defined.

(** X18: the confirmed passengers of a flight are the passengers of its
    confirmed bookings, and its waiting list holds the passengers of its
    waitlisted bookings, each as often as they have such a booking (the
    lists agree up to their order); [booked_seats] is the number of
    confirmed bookings for the flight.
    The states are those that calls on a new system reach without
    [add_flight] being given a flight id that is in use or a negative
    capacity, and without [uuid4] returning a passenger or booking id that
    is in use (this is [reachable]); the code checks none of this, and in
    other states the property can fail. *)
Theorem flight_lists_match_bookings (st : t) (fid : string) (f : Flight.t) :
  reachable st →
  flights st !! fid = Some f →
  Flight.passengers f ≡ₚ booked_by fid Booking.CONFIRMED (bookings st)
  ∧ Flight.waiting_list f ≡ₚ booked_by fid Booking.WAITLISTED (bookings st)
  ∧ Flight.booked_seats f
    = Z.of_nat (length (booked_by fid Booking.CONFIRMED (bookings st))).
Proof.
  intros Hinv%LedgerFacts.reachable_inv Hf.
  assert (Flight.passengers f ≡ₚ booked_by fid Booking.CONFIRMED (bookings st)) as Hc.
  { apply CountFacts.same_occurrences_perm. intros p.
    rewrite CountFacts.occurrences_booked_by. by apply (inv_confirmed st Hinv). }
  split; [exact Hc|]. split.
  - apply CountFacts.same_occurrences_perm. intros p.
    rewrite CountFacts.occurrences_booked_by. by apply (inv_waitlisted st Hinv).
  - destruct (inv_seats st Hinv fid f Hf) as [_ ->]. by rewrite Hc.
Qed.

Lemma flight_lists_match_bookings_witness :
  reachable (replay a_then_b_then_c)
  ∧ booked_by "FL1" Booking.CONFIRMED (bookings (replay a_then_b_then_c)) = ["pa"]
  ∧ booked_by "FL1" Booking.WAITLISTED (bookings (replay a_then_b_then_c)) = ["pb"; "pc"]
  ∧ ∃ f, flights (replay a_then_b_then_c) !! "FL1" = Some f
      ∧ Flight.passengers f ≡ₚ ["pa"]
      ∧ Flight.waiting_list f ≡ₚ ["pb"; "pc"]
      ∧ Flight.booked_seats f = 1.
Proof.
  assert (reachable (replay a_then_b_then_c)) as Hreach.
  { apply LedgerFacts.reachable_replay.
    repeat split; try (vm_compute; reflexivity); lia. }
  assert (booked_by "FL1" Booking.CONFIRMED (bookings (replay a_then_b_then_c)) = ["pa"])
    as Hc by (vm_compute; reflexivity).
  assert (booked_by "FL1" Booking.WAITLISTED (bookings (replay a_then_b_then_c))
          = ["pb"; "pc"]) as Hw by (vm_compute; reflexivity).
  split; [exact Hreach|]. split; [exact Hc|]. split; [exact Hw|].
  destruct (flights (replay a_then_b_then_c) !! "FL1") as [f|] eqn:Hf;
    [|vm_compute in Hf; discriminate].
  exists f. split; [reflexivity|].
  destruct (flight_lists_match_bookings _ "FL1" f Hreach Hf) as (H1 & H2 & H3).
  rewrite Hc in H1, H3. rewrite Hw in H2. split; [exact H1|]. split; [exact H2|exact H3].
Defined.

(** X14: [cancel_booking] on a booking that is not cancelled yet returns
    [True] (it raises neither [KeyError] nor [ValueError]); afterwards the
    booking is the same but cancelled, its id is no longer on the list of
    its passenger, and the other passengers are as they were.
    The states are those that calls on a new system reach without
    [add_flight] being given a flight id that is in use or a negative
    capacity, and without [uuid4] returning a passenger or booking id that
    is in use (this is [reachable]); the code checks none of this, and in
    other states the property can fail. *)
Theorem cancel_active_booking (st : t) (bid : string) (b : Booking.t) :
  reachable st →
  dict_get bid (bookings st) = Some b →
  Booking.status b ≠ Booking.CANCELLED →
  ∃ st' P',
    cancel_booking st bid = Returned st' true
    ∧ dict_get bid (bookings st') = Some (Booking.set_status Booking.CANCELLED b)
    ∧ passengers st' !! Booking.passenger_id b = Some P'
    ∧ (bid ∉ Passenger.bookings P')
    ∧ ∀ pid, pid ≠ Booking.passenger_id b → passengers st' !! pid = passengers st !! pid.
Proof.
  intros Hinv%LedgerFacts.reachable_inv Hget Hs.
  destruct (LedgerFacts.ledger_refs st bid b Hinv Hget) as (f & P & Hf & HP & Hocc).
  rewrite decide_False in Hocc by done.
  assert (∀ bks bs1 f',
            list_remove bid (Passenger.bookings P) = Some bks →
            dict_get bid bs1 = Some b →
            cancel_booking st bid = Returned (after_cancel st bid b P bks bs1 f') true →
            ∃ st' P',
              cancel_booking st bid = Returned st' true
              ∧ dict_get bid (bookings st')
                = Some (Booking.set_status Booking.CANCELLED b)
              ∧ passengers st' !! Booking.passenger_id b = Some P'
              ∧ (bid ∉ Passenger.bookings P')
              ∧ ∀ pid, pid ≠ Booking.passenger_id b →
                       passengers st' !! pid = passengers st !! pid) as Hdone.
  { intros bks bs1 f' Hbks Hget1 Hrun. eexists _, _. split; [exact Hrun|]. simpl.
    split; [by rewrite ContainerFacts.dict_get_alter, decide_True, Hget1|].
    split; [apply lookup_insert_eq|]. simpl. split.
    - apply ContainerFacts.occurrences_zero.
      pose proof (ContainerFacts.list_remove_occurrences bid bid _ _ Hbks) as Hrem.
      rewrite decide_True in Hrem by done. lia.
    - intros pid Hne. by apply lookup_insert_ne. }
  destruct (Booking.status b) eqn:Hstatus; [|done|].
  - destruct (LedgerFacts.cancel_confirmed st bid b f P Hinv Hget Hstatus Hf HP)
      as (ps & bks & Hps & Hbks & Hrun).
    destruct (Flight.waiting_list f) as [|next wl]; [by eapply Hdone|].
    destruct Hrun as (bs1 & Hcw & Hrun). eapply Hdone; [exact Hbks| |exact Hrun].
    destruct (LedgerFacts.confirm_waitlisted_restatus _ _ _ _ Hcw)
      as (k1 & b1 & Hre & _ & _ & Hs1).
    rewrite (LedgerFacts.restatus_get _ _ _ _ _ bid Hre (inv_keys st Hinv)); [done|].
    intros ->. pose proof (LedgerFacts.restatus_elem_old _ _ _ _ _ Hre) as Hin1.
    apply (ContainerFacts.elem_dict_get _ _ _ (inv_keys st Hinv)) in Hin1. congruence.
  - destruct (LedgerFacts.cancel_waitlisted st bid b f P Hinv Hget Hstatus Hf HP)
      as (wl & bks & Hwl & Hbks & Hrun). by eapply Hdone.
Qed.

(** B, who waits in scenario A, cancels. *)
Lemma cancel_active_booking_witness :
  reachable (replay a_then_b)
  ∧ dict_get "bb" (bookings (replay a_then_b))
    = Some (Booking.mk "bb" "pb" "FL1" 2 Booking.WAITLISTED)
  ∧ ∃ st' P',
      cancel_booking (replay a_then_b) "bb" = Returned st' true
      ∧ dict_get "bb" (bookings st')
        = Some (Booking.mk "bb" "pb" "FL1" 2 Booking.CANCELLED)
      ∧ passengers st' !! "pb" = Some P'
      ∧ "bb" ∉ Passenger.bookings P'.
Proof.
  assert (reachable (replay a_then_b)) as Hreach.
  { apply LedgerFacts.reachable_replay.
    repeat split; try (vm_compute; reflexivity); lia. }
  assert (dict_get "bb" (bookings (replay a_then_b))
          = Some (Booking.mk "bb" "pb" "FL1" 2 Booking.WAITLISTED)) as Hget
    by (vm_compute; reflexivity).
  split; [exact Hreach|]. split; [exact Hget|].
  destruct (cancel_active_booking (replay a_then_b) "bb" _ Hreach Hget)
    as (st' & P' & Hrun & Hb & HP & Hnin & _); [done|].
  by exists st', P'.
Defined.

(** X15: the cancellation of a waitlisted booking takes the first entry of
    its passenger off the waiting list of the flight and touches nothing
    else of the ledger: the seats and the confirmed passengers of the
    flight, the other flights and the other bookings are as they were, and
    nobody is promoted.
    The states are those that calls on a new system reach without
    [add_flight] being given a flight id that is in use or a negative
    capacity, and without [uuid4] returning a passenger or booking id that
    is in use (this is [reachable]); the code checks none of this, and in
    other states the property can fail. *)
Theorem cancel_waitlisted_booking (st : t) (bid : string) (b : Booking.t) (f : Flight.t) :
  reachable st →
  dict_get bid (bookings st) = Some b →
  Booking.status b = Booking.WAITLISTED →
  flights st !! Booking.flight_id b = Some f →
  ∃ st' wl,
    cancel_booking st bid = Returned st' true
    ∧ list_remove (Booking.passenger_id b) (Flight.waiting_list f) = Some wl
    ∧ flights st'
      = <[Booking.flight_id b :=
            with_ledger f (Flight.booked_seats f) (Flight.passengers f) wl]> (flights st)
    ∧ bookings st' = dict_alter (Booking.set_status Booking.CANCELLED) bid (bookings st)
    ∧ ∀ k, k ≠ bid → dict_get k (bookings st') = dict_get k (bookings st).
Proof.
  intros Hinv%LedgerFacts.reachable_inv Hget Hs Hf.
  destruct (LedgerFacts.ledger_refs st bid b Hinv Hget) as (f0 & P & Hf0 & HP & _).
  replace f0 with f in * by congruence.
  destruct (LedgerFacts.cancel_waitlisted st bid b f P Hinv Hget Hs Hf HP)
    as (wl & bks & Hwl & Hbks & Hrun).
  eexists _, wl. split; [exact Hrun|]. split; [done|]. simpl.
  split; [done|]. split; [done|].
  intros k Hne. by rewrite ContainerFacts.dict_get_alter, decide_False.
Qed.

Lemma cancel_waitlisted_booking_witness :
  reachable (replay a_then_b_then_c)
  ∧ dict_get "bb" (bookings (replay a_then_b_then_c))
    = Some (Booking.mk "bb" "pb" "FL1" 2 Booking.WAITLISTED)
  ∧ Flight.waiting_list <$> flights (replay a_then_b_then_c) !! "FL1" = Some ["pb"; "pc"]
  ∧ ∃ st',
      cancel_booking (replay a_then_b_then_c) "bb" = Returned st' true
      ∧ Flight.waiting_list <$> flights st' !! "FL1" = Some ["pc"]
      ∧ Flight.booked_seats <$> flights st' !! "FL1" = Some 1.
Proof.
  assert (reachable (replay a_then_b_then_c)) as Hreach.
  { apply LedgerFacts.reachable_replay.
    repeat split; try (vm_compute; reflexivity); lia. }
  assert (dict_get "bb" (bookings (replay a_then_b_then_c))
          = Some (Booking.mk "bb" "pb" "FL1" 2 Booking.WAITLISTED)) as Hget
    by (vm_compute; reflexivity).
  assert (flights (replay a_then_b_then_c) !! "FL1"
          = Some (Flight.mk "FL1" "NYC" "LAX" "08:00" "11:00" 1 500 2445 1
                    ["pa"] ["pb"; "pc"])) as Hf by (vm_compute; reflexivity).
  split; [exact Hreach|]. split; [exact Hget|]. split; [by rewrite Hf|].
  destruct (cancel_waitlisted_booking (replay a_then_b_then_c) "bb" _ _
              Hreach Hget eq_refl Hf) as (st' & wl & Hrun & Hwl & Hfl & _).
  exists st'. split; [exact Hrun|]. rewrite Hfl. simpl in Hwl |- *.
  rewrite lookup_insert_eq. simpl. injection Hwl as <-. done.
Defined.

(** X16: the cancellation of a confirmed booking on a flight with nobody
    waiting frees the seat: [booked_seats] goes down by one and stays at or
    above zero, the first entry of the passenger leaves the confirmed list,
    and no other flight and no other booking changes.
    The states are those that calls on a new system reach without
    [add_flight] being given a flight id that is in use or a negative
    capacity, and without [uuid4] returning a passenger or booking id that
    is in use (this is [reachable]); the code checks none of this, and in
    other states the property can fail. *)
Theorem cancel_confirmed_frees_seat (st : t) (bid : string) (b : Booking.t) (f : Flight.t) :
  reachable st →
  dict_get bid (bookings st) = Some b →
  Booking.status b = Booking.CONFIRMED →
  flights st !! Booking.flight_id b = Some f →
  Flight.waiting_list f = [] →
  ∃ st' ps,
    cancel_booking st bid = Returned st' true
    ∧ list_remove (Booking.passenger_id b) (Flight.passengers f) = Some ps
    ∧ flights st'
      = <[Booking.flight_id b := with_ledger f (Flight.booked_seats f - 1) ps []]>
          (flights st)
    ∧ 0 ≤ Flight.booked_seats f - 1
    ∧ bookings st' = dict_alter (Booking.set_status Booking.CANCELLED) bid (bookings st)
    ∧ ∀ k, k ≠ bid → dict_get k (bookings st') = dict_get k (bookings st).
Proof.
  intros Hinv%LedgerFacts.reachable_inv Hget Hs Hf Hwl.
  destruct (LedgerFacts.ledger_refs st bid b Hinv Hget) as (f0 & P & Hf0 & HP & _).
  replace f0 with f in * by congruence.
  destruct (LedgerFacts.cancel_confirmed st bid b f P Hinv Hget Hs Hf HP)
    as (ps & bks & Hps & Hbks & Hrun).
  rewrite Hwl in Hrun.
  eexists _, ps. split; [exact Hrun|]. split; [done|]. simpl.
  split; [done|]. split.
  - destruct (inv_seats st Hinv _ f Hf) as [_ Hlen].
    apply ContainerFacts.list_remove_length in Hps. lia.
  - split; [done|]. intros k Hne.
    by rewrite ContainerFacts.dict_get_alter, decide_False.
Qed.

Lemma cancel_confirmed_frees_seat_witness :
  ∃ st,
    reachable st
    ∧ dict_get "ba" (bookings st) = Some (Booking.mk "ba" "pa" "FL1" 1 Booking.CONFIRMED)
    ∧ Flight.booked_seats <$> flights st !! "FL1" = Some 1
    ∧ ∃ st',
        cancel_booking st "ba" = Returned st' true
        ∧ Flight.booked_seats <$> flights st' !! "FL1" = Some 0
        ∧ Flight.passengers <$> flights st' !! "FL1" = Some [].
Proof.
  exists (replay (one_seat ++ [BookFlight "pa" "FL1" "ba" 1])).
  assert (reachable (replay (one_seat ++ [BookFlight "pa" "FL1" "ba" 1]))) as Hreach.
  { apply LedgerFacts.reachable_replay.
    repeat split; try (vm_compute; reflexivity); lia. }
  assert (dict_get "ba" (bookings (replay (one_seat ++ [BookFlight "pa" "FL1" "ba" 1])))
          = Some (Booking.mk "ba" "pa" "FL1" 1 Booking.CONFIRMED)) as Hget
    by (vm_compute; reflexivity).
  assert (flights (replay (one_seat ++ [BookFlight "pa" "FL1" "ba" 1])) !! "FL1"
          = Some (Flight.mk "FL1" "NYC" "LAX" "08:00" "11:00" 1 500 2445 1 ["pa"] []))
    as Hf by (vm_compute; reflexivity).
  split; [exact Hreach|]. split; [exact Hget|]. split; [by rewrite Hf|].
  destruct (cancel_confirmed_frees_seat _ "ba" _ _ Hreach Hget eq_refl Hf eq_refl)
    as (st' & ps & Hrun & Hps & Hfl & _).
  exists st'. split; [exact Hrun|]. rewrite Hfl. simpl in Hps |- *.
  rewrite lookup_insert_eq. simpl. injection Hps as <-. done.
Defined.

(** X19: in a reachable state [get_passenger_bookings] does not raise; for
    a passenger of the system it returns one booking for every id on the
    list of the passenger, and these are exactly the bookings of that
    passenger that are not cancelled; for an unknown passenger it returns
    the empty list. *)
Theorem get_passenger_bookings_active (st : t) (pid : string) :
  reachable st →
  match passengers st !! pid with
  | None => get_passenger_bookings st pid = Returned st []
  | Some P =>
      ∃ found,
        get_passenger_bookings st pid = Returned st found
        ∧ length found = length (Passenger.bookings P)
        ∧ ∀ b, b ∈ found ↔
               ∃ bid, dict_get bid (bookings st) = Some b
                 ∧ Booking.passenger_id b = pid
                 ∧ Booking.status b ≠ Booking.CANCELLED
  end.
Proof.
  intros Hreach. pose proof (LedgerFacts.reachable_inv st Hreach) as Hinv.
  pose proof (LedgerMoreFacts.reachable_more st Hreach) as Hmore.
  unfold get_passenger_bookings. destruct (passengers st !! pid) as [P|] eqn:HP; [|done].
  set (found := omap (λ bid, dict_get bid (bookings st)) (Passenger.bookings P)).
  assert (∀ b, b ∈ found ↔
               ∃ bid, bid ∈ Passenger.bookings P ∧ dict_get bid (bookings st) = Some b)
    as Hfound by (intros b; apply list_elem_of_omap).
  exists found. split; [|split].
  - rewrite (proj2 (forallb_forall _ found)); [done|].
    intros b (bid & _ & Hget)%list_elem_of_In%Hfound.
    apply bool_decide_eq_true. apply ContainerFacts.dict_get_elem in Hget.
    by destruct (inv_refs st Hinv bid b Hget).
  - subst found. clear Hfound.
    assert (∀ bid, bid ∈ Passenger.bookings P → bid ∈ (bookings st).*1) as Hl
      by (intros bid; by apply (inv_listed st Hinv pid P)).
    induction (Passenger.bookings P) as [|bid l IH]; csimpl; [done|].
    destruct (dict_get bid (bookings st)) as [b|] eqn:Hget.
    + csimpl. rewrite IH; [done|]. intros bid' Hin'. apply Hl. by apply list_elem_of_further.
    + apply ContainerFacts.dict_get_None in Hget. destruct Hget.
      apply Hl, list_elem_of_here.
  - intros b. rewrite Hfound. split.
    + intros (bid & Hin & Hget). exists bid. split; [done|].
      pose proof (more_owner st Hmore pid P bid b HP Hin Hget) as Hpid.
      split; [done|]. intros Hs.
      destruct (LedgerFacts.ledger_refs st bid b Hinv Hget) as (_ & P0 & _ & HP0 & Hocc).
      rewrite Hpid in HP0. replace P0 with P in * by congruence.
      rewrite decide_True in Hocc by done.
      by apply ContainerFacts.occurrences_zero in Hocc.
    + intros (bid & Hget & Hpid & Hs). exists bid. split; [|done].
      destruct (LedgerFacts.ledger_refs st bid b Hinv Hget) as (_ & P0 & _ & HP0 & Hocc).
      rewrite Hpid in HP0. replace P0 with P in * by congruence.
      rewrite decide_False in Hocc by done.
      apply dec_stable. intros Hnin%ContainerFacts.occurrences_zero. lia.
Qed.

(** After A has cancelled, A has no booking left and B has the one that was
    promoted. *)
Lemma get_passenger_bookings_active_witness :
  reachable (run (replay a_then_b) (CancelBooking "ba"))
  ∧ get_passenger_bookings (run (replay a_then_b) (CancelBooking "ba")) "pa"
    = Returned (run (replay a_then_b) (CancelBooking "ba")) []
  ∧ get_passenger_bookings (run (replay a_then_b) (CancelBooking "ba")) "pb"
    = Returned (run (replay a_then_b) (CancelBooking "ba"))
        [Booking.mk "bb" "pb" "FL1" 2 Booking.CONFIRMED]
  ∧ ∃ found,
      get_passenger_bookings (run (replay a_then_b) (CancelBooking "ba")) "pb"
      = Returned (run (replay a_then_b) (CancelBooking "ba")) found
      ∧ ∀ b, b ∈ found ↔
             ∃ bid, dict_get bid (bookings (run (replay a_then_b) (CancelBooking "ba")))
                    = Some b
               ∧ Booking.passenger_id b = "pb"
               ∧ Booking.status b ≠ Booking.CANCELLED.
Proof.
  assert (reachable (run (replay a_then_b) (CancelBooking "ba"))) as Hreach.
  { constructor; [|done]. apply LedgerFacts.reachable_replay.
    repeat split; try (vm_compute; reflexivity); lia. }
  split; [exact Hreach|]. split; [vm_compute; reflexivity|].
  split; [vm_compute; reflexivity|].
  pose proof (get_passenger_bookings_active _ "pb" Hreach) as Hq.
  destruct (passengers (run (replay a_then_b) (CancelBooking "ba")) !! "pb") as [P|] eqn:HP;
    [|vm_compute in HP; discriminate].
  destruct Hq as (found & Hrun & _ & Hiff). by exists found.
Defined.

(** X20: the counts of [get_system_stats] agree with the flights: the
    number of confirmed bookings is the sum of [booked_seats] over all
    flights, the number of waitlisted bookings is the sum of the lengths of
    the waiting lists, and the number of flights is the [size] of the
    schedule.
    The states are those that calls on a new system reach without
    [add_flight] being given a flight id that is in use or a negative
    capacity, and without [uuid4] returning a passenger or booking id that
    is in use (this is [reachable]); the code checks none of this, and in
    other states the property can fail. *)
Theorem stats_agree_with_flights (st : t) :
  reachable st →
  Z.of_nat (total_bookings (get_system_stats st)) = sum_flights Flight.booked_seats st
  ∧ Z.of_nat (total_waitlisted (get_system_stats st))
    = sum_flights (λ f, Z.of_nat (length (Flight.waiting_list f))) st
  ∧ Z.of_nat (total_flights (get_system_stats st))
    = FlightSchedule.size (flight_schedule st).
Proof.
  intros Hreach. pose proof (LedgerFacts.reachable_inv st Hreach) as Hinv.
  assert (∀ k b, (k, b) ∈ bookings st →
            Booking.flight_id b ∈ (map_to_list (flights st)).*1) as Hknown.
  { intros k b Hin. destruct (inv_refs st Hinv k b Hin) as [[f Hf] _].
    apply list_elem_of_fmap. exists (Booking.flight_id b, f).
    split; [done|]. by apply elem_of_map_to_list. }
  pose proof (NoDup_fst_map_to_list (flights st)) as Hnd.
  assert (∀ fid f, (fid, f) ∈ map_to_list (flights st) →
            Flight.passengers f ≡ₚ booked_by fid Booking.CONFIRMED (bookings st)
            ∧ Flight.waiting_list f ≡ₚ booked_by fid Booking.WAITLISTED (bookings st)
            ∧ Flight.booked_seats f = Z.of_nat (length (Flight.passengers f))) as Hflight.
  { intros fid f Hf%elem_of_map_to_list. split; [|split].
    - apply CountFacts.same_occurrences_perm. intros p.
      rewrite CountFacts.occurrences_booked_by. by apply (inv_confirmed st Hinv).
    - apply CountFacts.same_occurrences_perm. intros p.
      rewrite CountFacts.occurrences_booked_by. by apply (inv_waitlisted st Hinv).
    - by destruct (inv_seats st Hinv fid f Hf). }
  unfold sum_flights. simpl. split; [|split].
  - rewrite <- (CountFacts.sum_booked_by _ Booking.CONFIRMED (bookings st) Hnd Hknown).
    symmetry.
    apply (CountFacts.sum_flights_ext Flight.booked_seats
             (λ fid, Z.of_nat (length (booked_by fid Booking.CONFIRMED (bookings st))))).
    intros fid f Hf. destruct (Hflight fid f Hf) as (Hc & _ & ->). by rewrite Hc.
  - rewrite <- (CountFacts.sum_booked_by _ Booking.WAITLISTED (bookings st) Hnd Hknown).
    symmetry.
    apply (CountFacts.sum_flights_ext (λ f, Z.of_nat (length (Flight.waiting_list f)))
             (λ fid, Z.of_nat (length (booked_by fid Booking.WAITLISTED (bookings st))))).
    intros fid f Hf. destruct (Hflight fid f Hf) as (_ & Hw & _). by rewrite Hw.
  - clear Hinv Hknown Hnd Hflight.
    induction Hreach as [|st c Hreach IH Hadm]; [done|].
    destruct c as [a|fid o d dep arr cap p dist|pid n e ph|pid fid bid now|bid];
      simpl in *.
    + exact IH.
    + destruct Hadm as [Hfresh _].
      rewrite ScheduleFacts.add_flight_size, <- IH, map_size_insert_None by done. lia.
    + exact IH.
    + destruct (CatalogFacts.book_flight_catalog st pid fid bid now) as (_ & -> & Hdom).
      by rewrite <- size_dom, Hdom, size_dom.
    + destruct (CatalogFacts.cancel_booking_catalog st bid) as (_ & -> & Hdom).
      by rewrite <- size_dom, Hdom, size_dom.
Qed.

Lemma stats_agree_with_flights_witness :
  reachable (replay a_then_b_then_c)
  ∧ get_system_stats (replay a_then_b_then_c) = mk_stats 2 1 3 1 2
  ∧ sum_flights Flight.booked_seats (replay a_then_b_then_c) = 1
  ∧ sum_flights (λ f, Z.of_nat (length (Flight.waiting_list f))) (replay a_then_b_then_c) = 2
  ∧ FlightSchedule.size (flight_schedule (replay a_then_b_then_c)) = 1.
Proof.
  assert (reachable (replay a_then_b_then_c)) as Hreach.
  { apply LedgerFacts.reachable_replay.
    repeat split; try (vm_compute; reflexivity); lia. }
  assert (get_system_stats (replay a_then_b_then_c) = mk_stats 2 1 3 1 2) as Hstats
    by (vm_compute; reflexivity).
  destruct (stats_agree_with_flights _ Hreach) as (H1 & H2 & H3).
  rewrite Hstats in H1, H2, H3. simpl in H1, H2, H3.
  split; [exact Hreach|]. split; [exact Hstats|].
  split; [by rewrite <- H1|]. split; [by rewrite <- H2|by rewrite <- H3].
Defined.

End LedgerProperties.
